(** * Code_Visualizer: the stepwise execution tracer of [a.py]

    A shallow embedding of the tracer core of [a.py] and the properties
    checked against it.  Definitions come first:

    - [PyStr]      the Python string operations the tracer relies on
                   ([splitlines], [strip], [startswith], [in], slicing,
                   [os.path.basename], the one regular expression);
    - [Sanitizer]  [sanitize_traceback_paths];
    - [Heap]       the object store: identities, values, candidates;
    - [Render]     [WebDebugger._safe_repr];
    - [Extract]    [WebDebugger.extract_visualizables];
    - [Session]    the debugger object, its hooks ([user_call],
                   [user_return], [user_line]), the input mock and
                   [run_debugger];
    - [Examples]   concrete hosts, stores and submissions.

    The properties follow, in [SessionFacts], [SanitizerFacts] and
    [ExtractFacts].

    Conventions.  A Python [str] is a [string] whose characters are the
    code points below 256, and paths are posix paths.  [id(obj)] is a [Z].
    A Python exception is a value of an error type; the interpreter's
    recursion limit is an explicit depth budget, and exhausting it is
    [RecursionError].  The host ([os.path.abspath], [sys.prefix], the path
    of the script) is a record passed explicitly.  The interpreter that
    runs a submission under the hooks is not part of the tracer: a
    submission is the tree of the trace events and console operations it
    causes, which the engine of the standard library ([bdb.Bdb]) hands
    to the hooks. *)

From Stdlib Require Import ZArith Lia Ascii String List Bool Sorted.
From stdpp Require Import gmap strings list.
Import ListNotations.

(* ===================================================================== *)
(** * Python strings                                                      *)
(* ===================================================================== *)

Module PyStr.

Definition dquote : ascii := ascii_of_nat 34.
Definition squote : ascii := ascii_of_nat 39.
Definition slash : ascii := ascii_of_nat 47.
Definition backslash : ascii := ascii_of_nat 92.
Definition newline : ascii := ascii_of_nat 10.
Definition creturn : ascii := ascii_of_nat 13.

Definition chr (c : ascii) : string := String c EmptyString.
Definition LF : string := chr newline.

(** [s + t] on strings. *)
Definition cat (s t : string) : string := String.append s t.
Infix "^^" := cat (at level 60, right associativity).

(** [sep.join(parts)]. *)
Fixpoint join (sep : string) (parts : list string) : string :=
  match parts with
  | [] => EmptyString
  | [p] => p
  | p :: ps => p ^^ sep ^^ join sep ps
  end.

Definition is_empty (s : string) : bool :=
  match s with EmptyString => true | _ => false end.

(** [len(s)]. *)
Definition len (s : string) : nat := String.length s.

(** [s[:n]] and [s[n:]]. *)
Fixpoint take (n : nat) (s : string) : string :=
  match n, s with
  | S n', String c s' => String c (take n' s')
  | _, _ => EmptyString
  end.

Fixpoint drop (n : nat) (s : string) : string :=
  match n, s with
  | S n', String _ s' => drop n' s'
  | _, _ => s
  end.

(** [s.startswith(p)]. *)
Fixpoint startswith (s p : string) {struct p} : bool :=
  match p, s with
  | EmptyString, _ => true
  | String a p', String b s' => Ascii.eqb a b && startswith s' p'
  | String _ _, EmptyString => false
  end.

(** [p in s] for strings. *)
Fixpoint contains (s p : string) : bool :=
  startswith s p ||
  match s with
  | EmptyString => false
  | String _ s' => contains s' p
  end.

(** [c in s] for one character. *)
Fixpoint has_char (c : ascii) (s : string) : bool :=
  match s with
  | EmptyString => false
  | String a s' => Ascii.eqb a c || has_char c s'
  end.

Fixpoint map_chars (f : ascii -> ascii) (s : string) : string :=
  match s with
  | EmptyString => EmptyString
  | String c s' => String (f c) (map_chars f s')
  end.

Fixpoint rev_onto (s acc : string) : string :=
  match s with
  | EmptyString => acc
  | String c s' => rev_onto s' (String c acc)
  end.

Definition rev (s : string) : string := rev_onto s EmptyString.

(** [str.isspace] on one character below 256. *)
Definition isspace (c : ascii) : bool :=
  let n := nat_of_ascii c in
  ((9 <=? n) && (n <=? 13)) || ((28 <=? n) && (n <=? 32))
  || (n =? 133) || (n =? 160).

Fixpoint lstrip (s : string) : string :=
  match s with
  | String c s' => if isspace c then lstrip s' else s
  | EmptyString => EmptyString
  end.

(** [s.strip()]. *)
Definition strip (s : string) : string := rev (lstrip (rev (lstrip s))).

(** The line boundaries of [str.splitlines] below 256. *)
Definition is_linebreak (c : ascii) : bool :=
  let n := nat_of_ascii c in
  ((10 <=? n) && (n <=? 13)) || ((28 <=? n) && (n <=? 30)) || (n =? 133).

(** [s.splitlines()]: a carriage return followed by a line feed is one
    boundary, and a trailing boundary opens no empty last line.  [cur]
    holds the current line reversed. *)
Fixpoint splitlines_from (cur : string) (s : string) : list string :=
  match s with
  | EmptyString => if is_empty cur then [] else [rev cur]
  | String c rest =>
      if is_linebreak c then
        rev cur ::
          (if Ascii.eqb c creturn then
             match rest with
             | String d rest' =>
                 if Ascii.eqb d newline then splitlines_from EmptyString rest'
                 else splitlines_from EmptyString rest
             | EmptyString => splitlines_from EmptyString rest
             end
           else splitlines_from EmptyString rest)
      else splitlines_from (String c cur) rest
  end.

Definition splitlines (s : string) : list string :=
  splitlines_from EmptyString s.

(** [s.lower()] on the letters A to Z. *)
Definition lower_char (c : ascii) : ascii :=
  let n := nat_of_ascii c in
  if (65 <=? n) && (n <=? 90) then ascii_of_nat (n + 32) else c.

Definition lower (s : string) : string := map_chars lower_char s.

(** [s.replace(a, b)] for single characters. *)
Definition replace_char (a b : ascii) (s : string) : string :=
  map_chars (fun c => if Ascii.eqb c a then b else c) s.

(** [os.path.basename] (posixpath): what follows the last slash.  [cur]
    holds the current component reversed. *)
Fixpoint basename_from (cur : string) (p : string) : string :=
  match p with
  | EmptyString => rev cur
  | String c p' =>
      if Ascii.eqb c slash then basename_from EmptyString p'
      else basename_from (String c cur) p'
  end.

Definition basename (p : string) : string := basename_from EmptyString p.

Definition is_digit (c : ascii) : bool :=
  let n := nat_of_ascii c in (48 <=? n) && (n <=? 57).

(** The longest prefix of [s] whose characters satisfy [f], and the rest. *)
Fixpoint span (f : ascii -> bool) (s : string) : string * string :=
  match s with
  | String c s' =>
      if f c then let '(a, b) := span f s' in (String c a, b)
      else (EmptyString, s)
  | EmptyString => (EmptyString, EmptyString)
  end.

(** [str(n)] for a natural number. *)
Definition digit_char (d : nat) : ascii :=
  if d <? 10 then ascii_of_nat (48 + d) else ascii_of_nat (87 + d).

Fixpoint pos_digits (base : positive) (fuel : nat) (n : N) (acc : string)
  : string :=
  match fuel with
  | O => acc
  | S fuel' =>
      let d := N.to_nat (N.modulo n (Npos base)) in
      let q := N.div n (Npos base) in
      let acc' := String (digit_char d) acc in
      if N.eqb q 0 then acc' else pos_digits base fuel' q acc'
  end.

Definition N_digits (base : positive) (n : N) : string :=
  pos_digits base (S (N.to_nat (N.log2 n))) n EmptyString.

Definition str_nat (n : nat) : string := N_digits 10 (N.of_nat n).

(** [str(z)] and [format(z, 'x')] for an integer. *)
Definition str_Z (z : Z) : string :=
  if (z <? 0)%Z then "-" ^^ N_digits 10 (Z.abs_N z) else N_digits 10 (Z.abs_N z).

Definition format_x (z : Z) : string :=
  if (z <? 0)%Z then "-" ^^ N_digits 16 (Z.abs_N z) else N_digits 16 (Z.abs_N z).

(** [hex(z)]. *)
Definition hex (z : Z) : string :=
  if (z <? 0)%Z then "-0x" ^^ N_digits 16 (Z.abs_N z)
  else "0x" ^^ N_digits 16 (Z.abs_N z).

(** ** The frame-location pattern of [sanitize_traceback_paths]

    The pattern is the word File, a space, a double quote, group 1 (one
    or more characters other than a double quote), a double quote, and an
    optional group 2 (a comma, [line], decimal digits, a comma, [in] and
    the rest of the line).  [match_file_at s] matches it at the start of
    [s] and returns group 1 and group 2 (the empty string when the
    optional group does not take part). *)
Definition not_dquote (c : ascii) : bool := negb (Ascii.eqb c dquote).
Definition not_newline (c : ascii) : bool := negb (Ascii.eqb c newline).

Definition file_open : string := "File " ^^ chr dquote.

Definition match_rest_group (after : string) : option string :=
  if startswith after ", line " then
    let '(digits, r1) := span is_digit (drop 7 after) in
    if is_empty digits then None
    else if startswith r1 ", in " then
      let '(name, _) := span not_newline (drop 5 r1) in
      Some (", line " ^^ digits ^^ ", in " ^^ name)
    else None
  else None.

Definition match_file_at (s : string) : option (string * string) :=
  if startswith s file_open then
    let '(path, after) := span not_dquote (drop 6 s) in
    if is_empty path then None
    else match after with
         | String _ after' =>
             Some (path, match match_rest_group after' with
                         | Some g => g
                         | None => EmptyString
                         end)
         | EmptyString => None
         end
  else None.

(** [re.search]: the leftmost position where the pattern matches. *)
Fixpoint search_file (s : string) : option (string * string) :=
  match match_file_at s with
  | Some r => Some r
  | None =>
      match s with
      | EmptyString => None
      | String _ s' => search_file s'
      end
  end.

End PyStr.

(* ===================================================================== *)
(** * The host and Python exceptions                                      *)
(* ===================================================================== *)

(** The exceptions the model distinguishes. *)
Inductive exn :=
| RecursionError
| TypeError (msg : string)
| OtherError (name msg : string).

(** What the tracer reads from its host process.  [abspath] is
    [os.path.abspath] ([None] when it raises), [python_std_lib_prefix] is
    [os.path.abspath(sys.prefix)], [debugger_script_abs] the absolute path
    of [a.py], [recursion_depth] the number of nested calls the
    interpreter still allows where the tracer starts rendering a value, and
    [format_exc] is [traceback.format_exc()] for an exception caught in
    the tracer. *)
Record host := {
  abspath : string -> option string;
  python_std_lib_prefix : string;
  debugger_script_abs : string;
  recursion_depth : nat;
  format_exc : exn -> string
}.

Inductive res (A : Type) :=
| Ok (a : A)
| Raise (e : exn).
Arguments Ok {A} a.
Arguments Raise {A} e.

Definition bind {A B} (r : res A) (k : A -> res B) : res B :=
  match r with
  | Ok a => k a
  | Raise e => Raise e
  end.

Notation "x <- r ;; k" := (bind r (fun x => k))
  (at level 100, r at next level, right associativity).

(** A list comprehension whose element expression may raise. *)
Fixpoint map_res {A B} (f : A -> res B) (l : list A) : res (list B) :=
  match l with
  | [] => Ok []
  | a :: l' => b <- f a ;; bs <- map_res f l' ;; Ok (b :: bs)
  end.

(* ===================================================================== *)
(** * [sanitize_traceback_paths]                                          *)
(* ===================================================================== *)

Module Sanitizer.
Import PyStr.

(** Lines 50 to 74: the display text for the path of one frame line and
    whether it is the user-code marker. *)
Definition sanitized_filepath_display (env : host) (filepath_raw : string)
  : string * bool :=
  let filename := basename filepath_raw in
  if String.eqb filepath_raw "<string>" then ("Your Code", true)
  else
    match abspath env filepath_raw with
    | Some abs_filepath =>
        let flask_path :=
          contains (replace_char backslash slash (lower abs_filepath)) "flask" in
        if String.eqb abs_filepath (debugger_script_abs env) then
          ("<Debugger Internals (" ^^ filename ^^ ")>", false)
        else if startswith abs_filepath (python_std_lib_prefix env)
                || contains filename "bdb.py" || flask_path then
          let lib_type :=
            if contains filename "bdb.py" then "Python Debugger Library"
            else if flask_path then "Flask Internals"
            else "Python System Library" in
          ("<" ^^ lib_type ^^ " (" ^^ filename ^^ ")>", false)
        else ("<External Code (" ^^ filename ^^ ")>", false)
    | None => ("<External Code (" ^^ filename ^^ ")> (Path Error)", false)
    end.

(** Lines 43 to 75: one line of the loop body, before the filter on
    [originated_in_user_code]. *)
Definition sanitize_line (env : host) (line : string) : string * bool :=
  let is_file_line := startswith (strip line) file_open in
  if is_file_line then
    match search_file line with
    | Some (filepath_raw, rest_of_line) =>
        let '(display, marker) := sanitized_filepath_display env filepath_raw in
        ("  File " ^^ chr dquote ^^ display ^^ chr dquote ^^ rest_of_line, marker)
    | None => (line, false)
    end
  else (line, false).

(** Lines 42 to 81: the loop over [lines[1:]]; returns the lines appended
    to [sanitized_lines] and the final [user_code_frames_started]. *)
Fixpoint sanitize_lines (env : host) (originated_in_user_code : bool)
    (user_code_frames_started : bool) (lines : list string)
  : list string * bool :=
  match lines with
  | [] => ([], user_code_frames_started)
  | line0 :: rest =>
      let '(line, current_line_is_user_code_marker) := sanitize_line env line0 in
      if originated_in_user_code then
        let started :=
          if current_line_is_user_code_marker then true
          else user_code_frames_started in
        let '(out, final) := sanitize_lines env originated_in_user_code started rest in
        (if started then line :: out else out, final)
      else
        let '(out, final) :=
          sanitize_lines env originated_in_user_code user_code_frames_started rest in
        (line :: out, final)
  end.

(** The body of the function, with the recursive call of line 84 as
    [self]. *)
Definition sanitize_body (env : host) (self : string -> bool -> string)
    (traceback_str : string) (originated_in_user_code : bool) : string :=
  let lines := splitlines traceback_str in
  match lines with
  | [] => traceback_str
  | first :: rest =>
      let '(sanitized_tail, user_code_frames_started) :=
        sanitize_lines env originated_in_user_code false rest in
      if originated_in_user_code && negb user_code_frames_started
         && (1 <? length lines) then
        self traceback_str false
      else join LF (first :: sanitized_tail)
  end.

(** The recursive call passes [False], and with [False] the function does
    not call itself: two unfoldings of the body are the whole function. *)
Definition sanitize_traceback_paths (env : host) (traceback_str : string)
    (originated_in_user_code : bool) : string :=
  sanitize_body env
    (sanitize_body env (fun s _ => s))
    traceback_str originated_in_user_code.

End Sanitizer.

(* ===================================================================== *)
(** * The object store                                                    *)
(* ===================================================================== *)

Module Heap.
Import PyStr.

(** [id(obj)]. *)
Definition ident := Z.

(** Values that are never graph nodes and carry no references the tracer
    follows.  A function and a bound method carry their [__module__] and
    their [__name__]. *)
Inductive opaque_kind :=
| OBytearray | ORange
| OFunction (fn_module fn_name : string)
| OBuiltinFunction
| OMethod (fn_module fn_name : string)
| OModule | ORoutine.

(** A live object.  Containers hold the identities of their elements in
    iteration order; a mapping holds its items in insertion order.  An
    instance holds the attribute mapping that [vars(obj)] updated with
    the slots gives ([None] when that introspection raises). *)
Inductive pyvalue :=
| VInt (z : Z)
| VBool (b : bool)
| VNone
| VFloat (text : string)
| VComplex (text : string)
| VStr (s : string)
| VBytes (b : string)
| VOpaque (k : opaque_kind)
| VClass (cls_module cls_name : string)
| VList (items : list ident)
| VTuple (items : list ident)
| VDeque (items : list ident)
| VSet (items : list ident)
| VDict (pairs : list (ident * ident))
| VNdarray (shape : ident) (dtype : string) (ndim size : nat)
           (text : res string) (flat : list ident)
| VInstance (cls_module cls_name : string)
            (attrs : option (list (string * ident))) (is_callable : bool).

(** The store at one moment: the object behind every identity, and what
    the built-in [repr(obj)] gives for it. *)
Record heap := {
  obj_at : ident -> pyvalue;
  repr_of : ident -> res string
}.

(** [type(obj).__name__]. *)
Definition type_name (v : pyvalue) : string :=
  match v with
  | VInt _ => "int"
  | VBool _ => "bool"
  | VNone => "NoneType"
  | VFloat _ => "float"
  | VComplex _ => "complex"
  | VStr _ => "str"
  | VBytes _ => "bytes"
  | VOpaque OBytearray => "bytearray"
  | VOpaque ORange => "range"
  | VOpaque (OFunction _ _) => "function"
  | VOpaque OBuiltinFunction => "builtin_function_or_method"
  | VOpaque (OMethod _ _) => "method"
  | VOpaque OModule => "module"
  | VOpaque ORoutine => "method_descriptor"
  | VClass _ _ => "type"
  | VList _ => "list"
  | VTuple _ => "tuple"
  | VDeque _ => "deque"
  | VSet _ => "set"
  | VDict _ => "dict"
  | VNdarray _ _ _ _ _ _ => "ndarray"
  | VInstance _ n _ _ => n
  end.

(** [type(obj).__module__]. *)
Definition type_module (v : pyvalue) : string :=
  match v with
  | VDeque _ => "collections"
  | VNdarray _ _ _ _ _ _ => "numpy"
  | VInstance m _ _ _ => m
  | _ => "builtins"
  end.

(** [str(type(obj))]. *)
Definition type_str (v : pyvalue) : string :=
  match v with
  | VDeque _ | VNdarray _ _ _ _ _ _ | VInstance _ _ _ _ =>
      "<class '" ^^ type_module v ^^ "." ^^ type_name v ^^ "'>"
  | _ => "<class '" ^^ type_name v ^^ "'>"
  end.

(** [callable(obj)]. *)
Definition callable (v : pyvalue) : bool :=
  match v with
  | VOpaque (OFunction _ _) | VOpaque OBuiltinFunction | VOpaque (OMethod _ _)
  | VOpaque ORoutine | VClass _ _ => true
  | VInstance _ _ _ c => c
  | _ => false
  end.

(** [isinstance(obj, (types.ModuleType, type))]. *)
Definition is_module_or_type (v : pyvalue) : bool :=
  match v with
  | VOpaque OModule | VClass _ _ => true
  | _ => false
  end.

(** The module prefixes of line 246. *)
Definition non_candidate_module_prefixes : list string :=
  ["builtins"; "__builtin__"; "io."; "os."; "sys."; "re."; "json.";
   "datetime."; "math."; "socket."; "threading."; "queue."; "abc."].

Definition _is_visualizable_candidate (h : heap) (value : ident) : bool :=
  match obj_at h value with
  | VList _ | VTuple _ | VDict _ | VDeque _ | VSet _ => true
  | VInt _ | VFloat _ | VStr _ | VBool _ | VBytes _ | VComplex _ | VNone
  | VOpaque _ | VClass _ _ => false
  | v =>
      negb (existsb (startswith (type_module v)) non_candidate_module_prefixes)
  end.

(** [len(obj)] of a container. *)
Definition container_len (v : pyvalue) : option nat :=
  match v with
  | VList l | VTuple l | VDeque l | VSet l => Some (length l)
  | VDict p => Some (length p)
  | _ => None
  end.

(** ** [repr] of a [str] and of a [bytes] *)

Definition hex2 (n : nat) : string :=
  String (digit_char (n / 16)) (String (digit_char (n mod 16)) EmptyString).

Definition printable (text : bool) (n : nat) : bool :=
  ((32 <=? n) && (n <? 127))
  || (text && (161 <=? n) && negb (n =? 173)).

Definition escape_char (text : bool) (quote c : ascii) : string :=
  let n := nat_of_ascii c in
  if Ascii.eqb c backslash then String backslash (chr backslash)
  else if Ascii.eqb c quote then String backslash (chr quote)
  else if n =? 10 then String backslash "n"
  else if n =? 13 then String backslash "r"
  else if n =? 9 then String backslash "t"
  else if printable text n then chr c
  else String backslash ("x" ^^ hex2 n).

Fixpoint escape_all (text : bool) (quote : ascii) (s : string) : string :=
  match s with
  | EmptyString => EmptyString
  | String c s' => escape_char text quote c ^^ escape_all text quote s'
  end.

Definition pick_quote (s : string) : ascii :=
  if has_char squote s && negb (has_char dquote s) then dquote else squote.

Definition repr_str (s : string) : string :=
  let q := pick_quote s in chr q ^^ escape_all true q s ^^ chr q.

Definition repr_bytes (b : string) : string :=
  let q := pick_quote b in "b" ^^ chr q ^^ escape_all false q b ^^ chr q.

(** [repr(e)] of an exception. *)
Definition repr_exn (e : exn) : string :=
  match e with
  | RecursionError => "RecursionError('maximum recursion depth exceeded')"
  | TypeError msg => "TypeError(" ^^ repr_str msg ^^ ")"
  | OtherError name msg => name ^^ "(" ^^ repr_str msg ^^ ")"
  end.

(** [str(e)] of an exception. *)
Definition str_exn (e : exn) : string :=
  match e with
  | RecursionError => "maximum recursion depth exceeded"
  | TypeError msg => msg
  | OtherError _ msg => msg
  end.

(** ** Sorting

    [sorted(items, key=...)]: a stable sort by a string key, keys compared
    by code point. *)
Fixpoint insert_by {A} (le : A -> A -> bool) (x : A) (l : list A) : list A :=
  match l with
  | [] => [x]
  | y :: l' => if le y x then y :: insert_by le x l' else x :: l
  end.

Definition sort_by {A} (le : A -> A -> bool) (l : list A) : list A :=
  fold_right (fun x acc => insert_by (fun a b => negb (le b a)) x acc) [] l.

Definition str_le (a b : string) : bool := String.leb a b.

End Heap.

(* ===================================================================== *)
(** * [WebDebugger._safe_repr]                                            *)
(* ===================================================================== *)

Module Render.
Import PyStr Heap.

Definition preview_limit : nat := 3.
Definition nested_max_len : nat := 25.

(** [r[:max_len] + '...' if len(r) > max_len else r]. *)
Definition truncate (max_len : nat) (r : string) : string :=
  if max_len <? len r then take max_len r ^^ "..." else r.

(** [f", ... ({len(obj)})" if len(obj) > preview_limit else ""]. *)
Definition ellipsis (n : nat) : string :=
  if preview_limit <? n then ", ... (" ^^ str_nat n ^^ ")" else "".

(** Lines 186 to 196: the reference marker for a tracked object. *)
Definition ref_marker (h : heap) (obj_id : ident) : string :=
  let v := obj_at h obj_id in
  let obj_type_name :=
    match container_len v with
    | Some length => type_name v ^^ "[" ^^ str_nat length ^^ "]"
    | None => type_name v
    end in
  "<span class=" ^^ chr dquote ^^ "ref-indicator" ^^ chr dquote
  ^^ " data-ref-id=" ^^ chr dquote ^^ str_Z obj_id ^^ chr dquote
  ^^ " title=" ^^ chr dquote ^^ "Ref to " ^^ obj_type_name ^^ " @ "
  ^^ hex obj_id ^^ chr dquote ^^ ">➔ " ^^ obj_type_name ^^ "</span>".

(** Line 185: the test that replaces a value by its marker. *)
Definition is_tracked_ref (obj_id : ident) (context_id : option ident)
    (tracked_ids : gset Z) : bool :=
  negb (bool_decide (context_id = Some obj_id))
  && bool_decide (obj_id ∈ tracked_ids).

(** The key of line 217, [str(type(x)) + repr(x)]. *)
Definition set_sort_key (h : heap) (x : ident) : res string :=
  r <- repr_of h x ;; Ok (type_str (obj_at h x) ^^ r).

(** [sorted(list(obj), key=k)] where computing a key may raise: a
    [TypeError] falls back to the iteration order, as lines 218 and 452
    do, and any other exception propagates. *)
Definition sorted_or_listed (key : ident -> res string) (items : list ident)
  : res (list ident) :=
  match map_res (fun x => k <- key x ;; Ok (k, x)) items with
  | Ok keyed => Ok (map snd (sort_by (fun a b => str_le (fst a) (fst b)) keyed))
  | Raise (TypeError _) => Ok items
  | Raise e => Raise e
  end.

(** [depth] is the number of nested calls still allowed; a call made with
    none left raises [RecursionError]. *)
Fixpoint _safe_repr (depth : nat) (h : heap) (obj : ident) (max_len : nat)
    (context_id : option ident) (tracked_ids : gset Z) : res string :=
  match depth with
  | O => Raise RecursionError
  | S depth' =>
      if is_tracked_ref obj context_id tracked_ids then Ok (ref_marker h obj)
      else
        let nested item :=
          _safe_repr depth' h item nested_max_len context_id tracked_ids in
        let sequence prefix opening closing suffix items single_tuple_comma :=
          match items with
          | [] => Ok (prefix ^^ opening ^^ closing ^^ suffix)
          | _ =>
              items_repr <- map_res nested (firstn preview_limit items) ;;
              Ok (prefix ^^ opening ^^ join ", " items_repr ^^ single_tuple_comma
                  ^^ ellipsis (length items) ^^ closing ^^ suffix)
          end in
        match obj_at h obj with
        | VInt z => Ok (str_Z z)
        | VBool b => Ok (if b then "True" else "False")
        | VNone => Ok "None"
        | VFloat text | VComplex text => Ok text
        | VStr s => Ok (repr_str (truncate max_len s))
        | VBytes b => Ok (repr_bytes (truncate max_len b))
        | VList items => sequence "" "[" "]" "" items ""
        | VTuple items =>
            sequence "" "(" ")" "" items
                     (if length items =? 1 then "," else "")
        | VDeque items => sequence "deque(" "[" "]" ")" items ""
        | VSet items =>
            match items with
            | [] => Ok "set()"
            | _ =>
                items_to_preview <- sorted_or_listed (set_sort_key h) items ;;
                items_repr <- map_res nested (firstn preview_limit items_to_preview) ;;
                Ok ("{" ^^ join ", " items_repr ^^ ellipsis (length items) ^^ "}")
            end
        | VDict pairs =>
            match pairs with
            | [] => Ok "{}"
            | _ =>
                items_repr <-
                  map_res (fun kv : ident * ident =>
                             k <- _safe_repr depth' h (fst kv) 15 context_id tracked_ids ;;
                             v <- nested (snd kv) ;;
                             Ok (k ^^ ": " ^^ v))
                          (firstn preview_limit pairs) ;;
                Ok ("{" ^^ join ", " items_repr ^^ ellipsis (length pairs) ^^ "}")
            end
        | v =>
            let r := match repr_of h obj with
                     | Ok r => r
                     | Raise _ => "<" ^^ type_name v ^^ " (repr error)>"
                     end in
            Ok (truncate max_len r)
        end
  end.

(** The default arguments of [_safe_repr]. *)
Definition default_max_len : nat := 150.

End Render.

(* ===================================================================== *)
(** * [WebDebugger.extract_visualizables]                                 *)
(* ===================================================================== *)

Module Extract.
Import PyStr Heap Render.

Definition MAX_TRAVERSAL_ITEMS : nat := 500.
Definition MAX_COLLECTION_ITEMS_TRAVERSE : nat := 30.

Inductive viz_type :=
| VizObject | VizArray | VizDict | VizNumpyArray | VizDeque | VizSet.

Definition viz_name (t : viz_type) : string :=
  match t with
  | VizObject => "object"
  | VizArray => "array"
  | VizDict => "dict"
  | VizNumpyArray => "numpy_array"
  | VizDeque => "deque"
  | VizSet => "set"
  end.

(** Lines 269 to 279 and 339 to 349. *)
Definition viz_type_of (v : pyvalue) : viz_type :=
  match v with
  | VList _ | VTuple _ => VizArray
  | VDict _ => VizDict
  | VNdarray _ _ _ _ _ _ => VizNumpyArray
  | VDeque _ => VizDeque
  | VSet _ => VizSet
  | _ => VizObject
  end.

(** One value of [object_info_map]; [names] is the set of names, kept
    without repetition. *)
Record obj_data := {
  item : ident;
  names : list string;
  vizType : viz_type;
  is_direct : bool;
  visited_bfs : bool
}.

(** [object_info_map]: a dict keyed by identity, in insertion order. *)
Definition info_map := list (ident * obj_data).

Fixpoint info_lookup (m : info_map) (i : ident) : option obj_data :=
  match m with
  | [] => None
  | (j, d) :: m' => if Z.eqb j i then Some d else info_lookup m' i
  end.

Definition info_mem (m : info_map) (i : ident) : bool :=
  match info_lookup m i with Some _ => true | None => false end.

(** [m[i] = f(m[i])] for a key that is present. *)
Fixpoint info_update (m : info_map) (i : ident) (f : obj_data -> obj_data)
  : info_map :=
  match m with
  | [] => []
  | (j, d) :: m' =>
      if Z.eqb j i then (j, f d) :: m' else (j, d) :: info_update m' i f
  end.

Definition info_keys (m : info_map) : list ident := map fst m.

(** [names.add(name)]. *)
Definition names_add (name : string) (ns : list string) : list string :=
  if existsb (String.eqb name) ns then ns else ns ++ [name].

Record bfs_state := {
  object_info_map : info_map;
  queue_bfs : list ident;
  visited_for_bfs_ids : gset Z;
  items_processed_bfs : nat
}.

Definition bfs_init : bfs_state :=
  {| object_info_map := []; queue_bfs := [];
     visited_for_bfs_ids := ∅; items_processed_bfs := 0 |}.

(** [if i not in visited_for_bfs_ids: queue_bfs.append(v); add(i)]. *)
Definition enqueue_unvisited (m : info_map) (st : bfs_state) (i : ident)
  : bfs_state :=
  if bool_decide (i ∈ visited_for_bfs_ids st) then
    {| object_info_map := m; queue_bfs := queue_bfs st;
       visited_for_bfs_ids := visited_for_bfs_ids st;
       items_processed_bfs := items_processed_bfs st |}
  else
    {| object_info_map := m; queue_bfs := queue_bfs st ++ [i];
       visited_for_bfs_ids := visited_for_bfs_ids st ∪ {[ i ]};
       items_processed_bfs := items_processed_bfs st |}.

(** Lines 261 to 285: one binding of the scope. *)
Definition seed_binding (h : heap) (st : bfs_state) (binding : string * ident)
  : bfs_state :=
  let '(var_name, var_value) := binding in
  if startswith var_name "__" || negb (_is_visualizable_candidate h var_value)
  then st
  else
    let item_id := var_value in
    if negb (info_mem (object_info_map st) item_id) then
      let m := object_info_map st ++
               [(item_id, {| item := var_value; names := [var_name];
                             vizType := viz_type_of (obj_at h var_value);
                             is_direct := true; visited_bfs := false |})] in
      enqueue_unvisited m st item_id
    else
      {| object_info_map :=
           info_update (object_info_map st) item_id
             (fun d => {| item := item d; names := names_add var_name (names d);
                          vizType := vizType d; is_direct := true;
                          visited_bfs := visited_bfs d |});
         queue_bfs := queue_bfs st;
         visited_for_bfs_ids := visited_for_bfs_ids st;
         items_processed_bfs := items_processed_bfs st |}.

Definition seed (h : heap) (variables : list (string * ident)) : bfs_state :=
  fold_left (seed_binding h) variables bfs_init.

(** What iterating over a container yields. *)
Definition iter_items (v : pyvalue) : list ident :=
  match v with
  | VList l | VTuple l | VDeque l | VSet l => l
  | _ => []
  end.

(** Lines 294 to 331: the values of [children_to_check], in order. *)
Definition children_to_check (h : heap) (t : viz_type) (current_obj : ident)
  : list ident :=
  match t with
  | VizObject =>
      match obj_at h current_obj with
      | VInstance _ _ (Some attrs) _ => map snd attrs
      | _ => []
      end
  | VizArray | VizDeque | VizSet =>
      firstn MAX_COLLECTION_ITEMS_TRAVERSE (iter_items (obj_at h current_obj))
  | VizDict =>
      match obj_at h current_obj with
      | VDict pairs =>
          flat_map
            (fun kv : ident * ident =>
               (if _is_visualizable_candidate h (fst kv) then [fst kv] else [])
               ++ (if _is_visualizable_candidate h (snd kv) then [snd kv] else []))
            (firstn MAX_COLLECTION_ITEMS_TRAVERSE pairs)
      | _ => []
      end
  | VizNumpyArray => []
  end.

(** Lines 332 to 352: one child of the object being processed. *)
Definition visit_child (h : heap) (st : bfs_state) (child_value : ident)
  : bfs_state :=
  if negb (_is_visualizable_candidate h child_value) then st
  else
    let child_id := child_value in
    let m :=
      if negb (info_mem (object_info_map st) child_id) then
        object_info_map st ++
        [(child_id, {| item := child_value; names := [];
                       vizType := viz_type_of (obj_at h child_value);
                       is_direct := false; visited_bfs := false |})]
      else object_info_map st in
    enqueue_unvisited m st child_id.

Definition mark_visited (d : obj_data) : obj_data :=
  {| item := item d; names := names d; vizType := vizType d;
     is_direct := is_direct d; visited_bfs := true |}.

(** Lines 286 to 352: the loop
    [while queue_bfs and items_processed_bfs < MAX_TRAVERSAL_ITEMS].
    [fuel] bounds the number of iterations of the model; the loop of the
    source stops by its own condition within [MAX_TRAVERSAL_ITEMS]
    iterations (see [bfs_loop_fuel_enough]). *)
Fixpoint bfs_loop (fuel : nat) (h : heap) (st : bfs_state) : bfs_state :=
  match fuel with
  | O => st
  | S fuel' =>
      match queue_bfs st with
      | [] => st
      | current_obj :: queue' =>
          if items_processed_bfs st <? MAX_TRAVERSAL_ITEMS then
            let st1 := {| object_info_map := object_info_map st;
                          queue_bfs := queue';
                          visited_for_bfs_ids := visited_for_bfs_ids st;
                          items_processed_bfs := S (items_processed_bfs st) |} in
            match info_lookup (object_info_map st) current_obj with
            | None => bfs_loop fuel' h st1
            | Some d =>
                if visited_bfs d then bfs_loop fuel' h st1
                else
                  let st2 := {| object_info_map :=
                                  info_update (object_info_map st) current_obj
                                              mark_visited;
                                queue_bfs := queue';
                                visited_for_bfs_ids := visited_for_bfs_ids st;
                                items_processed_bfs := S (items_processed_bfs st) |} in
                  bfs_loop fuel' h
                    (fold_left (visit_child h)
                               (children_to_check h (vizType d) current_obj) st2)
            end
          else st
      end
  end.

(** Lines 255 to 352: the state when the traversal is over. *)
Definition traverse (h : heap) (variables : list (string * ident)) : bfs_state :=
  bfs_loop MAX_TRAVERSAL_ITEMS h (seed h variables).

(** ** Lines 354 to 519: one node per entry of [object_info_map] *)

Record reference := {
  field_name : string;
  target_id : ident;
  target_type : viz_type
}.

(** The payload of a node, by kind.  A [length] of [None] is the ['?']
    that replaces the length when iterating raised. *)
Inductive payload :=
| ObjectFields (fields : list (string * string * string))
| ArrayElements (elements : list (nat * string)) (length : option nat)
| DictPairs (pairs : list (string * string)) (length : option nat)
| SetElements (set_elements : list string) (length : option nat)
| NumpyInfo (shape dtype : string) (ndim size : nat) (string_preview : string).

Record node := {
  node_vizType : viz_type;
  node_id : ident;
  name : string;
  type : string;
  memory_address : string;
  has_direct_reference : bool;
  references : list reference;
  node_payload : payload;
  node_error : option string
}.

(** [references.append(...)] when the identity is a node. *)
Definition ref_if_tracked (m : info_map) (label : string) (target : ident)
  : list reference :=
  match info_lookup m target with
  | Some d => [{| field_name := label; target_id := target;
                  target_type := vizType d |}]
  | None => []
  end.

(** [f"{r[:n]}{'...' if len(r) > n else ''}"]. *)
Definition label_cut (n : nat) (r : string) : string :=
  take n r ^^ (if n <? len r then "..." else "").

Section FormatItem.
Variables (depth : nat) (h : heap) (m : info_map).

Let all_visualized_ids : gset Z := list_to_set (info_keys m).

Definition render_in (context : ident) (x : ident) : res string :=
  _safe_repr depth h x default_max_len (Some context) all_visualized_ids.

(** Lines 378 to 390; an exception leaves the loop with what was
    appended so far. *)
Fixpoint format_fields (ctx : ident) (attrs : list (string * ident))
    (fields : list (string * string * string)) (refs : list reference)
  : list (string * string * string) * list reference * option exn :=
  match attrs with
  | [] => (fields, refs, None)
  | (field_name, field_value) :: rest =>
      if startswith field_name "__" then format_fields ctx rest fields refs
      else
        match render_in ctx field_value with
        | Raise e => (fields, refs, Some e)
        | Ok field_value_repr =>
            format_fields ctx rest
              (fields ++ [(field_name, field_value_repr,
                           type_name (obj_at h field_value))])
              (refs ++ ref_if_tracked m field_name field_value)
        end
  end.

(** Lines 396 to 408. *)
Fixpoint format_elements (ctx : ident) (items : list ident) (item_idx : nat)
    (elements : list (nat * string)) (refs : list reference)
  : list (nat * string) * list reference * option exn :=
  match items with
  | [] => (elements, refs, None)
  | element :: rest =>
      match render_in ctx element with
      | Raise e => (elements, refs, Some e)
      | Ok element_repr =>
          format_elements ctx rest (S item_idx)
            (elements ++ [(item_idx, element_repr)])
            (refs ++ ref_if_tracked m ("[" ^^ str_nat item_idx ^^ "]") element)
      end
  end.

(** Lines 417 to 440. *)
Fixpoint format_pairs (ctx : ident) (items : list (ident * ident))
    (pairs : list (string * string)) (refs : list reference)
  : list (string * string) * list reference * option exn :=
  match items with
  | [] => (pairs, refs, None)
  | (key, value) :: rest =>
      match render_in ctx key with
      | Raise e => (pairs, refs, Some e)
      | Ok key_repr =>
          match render_in ctx value with
          | Raise e => (pairs, refs, Some e)
          | Ok value_repr =>
              format_pairs ctx rest
                (pairs ++ [(key_repr, value_repr)])
                (refs
                 ++ ref_if_tracked m ("key_obj(" ^^ label_cut 15 key_repr ^^ ")") key
                 ++ ref_if_tracked m ("val_for_key(" ^^ label_cut 15 key_repr ^^ ")") value)
          end
      end
  end.

(** Lines 455 to 467. *)
Fixpoint format_set_elements (ctx : ident) (items : list ident)
    (elems : list string) (refs : list reference)
  : list string * list reference * option exn :=
  match items with
  | [] => (elems, refs, None)
  | element :: rest =>
      match render_in ctx element with
      | Raise e => (elems, refs, Some e)
      | Ok element_repr =>
          format_set_elements ctx rest (elems ++ [element_repr])
            (refs ++ ref_if_tracked m ("elem(" ^^ label_cut 20 element_repr ^^ ")") element)
      end
  end.

(** [self._safe_repr(e)] of lines 411, 443, 470 and 492. *)
Definition render_exn (e : exn) : string := truncate default_max_len (repr_exn e).

(** Lines 477 to 492. *)
Definition numpy_string_preview (text : res string) : string :=
  match text with
  | Raise e => "<Error getting str preview: " ^^ render_exn e ^^ ">"
  | Ok array_str_full =>
      let lines := splitlines array_str_full in
      let array_str_preview :=
        if 10 <? length lines then
          join LF (firstn 5 lines) ^^ LF ^^ "..." ^^ LF
          ^^ join LF (skipn (length lines - 5) lines)
        else array_str_full in
      if 300 <? len array_str_preview then take 297 array_str_preview ^^ "..."
      else array_str_preview
  end.

(** Lines 497 to 508. *)
Definition numpy_flat_refs (flat : list ident) : list reference :=
  flat_map (fun '(idx_count, element) =>
              ref_if_tracked m ("[flat_idx_" ^^ str_nat idx_count ^^ "]") element)
           (combine (seq 0 20) flat).

(** Lines 356 to 514: the node of one entry. *)
Definition format_item (entry : ident * obj_data) : node :=
  let '(item_id_numeric, obj_data_dict) := entry in
  let item_obj := obj_at h (item obj_data_dict) in
  let display_name_parts := sort_by str_le (names obj_data_dict) in
  let final_display_name :=
    match display_name_parts with
    | [] => "<" ^^ viz_name (vizType obj_data_dict) ^^ " @ "
            ^^ hex item_id_numeric ^^ ">"
    | _ => join ", " display_name_parts
    end in
  let item_info refs p err :=
    {| node_vizType := vizType obj_data_dict; node_id := item_id_numeric;
       name := final_display_name; type := type_name item_obj;
       memory_address := "0x" ^^ format_x item_id_numeric;
       has_direct_reference := is_direct obj_data_dict;
       references := refs; node_payload := p; node_error := err |} in
  match vizType obj_data_dict with
  | VizObject =>
      let '(fields, refs, failure) :=
        match item_obj with
        | VInstance _ _ (Some attrs) _ =>
            format_fields item_id_numeric attrs [] []
        | VInstance _ _ None _ =>
            match depth with
            | O => ([], [], Some RecursionError)
            | S _ => ([("<error>", repr_str "Cannot inspect", "str")], [], None)
            end
        | _ => ([], [], None)
        end in
      item_info refs (ObjectFields fields)
        (match failure with
         | Some e_format => Some ("Formatting Error: " ^^ str_exn e_format)
         | None => None
         end)
  | VizArray | VizDeque =>
      let '(elements, refs, failure) :=
        format_elements item_id_numeric (iter_items item_obj) 0 [] [] in
      match failure with
      | Some e =>
          item_info refs
            (ArrayElements [(0, "<Error: " ^^ render_exn e ^^ ">")] None) None
      | None =>
          item_info refs
            (ArrayElements elements (Some (length (iter_items item_obj)))) None
      end
  | VizDict =>
      let items := match item_obj with VDict ps => ps | _ => [] end in
      let '(pairs, refs, failure) :=
        format_pairs item_id_numeric items [] [] in
      match failure with
      | Some e => item_info refs (DictPairs [("<Error>", render_exn e)] None) None
      | None => item_info refs (DictPairs pairs (Some (length items))) None
      end
  | VizSet =>
      match sorted_or_listed
              (fun x => _safe_repr depth h x default_max_len None ∅)
              (iter_items item_obj) with
      | Raise e =>
          item_info [] (SetElements ["<Error: " ^^ render_exn e ^^ ">"] None) None
      | Ok sorted_elements =>
          let '(elems, refs, failure) :=
            format_set_elements item_id_numeric sorted_elements [] [] in
          match failure with
          | Some e =>
              item_info refs
                (SetElements ["<Error: " ^^ render_exn e ^^ ">"] None) None
          | None =>
              item_info refs (SetElements elems (Some (length sorted_elements))) None
          end
      end
  | VizNumpyArray =>
      match item_obj with
      | VNdarray shape dtype ndim size text flat =>
          match _safe_repr depth h shape default_max_len None ∅ with
          | Raise e_format =>
              item_info [] (NumpyInfo "" "" 0 0 "")
                        (Some ("Formatting Error: " ^^ str_exn e_format))
          | Ok shape_repr =>
              item_info
                (if String.eqb dtype "object" then numpy_flat_refs flat else [])
                (NumpyInfo shape_repr dtype ndim size (numpy_string_preview text))
                None
          end
      | _ => item_info [] (NumpyInfo "None" "unknown" 0 0 "") None
      end
  end.

End FormatItem.

(** The key of the final sort (lines 515 to 518). *)
Definition kind_priority (t : viz_type) : nat :=
  match t with
  | VizObject => 0
  | VizDict => 1
  | VizSet => 2
  | VizArray | VizNumpyArray | VizDeque => 3
  end.

Definition node_le (a b : node) : bool :=
  let ka := (negb (has_direct_reference a), kind_priority (node_vizType a)) in
  let kb := (negb (has_direct_reference b), kind_priority (node_vizType b)) in
  if Bool.eqb (fst ka) (fst kb) then
    if snd ka =? snd kb then str_le (name a) (name b)
    else snd ka <? snd kb
  else negb (fst ka).

Definition extract_visualizables (depth : nat) (h : heap)
    (variables : list (string * ident)) : list node :=
  let object_info_map := object_info_map (traverse h variables) in
  let visualizables_to_display :=
    map (format_item depth h object_info_map) object_info_map in
  sort_by node_le visualizables_to_display.

End Extract.

(* ===================================================================== *)
(** * The debugger session                                                *)
(* ===================================================================== *)

Module Session.
Import PyStr Heap Render Extract.

(** ** Frames, as the hooks read them *)

Record code_obj := {
  co_name : string;
  co_filename : string;
  co_varnames : list string;
  co_argcount : nat;
  co_posonlyargcount : nat;
  co_kwonlyargcount : nat;
  co_varargs : bool;
  co_varkeywords : bool
}.

#[warnings="-register-all"]
Inductive frame :=
| Frame (f_code : code_obj) (f_lineno : Z)
        (f_locals f_globals : list (string * ident)) (f_back : option frame).

Definition f_code (f : frame) : code_obj := let 'Frame c _ _ _ _ := f in c.
Definition f_lineno (f : frame) : Z := let 'Frame _ n _ _ _ := f in n.
Definition f_locals (f : frame) := let 'Frame _ _ l _ _ := f in l.
Definition f_globals (f : frame) := let 'Frame _ _ _ g _ := f in g.
Definition f_back (f : frame) : option frame := let 'Frame _ _ _ _ b := f in b.

(** [inspect.getfile(frame)]. *)
Definition getfile (f : frame) : string := co_filename (f_code f).

(** A dict from names to objects, in insertion order. *)
Fixpoint dict_get {A} (d : list (string * A)) (k : string) : option A :=
  match d with
  | [] => None
  | (k', v) :: d' => if String.eqb k' k then Some v else dict_get d' k
  end.

Definition dict_has {A} (d : list (string * A)) (k : string) : bool :=
  match dict_get d k with Some _ => true | None => false end.

Fixpoint dict_set {A} (d : list (string * A)) (k : string) (v : A)
  : list (string * A) :=
  match d with
  | [] => [(k, v)]
  | (k', v') :: d' =>
      if String.eqb k' k then (k', v) :: d' else (k', v') :: dict_set d' k v
  end.

(** [{**a, **b}]. *)
Definition dict_merge {A} (a b : list (string * A)) : list (string * A) :=
  fold_left (fun acc kv => dict_set acc (fst kv) (snd kv)) b a.

Definition str_in (x : string) (l : list string) : bool :=
  existsb (String.eqb x) l.

(** ** Records of the trace *)

Inductive call_event :=
| CallEvent (call_id : nat) (parent_call_id : option nat)
            (function_name args_repr : string) (line_no_in_function : Z)
            (timestamp_step : nat)
| ReturnEvent (call_id : nat) (return_value_repr : string)
              (timestamp_step : nat).

Definition timestamp_step (e : call_event) : nat :=
  match e with
  | CallEvent _ _ _ _ _ t => t
  | ReturnEvent _ _ t => t
  end.

Record frame_view := {
  fv_function : string;
  fv_line : Z;
  fv_arguments : string
}.

Record stack := {
  current_frames : list frame_view;
  historical_events : list call_event;
  active_call_ids : list nat
}.

Record step_entry := {
  step : nat;
  line_no : Z;
  code : string;
  locals : list (string * string);
  globals : list (string * string);
  stdout : string;
  visualizables : list node;
  error : option string;
  stack_info : stack;
  input_request : option string
}.

(** ** The process-wide objects a run redirects *)

Inductive stream :=
| HostStream (n : nat)
| StdoutBuffer.

Inductive input_fn :=
| HostInput (n : nat)
| OneTimeInputMock.

Record world := {
  sys_stdout : stream;
  builtins_input : input_fn
}.

(** ** The debugger object *)

(** What reaches the interceptor where it expects text: the prompt the
    submission passes to [input], and the values of the request
    ([injected_input] is any JSON value).  [StringIO.write] and
    [val_to_return + '\n'] raise [TypeError] for anything but a [str]. *)
Inductive pytext :=
| Str (s : string)
| NotStr.

Record debugger := {
  execution_trace : list step_entry;
  current_step : nat;
  stdout_buffer : string;
  original_stdout : stream;
  original_builtins_input : option input_fn;
  finished : bool;
  code_lines : list string;
  provided_input_value_for_next_call : option pytext;
  all_provided_inputs : list pytext;
  next_input_index : nat;
  call_id_counter : nat;
  call_event_log : list call_event;
  active_call_ids_stack : list nat;
  logged_call_ids_stack : list nat;
  quitting : bool
}.

Definition skip_globals_list : list string :=
  ["__builtins__"; "app"; "Flask"; "Bdb"; "WebDebugger"; "request"; "jsonify";
   "render_template"; "gc"; "deque"; "types"; "os"; "sys"; "io"; "traceback";
   "inspect"; "requests"; "json"; "re"; "remove_think_tag"; "convert_to_python";
   "Response"; "stream_with_context"; "time"; "clean_code_response"; "ast";
   "sanitize_traceback_paths"; "WaitingForInputException"; "builtins"].

Definition debugger_internal_methods : list string :=
  ["run_debugger"; "user_line"; "user_call"; "user_return"; "_safe_repr";
   "extract_visualizables"; "_is_visualizable_candidate";
   "_get_frame_args_and_values"; "_custom_input_handler";
   "_one_time_input_mock"; "reset_internal_debugger_state"; "run"; "runcall";
   "main"; "dispatch_line"; "dispatch_call"; "dispatch_return";
   "dispatch_exception"; "stop_here"; "break_here"; "break_anywhere"].

(** Field updates. *)
Definition with_trace (d : debugger) (t : list step_entry) (n : nat) : debugger :=
  {| execution_trace := t; current_step := n;
     stdout_buffer := stdout_buffer d; original_stdout := original_stdout d;
     original_builtins_input := original_builtins_input d;
     finished := finished d; code_lines := code_lines d;
     provided_input_value_for_next_call := provided_input_value_for_next_call d;
     all_provided_inputs := all_provided_inputs d;
     next_input_index := next_input_index d;
     call_id_counter := call_id_counter d; call_event_log := call_event_log d;
     active_call_ids_stack := active_call_ids_stack d;
     logged_call_ids_stack := logged_call_ids_stack d; quitting := quitting d |}.

Definition with_calls (d : debugger) (counter : nat) (log : list call_event)
    (active logged : list nat) : debugger :=
  {| execution_trace := execution_trace d; current_step := current_step d;
     stdout_buffer := stdout_buffer d; original_stdout := original_stdout d;
     original_builtins_input := original_builtins_input d;
     finished := finished d; code_lines := code_lines d;
     provided_input_value_for_next_call := provided_input_value_for_next_call d;
     all_provided_inputs := all_provided_inputs d;
     next_input_index := next_input_index d;
     call_id_counter := counter; call_event_log := log;
     active_call_ids_stack := active;
     logged_call_ids_stack := logged; quitting := quitting d |}.

Definition with_input (d : debugger) (buffer : string)
    (provided : option pytext) (history : list pytext) (index : nat) : debugger :=
  {| execution_trace := execution_trace d; current_step := current_step d;
     stdout_buffer := buffer; original_stdout := original_stdout d;
     original_builtins_input := original_builtins_input d;
     finished := finished d; code_lines := code_lines d;
     provided_input_value_for_next_call := provided;
     all_provided_inputs := history;
     next_input_index := index;
     call_id_counter := call_id_counter d; call_event_log := call_event_log d;
     active_call_ids_stack := active_call_ids_stack d;
     logged_call_ids_stack := logged_call_ids_stack d; quitting := quitting d |}.

Definition with_quitting (d : debugger) (q : bool) : debugger :=
  {| execution_trace := execution_trace d; current_step := current_step d;
     stdout_buffer := stdout_buffer d; original_stdout := original_stdout d;
     original_builtins_input := original_builtins_input d;
     finished := finished d; code_lines := code_lines d;
     provided_input_value_for_next_call := provided_input_value_for_next_call d;
     all_provided_inputs := all_provided_inputs d;
     next_input_index := next_input_index d;
     call_id_counter := call_id_counter d; call_event_log := call_event_log d;
     active_call_ids_stack := active_call_ids_stack d;
     logged_call_ids_stack := logged_call_ids_stack d; quitting := q |}.

Definition with_finished (d : debugger) (f : bool) : debugger :=
  {| execution_trace := execution_trace d; current_step := current_step d;
     stdout_buffer := stdout_buffer d; original_stdout := original_stdout d;
     original_builtins_input := original_builtins_input d;
     finished := f; code_lines := code_lines d;
     provided_input_value_for_next_call := provided_input_value_for_next_call d;
     all_provided_inputs := all_provided_inputs d;
     next_input_index := next_input_index d;
     call_id_counter := call_id_counter d; call_event_log := call_event_log d;
     active_call_ids_stack := active_call_ids_stack d;
     logged_call_ids_stack := logged_call_ids_stack d; quitting := quitting d |}.

(** The engine's [set_step] and [set_quit], as far as the tracer reads
    their effect: the [quitting] flag. *)
Definition set_step (d : debugger) : debugger := with_quitting d false.
Definition set_quit (d : debugger) : debugger := with_quitting d true.

(** Lines 133 to 150. *)
Definition reset_internal_debugger_state (w : world) (d : debugger) : debugger :=
  {| execution_trace := []; current_step := 0;
     stdout_buffer := EmptyString; original_stdout := sys_stdout w;
     original_builtins_input := None;
     finished := false; code_lines := [];
     provided_input_value_for_next_call := None;
     all_provided_inputs := [];
     next_input_index := 0;
     call_id_counter := 0; call_event_log := [];
     active_call_ids_stack := [];
     logged_call_ids_stack := []; quitting := false |}.

(** Lines 102 to 131: [__init__] ends with the reset, which sets every
    field of the model. *)
Definition new_debugger (w : world) : debugger :=
  reset_internal_debugger_state w
    {| execution_trace := []; current_step := 0;
       stdout_buffer := EmptyString; original_stdout := sys_stdout w;
       original_builtins_input := None;
       finished := false; code_lines := [];
       provided_input_value_for_next_call := None;
       all_provided_inputs := [];
       next_input_index := 0;
       call_id_counter := 0; call_event_log := [];
       active_call_ids_stack := [];
       logged_call_ids_stack := []; quitting := false |}.

(** ** The input interceptor (lines 152 to 176) *)

(** How a call of the interceptor ends: it returns a value, or it raises
    the blocking-input signal (an [Exception], line 95), or a [TypeError]
    crosses it. *)
Inductive input_result :=
| InputValue (val_to_return : string)
| WaitingForInputException (prompt : string)
| InputTypeError.

Definition with_buffer (d : debugger) (buffer : string) : debugger :=
  with_input d buffer (provided_input_value_for_next_call d)
             (all_provided_inputs d) (next_input_index d).

Definition _custom_input_handler (d : debugger) (prompt : pytext)
  : debugger * input_result :=
  match prompt with
  | NotStr => (d, InputTypeError)
  | Str prompt =>
      (with_buffer d (stdout_buffer d ^^ prompt), WaitingForInputException prompt)
  end.

Definition _one_time_input_mock (d : debugger) (prompt : pytext)
  : debugger * input_result :=
  match nth_error (all_provided_inputs d) (next_input_index d) with
  | Some val_to_return =>
      match prompt with
      | NotStr => (d, InputTypeError)
      | Str prompt =>
          match val_to_return with
          | NotStr => (with_buffer d (stdout_buffer d ^^ prompt), InputTypeError)
          | Str val_to_return =>
              (with_input d (stdout_buffer d ^^ prompt ^^ val_to_return ^^ LF)
                          (provided_input_value_for_next_call d)
                          (all_provided_inputs d) (S (next_input_index d)),
               InputValue val_to_return)
          end
      end
  | None =>
      match provided_input_value_for_next_call d with
      | Some val_to_return =>
          (* Line 168 clears the staged value before anything is written. *)
          let d1 := with_input d (stdout_buffer d) None
                               (all_provided_inputs d) (next_input_index d) in
          match prompt with
          | NotStr => (d1, InputTypeError)
          | Str prompt =>
              match val_to_return with
              | NotStr => (with_buffer d1 (stdout_buffer d ^^ prompt), InputTypeError)
              | Str text =>
                  (with_input d (stdout_buffer d ^^ prompt ^^ text ^^ LF)
                              None
                              (all_provided_inputs d ++ [val_to_return])
                              (length (all_provided_inputs d ++ [val_to_return])),
                   InputValue text)
              end
          end
      | None => _custom_input_handler d prompt
      end
  end.

(** ** [_get_frame_args_and_values] (lines 521 to 591) *)

Definition ARG_REPR_MAX_LEN : nat := 80.
Definition VARARGS_ITEM_REPR_MAX_LEN : nat := 30.

(** [getattr(value, '__module__', None)] with [value.__name__], for the
    values that have both: a class, a function and a bound method.  An
    instance has the [__module__] of its class and no [__name__] of its
    own, the other values have no [__module__]: for them line 551 or
    line 552 leaves the [try] statement with nothing set. *)
Definition module_and_name (v : pyvalue) : option (string * string) :=
  match v with
  | VClass m n | VOpaque (OFunction m n) | VOpaque (OMethod m n) => Some (m, n)
  | _ => None
  end.

(** Lines 539 to 566: the text for a [self] whose class is of the
    submission, or for a [cls] whose [__module__] is the submission (the
    test of line 551 does not ask for a class), when there is one. *)
Definition special_arg_repr (h : heap) (arg_name : string) (value : ident)
  : option string :=
  let described :=
    if String.eqb arg_name "self" then
      if String.eqb (type_module (obj_at h value)) "__debugger_run__"
      then Some (type_name (obj_at h value), "object") else None
    else if String.eqb arg_name "cls" then
      match module_and_name (obj_at h value) with
      | Some (m, n) => if String.eqb m "__debugger_run__" then Some (n, "class") else None
      | None => None
      end
    else None in
  match described with
  | Some (class_name_str, type_description_str) =>
      if is_empty class_name_str then None
      else
        let custom_repr_base_text := "< " ^^ type_description_str ^^ ">" in
        let max_len_for_name_part := ARG_REPR_MAX_LEN - len custom_repr_base_text in
        if len class_name_str <=? max_len_for_name_part then
          Some ("<" ^^ class_name_str ^^ " " ^^ type_description_str ^^ ">")
        else if 3 <? max_len_for_name_part then
          Some ("<" ^^ take (max_len_for_name_part - 3) class_name_str ^^ "... "
                ^^ type_description_str ^^ ">")
        else Some ("<" ^^ type_description_str ^^ ">")
  | None => None
  end.

(** [co.co_varnames[i]], which raises [IndexError] out of range. *)
Definition varname_at (co : code_obj) (i : nat) : res string :=
  match nth_error (co_varnames co) i with
  | Some n => Ok n
  | None => Raise (OtherError "IndexError" "tuple index out of range")
  end.

Definition _get_frame_args_and_values (depth : nat) (h : heap) (f : frame)
    (tracked_ids_for_repr_context : gset Z) : res string :=
  let co := f_code f in
  let n_params := co_argcount co + co_kwonlyargcount co + co_posonlyargcount co in
  let all_param_names := firstn n_params (co_varnames co) in
  named <-
    map_res
      (fun arg_name =>
         match dict_get (f_locals f) arg_name with
         | None => Ok []
         | Some value =>
             current_value_repr <-
               match special_arg_repr h arg_name value with
               | Some r => Ok r
               | None => _safe_repr depth h value ARG_REPR_MAX_LEN None
                                    tracked_ids_for_repr_context
               end ;;
             Ok [arg_name ^^ "=" ^^ current_value_repr]
         end)
      all_param_names ;;
  varargs <-
    (if co_varargs co then
       varargs_name <- varname_at co n_params ;;
       match dict_get (f_locals f) varargs_name with
       | Some varargs_tuple =>
           match obj_at h varargs_tuple with
           | VTuple items =>
               args_repr_list <-
                 map_res (fun val => _safe_repr depth h val VARARGS_ITEM_REPR_MAX_LEN
                                                None tracked_ids_for_repr_context)
                         items ;;
               Ok ["*" ^^ varargs_name ^^ "=(" ^^ join ", " args_repr_list ^^ ")"]
           | _ => Ok []
           end
       | None => Ok []
       end
     else Ok []) ;;
  varkw <-
    (if co_varkeywords co then
       varkw_name <- varname_at co (if co_varargs co then S n_params else n_params) ;;
       match dict_get (f_locals f) varkw_name with
       | Some varkw_dict =>
           match obj_at h varkw_dict with
           | VDict pairs =>
               kwargs_repr_list <-
                 map_res (fun kv : ident * ident =>
                            v <- _safe_repr depth h (snd kv) VARARGS_ITEM_REPR_MAX_LEN
                                            None tracked_ids_for_repr_context ;;
                            Ok (match obj_at h (fst kv) with
                                | VStr k => k
                                | _ => EmptyString
                                end ^^ "=" ^^ v))
                         pairs ;;
               Ok ["**" ^^ varkw_name ^^ "={" ^^ join ", " kwargs_repr_list ^^ "}"]
           | _ => Ok []
           end
       | None => Ok []
       end
     else Ok []) ;;
  Ok (join ", " (concat named ++ varargs ++ varkw)).

(** ** The call hooks (lines 593 to 648) *)

(** The function name and the two classifications both hooks compute. *)
Definition function_name_of (f : frame) : string :=
  if is_empty (co_name (f_code f)) then "<lambda>" else co_name (f_code f).

Definition is_debugger_internal (env : host) (f : frame) : bool :=
  let filename_raw := getfile f in
  let filename_abs := match abspath env filename_raw with
                      | Some a => a
                      | None => filename_raw
                      end in
  String.eqb filename_abs (debugger_script_abs env)
  && str_in (function_name_of f) debugger_internal_methods.

Definition is_bdb_internal (f : frame) : bool :=
  contains (basename (getfile f)) "bdb.py".

(** [stack[-1] if stack else None]. *)
Definition top (stack : list nat) : option nat := last stack.

Definition user_call (env : host) (d : debugger) (h : heap) (f : frame) : debugger :=
  let function_name := function_name_of f in
  let new_call_id := S (call_id_counter d) in
  let logged_parent_call_id := top (logged_call_ids_stack d) in
  let d1 := with_calls d new_call_id (call_event_log d)
                       (active_call_ids_stack d ++ [new_call_id])
                       (logged_call_ids_stack d) in
  if negb (is_debugger_internal env f) && negb (is_bdb_internal f) then
    match (if negb (String.eqb function_name "<module>")
           then _get_frame_args_and_values (recursion_depth env) h f ∅
           else Ok "N/A (module scope)") with
    | Ok args_repr =>
        with_calls d1 new_call_id
          (call_event_log d1 ++
           [CallEvent new_call_id logged_parent_call_id function_name args_repr
                      (f_lineno f) (current_step d1)])
          (active_call_ids_stack d1)
          (logged_call_ids_stack d1 ++ [new_call_id])
    | Raise _ => d1
    end
  else d1.

(** [next((e for e in reversed(log) if e is the call with this id), None)]. *)
Definition corresponding_call_event (log : list call_event) (returned_call_id : nat)
  : option call_event :=
  find (fun e => match e with
                 | CallEvent c _ _ _ _ _ => c =? returned_call_id
                 | ReturnEvent _ _ _ => false
                 end)
       (List.rev log).

Definition pop_if_top (stack : list nat) (i : nat) : list nat :=
  match top stack with
  | Some t => if t =? i then removelast stack else stack
  | None => stack
  end.

Definition is_top (stack : list nat) (i : nat) : bool :=
  match top stack with
  | Some t => t =? i
  | None => false
  end.

Definition user_return (env : host) (d : debugger) (h : heap) (f : frame)
    (return_value : ident) : debugger :=
  match top (active_call_ids_stack d) with
  | None => d
  | Some returned_call_id =>
      let d1 := with_calls d (call_id_counter d) (call_event_log d)
                           (removelast (active_call_ids_stack d))
                           (logged_call_ids_stack d) in
      let is_top_level_module_return :=
        match corresponding_call_event (call_event_log d1) returned_call_id with
        | Some (CallEvent _ None fn _ _ _) => String.eqb fn "<module>"
        | _ => false
        end in
      let logged :=
        if negb (is_debugger_internal env f) && negb (is_bdb_internal f)
           && negb is_top_level_module_return
           && is_top (logged_call_ids_stack d1) returned_call_id
        then
          match _safe_repr (recursion_depth env) h return_value default_max_len None ∅ with
          | Ok return_value_repr =>
              Ok (call_event_log d1 ++
                  [ReturnEvent returned_call_id return_value_repr (current_step d1)])
          | Raise e => Raise e
          end
        else Ok (call_event_log d1) in
      match logged with
      | Ok log =>
          with_calls d1 (call_id_counter d1) log (active_call_ids_stack d1)
                     (pop_if_top (logged_call_ids_stack d1) returned_call_id)
      | Raise _ => d1
      end
  end.

(** ** The line hook (lines 650 to 739) *)

(** The filter of the comprehensions of lines 666 to 674 and 817 to 821. *)
Definition displayable (h : heap) (k : string) (v : ident) : bool :=
  negb (startswith k "__") && negb (_is_visualizable_candidate h v)
  && negb (callable (obj_at h v)) && negb (is_module_or_type (obj_at h v)).

Definition display_vars (depth : nat) (h : heap) (tracked : gset Z)
    (keep : string -> bool) (vars : list (string * ident))
  : res (list (string * string)) :=
  map_res (fun kv : string * ident =>
             r <- _safe_repr depth h (snd kv) default_max_len None tracked ;;
             Ok (fst kv, r))
          (List.filter (fun kv : string * ident =>
                     keep (fst kv) && displayable h (fst kv) (snd kv)) vars).

(** [set(vis['id'] for vis in visualizables)]. *)
Definition tracked_ids_of (nodes : list node) : gset Z :=
  list_to_set (map node_id nodes).

Definition MAX_STACK_DEPTH_DISPLAY_SIMPLE : nat := 7.

(** Lines 682 to 706: [remaining] is
    [MAX_STACK_DEPTH_DISPLAY_SIMPLE - depth]. *)
Fixpoint walk_frames (env : host) (h : heap) (tracked : gset Z)
    (remaining : nat) (f_iter : frame) : list frame_view :=
  match remaining with
  | O => []
  | S remaining' =>
      let f_filename_raw_for_stack := getfile f_iter in
      let f_name_for_stack := function_name_of f_iter in
      let here :=
        if (String.eqb f_filename_raw_for_stack (debugger_script_abs env)
            && str_in f_name_for_stack debugger_internal_methods)
           || contains (basename f_filename_raw_for_stack) "bdb.py"
        then []
        else if String.eqb f_filename_raw_for_stack "<string>" then
          match _get_frame_args_and_values (recursion_depth env) h f_iter tracked with
          | Ok arguments_str =>
              [{| fv_function :=
                    if String.eqb f_name_for_stack "<module>" then "(Global Scope)"
                    else if String.eqb f_name_for_stack "<lambda>" then "lambda"
                    else f_name_for_stack;
                  fv_line := f_lineno f_iter;
                  fv_arguments := arguments_str |}]
          | Raise _ => []
          end
        else [] in
      here ++ match f_back f_iter with
              | None => []
              | Some back => walk_frames env h tracked remaining' back
              end
  end.

(** [[e for e in self.call_event_log if e['timestamp_step'] <= step]]. *)
Definition events_up_to (log : list call_event) (n : nat) : list call_event :=
  List.filter (fun e => timestamp_step e <=? n) log.

(** Lines 676 and 677. *)
Definition line_content (code_lines : list string) (line_no : Z) : string :=
  if (1 <=? line_no)%Z then
    match nth_error code_lines (Z.to_nat (line_no - 1)) with
    | Some l => strip l
    | None => EmptyString
    end
  else EmptyString.

(** Lines 660 to 716: the step entry for a line of the submission. *)
Definition capture_step (env : host) (d : debugger) (h : heap) (f : frame)
  : res step_entry :=
  let locals_dict := f_locals f in
  let globals_dict := f_globals f in
  let current_context := dict_merge globals_dict locals_dict in
  let visualizables_data :=
    extract_visualizables (recursion_depth env) h current_context in
  let tracked_ids_for_var_repr := tracked_ids_of visualizables_data in
  locals_display <-
    display_vars (recursion_depth env) h tracked_ids_for_var_repr
                 (fun _ => true) locals_dict ;;
  globals_display <-
    display_vars (recursion_depth env) h tracked_ids_for_var_repr
                 (fun k => negb (dict_has locals_dict k)
                           && negb (str_in k skip_globals_list))
                 globals_dict ;;
  Ok {| step := current_step d; line_no := f_lineno f;
        code := line_content (code_lines d) (f_lineno f);
        locals := locals_display; globals := globals_display;
        stdout := stdout_buffer d;
        visualizables := visualizables_data; error := None;
        stack_info :=
          {| current_frames :=
               walk_frames env h tracked_ids_for_var_repr
                           MAX_STACK_DEPTH_DISPLAY_SIMPLE f;
             historical_events := events_up_to (call_event_log d) (current_step d);
             active_call_ids := logged_call_ids_stack d |};
        input_request := None |}.

(** [not trace or trace[-1].get('error') != err]. *)
Definition last_error_differs (trace : list step_entry) (err : option string)
  : bool :=
  match last trace with
  | None => true
  | Some s => negb (bool_decide (error s = err))
  end.

Definition user_line (env : host) (d : debugger) (h : heap) (f : frame)
  : debugger :=
  let filename := getfile f in
  let func_name_for_filter := co_name (f_code f) in
  if String.eqb filename (debugger_script_abs env)
     && str_in func_name_for_filter debugger_internal_methods then set_step d
  else if contains (basename filename) "bdb.py" then set_step d
  else if negb (String.eqb filename "<string>") then set_step d
  else
    match capture_step env d h f with
    | Ok step_entry0 =>
        set_step (with_trace d (execution_trace d ++ [step_entry0])
                             (S (current_step d)))
    | Raise e =>
        let raw_error_details :=
          "Debugger Internal Error in user_line: " ^^ str_exn e ^^ LF
          ^^ format_exc env e in
        let sanitized_error_details :=
          Sanitizer.sanitize_traceback_paths env raw_error_details false in
        let error_info_user_line :=
          {| step := current_step d; line_no := f_lineno f;
             code := "<Debugger Error in user_line>";
             locals := []; globals := []; stdout := stdout_buffer d;
             visualizables := []; error := Some sanitized_error_details;
             stack_info :=
               {| current_frames := [];
                  historical_events := events_up_to (call_event_log d) (current_step d);
                  active_call_ids := logged_call_ids_stack d |};
             input_request := None |} in
        set_quit
          (with_trace d
             (if last_error_differs (execution_trace d) (Some sanitized_error_details)
              then execution_trace d ++ [error_info_user_line]
              else execution_trace d)
             (S (current_step d)))
    end.

(** ** The submission and the engine

    The interpreter that runs the submission is not part of the tracer.
    A compiled submission is the tree of the events it raises at the
    tracer: each node is one trace event or one console operation, with
    the store and the module namespace at that moment.  What follows a
    console read depends on how the read ends: the submission goes on
    with the value, or with the exception the read raised, which it may
    catch.  A leaf is the way [exec] ends: it returns, or an exception
    leaves the submission, the blocking-input signal among them. *)

Record memory := {
  mem_heap : heap;
  mem_namespace : list (string * ident)
}.

Record syntax_error := {
  lineno : option Z;
  text : option string;
  syntax_report : string
}.

(** An uncaught exception: the line of the innermost traceback entry when
    that entry is in the submission, and the formatted traceback. *)
Record runtime_error := {
  user_lineno : option Z;
  traceback_report : string
}.

Inductive failure :=
| SyntaxErrorRaised (e : syntax_error)
| ExceptionRaised (e : runtime_error)
| BaseExceptionRaised.

Inductive prog :=
| PDone (m : memory)
| PRaise (m : memory) (e : failure)
| PLine (m : memory) (f : frame) (k : prog)
| PCall (m : memory) (f : frame) (k : prog)
| PReturn (m : memory) (f : frame) (return_value : ident) (k : prog)
| PInput (m : memory) (prompt : pytext) (k : input_result -> prog)
| PPrint (text : string) (k : prog)
| PWaiting (m : memory) (prompt : string).

Inductive compiled :=
| CompileError (e : syntax_error)
| Compiled (p : prog).

Inductive outcome :=
| Completed
| Waiting (prompt : string)
| Failed (e : failure).

Definition write_stdout (d : debugger) (text : string) : debugger :=
  with_input d (stdout_buffer d ^^ text) (provided_input_value_for_next_call d)
             (all_provided_inputs d) (next_input_index d).

(** The engine ([bdb.Bdb], of the standard library) dispatching the
    events of the submission to the hooks, once its [botframe] is set:
    [stopframe] is [None] from [reset] and [set_step] on, so [stop_here]
    holds for every frame and every line, call and return event reaches
    its hook.  After the line hook has asked to quit, the engine abandons
    the submission, which [runcall] reports as a normal return. *)
Fixpoint exec_prog (env : host) (d : debugger) (p : prog)
  : debugger * outcome * memory :=
  match p with
  | PDone m => (d, Completed, m)
  | PRaise m e => (d, Failed e, m)
  | PLine m f k =>
      let d' := user_line env d (mem_heap m) f in
      if quitting d' then (d', Completed, m) else exec_prog env d' k
  | PCall m f k => exec_prog env (user_call env d (mem_heap m) f) k
  | PReturn m f v k => exec_prog env (user_return env d (mem_heap m) f v) k
  | PInput m prompt k =>
      let '(d', r) := _one_time_input_mock d prompt in exec_prog env d' (k r)
  | PPrint text k => exec_prog env (write_stdout d text) k
  | PWaiting m prompt => (d, Waiting prompt, m)
  end.

(** The engine from [Bdb.reset] on, which [runcall] calls first and which
    leaves [botframe] at [None].  [dispatch_call] starts with
    [if self.botframe is None: self.botframe = frame.f_back;
    return self.trace_dispatch]: the first call event, that of the frame
    of the whole submission, reaches no hook, and the same holds again
    while the caller recorded is [None].  Line and return events are
    dispatched as in [exec_prog]. *)
Fixpoint exec_from_reset (env : host) (d : debugger) (p : prog)
  : debugger * outcome * memory :=
  match p with
  | PDone m => (d, Completed, m)
  | PRaise m e => (d, Failed e, m)
  | PLine m f k =>
      let d' := user_line env d (mem_heap m) f in
      if quitting d' then (d', Completed, m) else exec_from_reset env d' k
  | PCall m f k =>
      match f_back f with
      | Some botframe => exec_prog env d k
      | None => exec_from_reset env d k
      end
  | PReturn m f v k => exec_from_reset env (user_return env d (mem_heap m) f v) k
  | PInput m prompt k =>
      let '(d', r) := _one_time_input_mock d prompt in exec_from_reset env d' (k r)
  | PPrint text k => exec_from_reset env (write_stdout d text) k
  | PWaiting m prompt => (d, Waiting prompt, m)
  end.

(** [self.runcall(exec, compiled_code, namespace, namespace)]. *)
Definition runcall (env : host) (d : debugger) (p : prog)
  : debugger * outcome * memory :=
  let '(d', o, m) := exec_from_reset env (set_step d) p in
  (set_quit d', o, m).

(** The namespace a run starts from (line 752). *)
Definition initial_memory : memory :=
  {| mem_heap :=
       {| obj_at := fun i =>
                      if (i =? 1)%Z then VStr "__debugger_run__"
                      else if (i =? 2)%Z then VClass "collections" "deque"
                      else if (i =? 3)%Z then VOpaque OModule
                      else VNone;
          repr_of := fun _ => Ok "None" |};
     mem_namespace := [("__name__", 1%Z); ("deque", 2%Z); ("__builtins__", 3%Z)] |}.

(** ** [run_debugger] (lines 741 to 862) *)

Definition set_last (trace : list step_entry) (f : step_entry -> step_entry)
  : list step_entry :=
  match last trace with
  | Some s => removelast trace ++ [f s]
  | None => trace
  end.

Definition or_minus_one (n : option Z) : Z :=
  match n with
  | Some z => if (z =? 0)%Z then (-1)%Z else z
  | None => (-1)%Z
  end.

(** Lines 767 to 779. *)
Definition syntax_error_info (env : host) (d : debugger) (e : syntax_error)
  : step_entry :=
  {| step := 0; line_no := or_minus_one (lineno e);
     code := match text e with
             | Some t => if is_empty t then "Syntax Error" else strip t
             | None => "Syntax Error"
             end;
     locals := []; globals := []; stdout := stdout_buffer d;
     visualizables := [];
     error := Some (Sanitizer.sanitize_traceback_paths env
                      ("SyntaxError: " ^^ strip (syntax_report e)) true);
     stack_info := {| current_frames := [];
                      historical_events := call_event_log d;
                      active_call_ids := logged_call_ids_stack d |};
     input_request := None |}.

(** Lines 780 to 801. *)
Definition runtime_error_info (env : host) (d : debugger) (e : runtime_error)
  : step_entry :=
  let originated_in_user_code_flag :=
    match user_lineno e with Some _ => true | None => false end in
  let error_line_no := match user_lineno e with Some n => n | None => (-1)%Z end in
  let last_step_data := last (execution_trace d) in
  let get {A} (field : step_entry -> A) (default : A) : A :=
    match last_step_data with Some s => field s | None => default end in
  {| step := current_step d;
     line_no := if (error_line_no =? -1)%Z then get line_no (-1)%Z
                else error_line_no;
     code := get code "<Error during execution>";
     locals := get locals []; globals := get globals [];
     stdout := stdout_buffer d;
     visualizables := get visualizables [];
     error := Some (Sanitizer.sanitize_traceback_paths env
                      (strip (traceback_report e)) originated_in_user_code_flag);
     stack_info :=
       {| current_frames := get (fun s => current_frames (stack_info s)) [];
          historical_events := events_up_to (call_event_log d) (current_step d);
          active_call_ids := logged_call_ids_stack d |};
     input_request := None |}.

Definition with_stack (s : step_entry) (out : string) (st : stack) : step_entry :=
  {| step := step s; line_no := line_no s; code := code s;
     locals := locals s; globals := globals s; stdout := out;
     visualizables := visualizables s; error := error s;
     stack_info := st; input_request := input_request s |}.

Definition with_final_view (s : step_entry) (out : string)
    (vars : list (string * string)) (nodes : list node) (st : stack) : step_entry :=
  {| step := step s; line_no := line_no s; code := code s;
     locals := vars; globals := []; stdout := out;
     visualizables := nodes; error := error s;
     stack_info := st; input_request := input_request s |}.

(** Lines 760 to 766: the handler of the blocking-input signal. *)
Definition on_waiting_for_input (d : debugger) (prompt : string) : debugger :=
  with_finished
    (with_trace d
       (set_last (execution_trace d)
          (fun last_step =>
             {| step := step last_step; line_no := line_no last_step;
                code := code last_step; locals := locals last_step;
                globals := globals last_step; stdout := stdout_buffer d;
                visualizables := visualizables last_step;
                error := error last_step; stack_info := stack_info last_step;
                input_request := Some prompt |}))
       (current_step d))
    false.

(** Lines 803 and 804: the first two statements of the [finally] block. *)
Definition restore (d : debugger) (w : world) : debugger * world :=
  let w1 := {| sys_stdout := original_stdout d;
               builtins_input := builtins_input w |} in
  match original_builtins_input d with
  | Some original =>
      ({| execution_trace := execution_trace d; current_step := current_step d;
          stdout_buffer := stdout_buffer d; original_stdout := original_stdout d;
          original_builtins_input := None;
          finished := finished d; code_lines := code_lines d;
          provided_input_value_for_next_call := provided_input_value_for_next_call d;
          all_provided_inputs := all_provided_inputs d;
          next_input_index := next_input_index d;
          call_id_counter := call_id_counter d; call_event_log := call_event_log d;
          active_call_ids_stack := active_call_ids_stack d;
          logged_call_ids_stack := logged_call_ids_stack d;
          quitting := quitting d |},
       {| sys_stdout := sys_stdout w1; builtins_input := original |})
  | None => (d, w1)
  end.

(** Lines 822 to 861: how the trace ends, from the error entry of the
    handlers ([None] when no handler built one), [is_syntax] telling a
    [SyntaxError] from another exception. *)
Definition finalize_trace (d : debugger) (error_info : option (step_entry * bool))
    (is_waiting_for_input_flag : bool)
    (module_level_vars_display : list (string * string))
    (current_final_visualizables : list node) : list step_entry :=
  let final_stdout_val := stdout_buffer d in
  let final_historical_events_snapshot := call_event_log d in
  match error_info with
  | Some (info, is_syntax) =>
      let st := {| current_frames := current_frames (stack_info info);
                   historical_events := final_historical_events_snapshot;
                   active_call_ids := logged_call_ids_stack d |} in
      let amend (s : step_entry) :=
        if is_syntax
        then with_final_view s final_stdout_val module_level_vars_display
                             current_final_visualizables st
        else with_stack s final_stdout_val st in
      if last_error_differs (execution_trace d) (error info)
      then execution_trace d ++ [amend info]
      else set_last (execution_trace d) amend
  | None =>
      if is_waiting_for_input_flag then execution_trace d
      else
        let final_stack_info_normal_finish :=
          {| current_frames := [];
             historical_events := final_historical_events_snapshot;
             active_call_ids := [] |} in
        match execution_trace d with
        | [] =>
            [{| step := current_step d; line_no := (-1)%Z;
                code := "Finished (No user lines traced)";
                locals := module_level_vars_display; globals := [];
                stdout := final_stdout_val;
                visualizables := current_final_visualizables; error := None;
                stack_info := final_stack_info_normal_finish;
                input_request := None |}]
        | _ =>
            set_last (execution_trace d)
              (fun last_step_ref =>
                 with_final_view last_step_ref final_stdout_val
                   module_level_vars_display current_final_visualizables
                   final_stack_info_normal_finish)
        end
  end.

(** Lines 742 to 751: the state and the redirections a run starts with. *)
Definition prepare_run (d0 : debugger) (w0 : world) (code_str : string)
    (input_to_inject : option pytext) (previous_inputs_list : option (list pytext))
  : debugger * world :=
  let d1 := reset_internal_debugger_state w0 d0 in
  ({| execution_trace := execution_trace d1; current_step := current_step d1;
      stdout_buffer := EmptyString; original_stdout := sys_stdout w0;
      original_builtins_input := Some (builtins_input w0);
      finished := finished d1; code_lines := splitlines code_str;
      provided_input_value_for_next_call := input_to_inject;
      all_provided_inputs := match previous_inputs_list with
                             | Some l => l
                             | None => []
                             end;
      next_input_index := 0;
      call_id_counter := call_id_counter d1; call_event_log := call_event_log d1;
      active_call_ids_stack := active_call_ids_stack d1;
      logged_call_ids_stack := logged_call_ids_stack d1;
      quitting := quitting d1 |},
   {| sys_stdout := StdoutBuffer; builtins_input := OneTimeInputMock |}).

(** Lines 757 to 759: [compile] and [runcall]. *)
Definition execute (env : host) (python : string -> compiled) (d : debugger)
    (code_str : string) : debugger * outcome * memory :=
  match python code_str with
  | CompileError e => (d, Failed (SyntaxErrorRaised e), initial_memory)
  | Compiled p => runcall env d p
  end.

(** Lines 760 to 801: the [except] clauses.  Returns the state, the error
    entry with whether it is a [SyntaxError], and
    [is_waiting_for_input_flag]. *)
Definition handle (env : host) (d : debugger) (result : outcome)
  : debugger * option (step_entry * bool) * bool :=
  match result with
  | Waiting prompt => (on_waiting_for_input d prompt, None, true)
  | Failed (SyntaxErrorRaised e) => (d, Some (syntax_error_info env d e, true), false)
  | Failed (ExceptionRaised e) => (d, Some (runtime_error_info env d e, false), false)
  | Failed BaseExceptionRaised | Completed => (d, None, false)
  end.

(** Lines 802 to 862: the [finally] block and the return.  The result is
    the returned trace, or [None] when an exception leaves the function. *)
Definition finish (env : host) (d4 : debugger) (w1 : world) (result : outcome)
    (namespace : memory) (error_info : option (step_entry * bool))
    (is_waiting_for_input_flag : bool)
  : debugger * world * option (list step_entry) :=
  let '(d5, w2) := restore d4 w1 in
  let d6 := if is_waiting_for_input_flag then d5 else with_finished d5 true in
  let final_context_snapshot := mem_namespace namespace in
  let current_final_visualizables :=
    extract_visualizables (recursion_depth env) (mem_heap namespace)
                          final_context_snapshot in
  let current_tracked_ids_final := tracked_ids_of current_final_visualizables in
  match display_vars (recursion_depth env) (mem_heap namespace)
                     current_tracked_ids_final
                     (fun k => negb (str_in k skip_globals_list))
                     final_context_snapshot with
  | Raise _ => (d6, w2, None)
  | Ok module_level_vars_display =>
      let trace := finalize_trace d6 error_info is_waiting_for_input_flag
                                  module_level_vars_display
                                  current_final_visualizables in
      let d7 := with_trace d6 trace (current_step d6) in
      (d7, w2,
       match result with
       | Failed BaseExceptionRaised => None
       | _ => Some (execution_trace d7)
       end)
  end.

Definition run_debugger (env : host) (python : string -> compiled)
    (d0 : debugger) (w0 : world)
    (code_str : string) (input_to_inject : option pytext)
    (previous_inputs_list : option (list pytext))
  : debugger * world * option (list step_entry) :=
  let '(d2, w1) := prepare_run d0 w0 code_str input_to_inject previous_inputs_list in
  let '(d3, result, namespace) := execute env python d2 code_str in
  let '(d4, error_info, is_waiting_for_input_flag) := handle env d3 result in
  finish env d4 w1 result namespace error_info is_waiting_for_input_flag.

End Session.

(* ===================================================================== *)
(** * [remove_think_tag] and [clean_code_response]                        *)
(* ===================================================================== *)

(** The argument of both functions is any value; [None] stands for one
    that is not a [str]. *)
Module Cleaner.
Import PyStr.

(** ** [remove_think_tag] (lines 870 to 872)

    The pattern is the opening tag, as few characters as possible (of any
    kind, line breaks included) and the closing tag, the letters in
    either case. *)

(** The closing tag searched from the start of [s]: the number of
    characters up to its end, at its first occurrence. *)
Fixpoint find_close (s : string) : option nat :=
  if startswith (lower s) "</think>" then Some 8
  else match s with
       | EmptyString => None
       | String _ s' => option_map S (find_close s')
       end.

(** The pattern matched at the start of [s]: the length of the match. *)
Definition think_block_at (s : string) : option nat :=
  if startswith (lower s) "<think>" then
    option_map (fun n => 7 + n) (find_close (drop 7 s))
  else None.

(** [re.sub(pattern, '', s)]: the leftmost match at each position is
    left out and the scan goes on behind it; [skip] counts the characters
    of the current match still to leave out. *)
Fixpoint sub_think (skip : nat) (s : string) : string :=
  match s with
  | EmptyString => EmptyString
  | String c s' =>
      match skip with
      | S k => sub_think k s'
      | O =>
          match think_block_at s with
          | Some (S n) => sub_think n s'
          | _ => String c (sub_think 0 s')
          end
      end
  end.

Definition remove_think_tag (text : option string) : string :=
  match text with
  | None => EmptyString
  | Some t => sub_think 0 t
  end.

(** ** The tests for the first line of code (lines 994 to 998) *)

Definition is_identifier_start (c : ascii) : bool :=
  let n := nat_of_ascii c in
  ((97 <=? n) && (n <=? 122)) || ((65 <=? n) && (n <=? 90)) || (n =? 95).

Definition is_identifier_char (c : ascii) : bool :=
  is_identifier_start c || is_digit c.

(** What follows the identifier [s] starts with, if it starts with one. *)
Definition after_identifier (s : string) : option string :=
  match s with
  | String c s' =>
      if is_identifier_start c then Some (snd (span is_identifier_char s'))
      else None
  | EmptyString => None
  end.

(** An identifier, white space, and an equals sign. *)
Definition assignment_start (s : string) : bool :=
  match after_identifier s with
  | Some r => startswith (lstrip r) "="
  | None => false
  end.

(** Some closing parenthesis of [s] is followed by white space and a
    colon. *)
Fixpoint closes_with_colon (s : string) : bool :=
  match s with
  | EmptyString => false
  | String c s' =>
      (Ascii.eqb c ")" && startswith (lstrip s') ":") || closes_with_colon s'
  end.

(** An identifier, white space, an opening parenthesis, and later a
    closing parenthesis followed by white space and a colon. *)
Definition header_start (s : string) : bool :=
  match after_identifier s with
  | Some r =>
      match lstrip r with
      | String c r' => Ascii.eqb c "(" && closes_with_colon r'
      | EmptyString => false
      end
  | None => false
  end.

(** An identifier directly followed by an opening parenthesis. *)
Definition call_start (s : string) : bool :=
  match after_identifier s with
  | Some r => startswith r "("
  | None => false
  end.

Definition code_prefixes : list string :=
  ["def "; "class "; "import "; "from "; "#";
   chr dquote ^^ chr dquote ^^ chr dquote; "'''"].

Definition is_code_start (line : string) : bool :=
  let stripped_line := strip line in
  negb (is_empty stripped_line)
  && (existsb (startswith stripped_line) code_prefixes
      || assignment_start stripped_line
      || header_start stripped_line
      || startswith stripped_line "print("
      || call_start stripped_line).

(** [lines[code_start_index:]] when the loop found a line of code. *)
Fixpoint from_code_start (lines : list string) : option (list string) :=
  match lines with
  | [] => None
  | line :: rest =>
      if is_code_start line then Some lines else from_code_start rest
  end.

(** ** The two patterns for the fences (lines 1000 and 1001) *)

(** White space as far as its last line feed: the length matched. *)
Fixpoint ws_to_newline (s : string) : option nat :=
  match s with
  | String c s' =>
      if isspace c then
        match ws_to_newline s' with
        | Some n => Some (S n)
        | None => if Ascii.eqb c newline then Some 1 else None
        end
      else None
  | EmptyString => None
  end.

(** White space as far as possible with the end of the text or a line
    feed behind it: the length matched. *)
Fixpoint ws_to_eol (s : string) : option nat :=
  match s with
  | EmptyString => Some 0
  | String c s' =>
      if isspace c then
        match ws_to_eol s' with
        | Some n => Some (S n)
        | None => if Ascii.eqb c newline then Some 0 else None
        end
      else None
  end.

Definition fence : string := "```".

(** The opening fence at the start of a line: white space, the fence,
    [python] or [py] in either case or nothing, and white space up to a
    line feed. *)
Definition fence_open_at (s : string) : option nat :=
  let r := lstrip s in
  if startswith r fence then
    let after := drop 3 r in
    let alternative (word : string) :=
      if startswith (lower after) word then
        option_map (fun n => (len s - len r) + 3 + len word + n)
                   (ws_to_newline (drop (len word) after))
      else None in
    match alternative "python" with
    | Some n => Some n
    | None =>
        match alternative "py" with
        | Some n => Some n
        | None => alternative EmptyString
        end
    end
  else None.

(** [at_start]: the scan is at the start of the text or behind a line
    feed. *)
Fixpoint sub_fence_open (at_start : bool) (skip : nat) (s : string) : string :=
  match s with
  | EmptyString => EmptyString
  | String c s' =>
      let next_at_start := Ascii.eqb c newline in
      match skip with
      | S k => sub_fence_open next_at_start k s'
      | O =>
          match (if at_start then fence_open_at s else None) with
          | Some (S n) => sub_fence_open next_at_start n s'
          | _ => String c (sub_fence_open next_at_start 0 s')
          end
      end
  end.

(** The closing fence: a line feed, white space, the fence, and white
    space up to the end of the text or of a line. *)
Definition fence_close_at (s : string) : option nat :=
  match s with
  | String c s' =>
      if Ascii.eqb c newline then
        let r := lstrip s' in
        if startswith r fence then
          option_map (fun n => 1 + (len s' - len r) + 3 + n)
                     (ws_to_eol (drop 3 r))
        else None
      else None
  | EmptyString => None
  end.

Fixpoint sub_fence_close (skip : nat) (s : string) : string :=
  match s with
  | EmptyString => EmptyString
  | String c s' =>
      match skip with
      | S k => sub_fence_close k s'
      | O =>
          match fence_close_at s with
          | Some (S n) => sub_fence_close n s'
          | _ => String c (sub_fence_close 0 s')
          end
      end
  end.

(** ** [clean_code_response] (lines 983 to 1004) *)

Definition invalid_input_message : string :=
  "Error: Invalid input for cleaning.".

Definition empty_result_message : string :=
  "Error: Code cleaning failed (empty). Original might be non-code.".

Definition clean_code_response (response_text : option string) : string :=
  match response_text with
  | None => invalid_input_message
  | Some text =>
      if startswith (strip text) "Error:" then text
      else
        let cleaned := remove_think_tag (Some text) in
        let lines := splitlines cleaned in
        let cleaned :=
          match from_code_start lines with
          | Some kept => join LF kept
          | None => cleaned
          end in
        let cleaned := sub_fence_open true 0 cleaned in
        let cleaned := sub_fence_close 0 cleaned in
        let cleaned := strip cleaned in
        if is_empty cleaned then empty_result_message else cleaned
  end.

End Cleaner.

(* ===================================================================== *)
(** * The conversion stage of [debug]                                     *)
(* ===================================================================== *)

Module Route.
Import PyStr Cleaner.

(** Lines 1039 to 1046 and 1053 of [debug], for a new run in another
    language: the code to trace, from the text [convert_to_python]
    returned, or the message of the [ValueError] raised. *)
Definition code_from_conversion (converted_code_raw : string)
  : string + string :=
  if startswith converted_code_raw "Error:" then inl converted_code_raw
  else
    let final_code_to_debug := clean_code_response (Some converted_code_raw) in
    if startswith final_code_to_debug "Error:"
       || is_empty (strip final_code_to_debug) then
      let error_msg :=
        if startswith final_code_to_debug "Error:" then final_code_to_debug
        else "Conversion resulted in empty code." in
      inl (if contains error_msg "empty code" then
             error_msg ^^ " Raw: '" ^^ take 100 converted_code_raw ^^ "...'"
           else error_msg)
    else if is_empty final_code_to_debug || is_empty (strip final_code_to_debug)
    then inl "No Python code to debug."
    else inr final_code_to_debug.

End Route.

(* ===================================================================== *)
(** * [generate_llm_stream] and [ask_llm_stream]                          *)
(* ===================================================================== *)

(** The server the two functions talk to is not part of the program: a
    request is modelled by the lines [iter_lines] delivers, decoded, and
    by how the delivery ends. *)
Module Stream.
Import PyStr.

Inductive stream_end :=
| StreamEnds
| TimeoutRaised
| RequestExceptionRaised (type_name : string)
| ExceptionRaised (type_name : string).

(** [json.dumps] of a text that holds no character to escape. *)
Definition json_text (s : string) : string := chr dquote ^^ s ^^ chr dquote.

(** [f"data: {json.dumps({'error': message})}\n\n"]. *)
Definition error_event (message : string) : string :=
  "data: {" ^^ json_text "error" ^^ ": " ^^ json_text message ^^ "}" ^^ LF ^^ LF.

(** The event of line 959. *)
Definition done_event : string :=
  "data: {" ^^ json_text "choices" ^^ ": [{" ^^ json_text "delta" ^^ ": {"
  ^^ json_text "content" ^^ ": " ^^ json_text EmptyString ^^ "}, "
  ^^ json_text "finish_reason" ^^ ": " ^^ json_text "stop" ^^ "}]}" ^^ LF ^^ LF.

Definition keep_alive : string := ": keep-alive" ^^ LF ^^ LF.

(** Lines 952 to 968: the events for the lines received, and whether the
    loop was left at the end marker. *)
Fixpoint relay (lines : list string) : list string * bool :=
  match lines with
  | [] => ([], false)
  | decoded_line :: rest =>
      if is_empty decoded_line then relay rest
      else if startswith decoded_line "data: " then
        let json_data_str := strip (drop 6 decoded_line) in
        if String.eqb json_data_str "[DONE]" then ([done_event], true)
        else
          let '(events, done) := relay rest in
          (("data: " ^^ json_data_str ^^ LF ^^ LF) :: events, done)
      else if String.eqb (strip decoded_line) ":"
              || startswith (strip decoded_line) ": ping" then
        let '(events, done) := relay rest in (keep_alive :: events, done)
      else relay rest
  end.

(** Lines 948 to 978: the generator, as the list of what it yields. *)
Definition generate_llm_stream (lines : list string) (ending : stream_end)
  : list string :=
  let '(events, done) := relay lines in
  if done then events
  else
    events ++
    match ending with
    | StreamEnds => []
    | TimeoutRaised => [error_event "LLM request timed out (120s)"]
    | RequestExceptionRaised type_name =>
        [error_event ("LLM API request failed (" ^^ type_name ^^ ")")]
    | ExceptionRaised type_name =>
        [error_event ("Unexpected error during LLM stream (" ^^ type_name ^^ ")")]
    end.

(** Lines 1097 to 1114: the events of the response. *)
Definition ask_llm_stream (code user_question : string)
    (lines : list string) (ending : stream_end) : list string :=
  if is_empty (strip code) then [error_event "Code cannot be empty."]
  else if is_empty (strip user_question) then
    [error_event "Question cannot be empty."]
  else generate_llm_stream lines ending.

End Stream.

(* ===================================================================== *)
(** * Concrete hosts, stores and submissions                              *)
(* ===================================================================== *)

Module Examples.
Import PyStr Heap Render Extract Session.

Definition example_host : host :=
  {| abspath := Some;
     python_std_lib_prefix := "/usr/lib/python3";
     debugger_script_abs := "/srv/app/a.py";
     recursion_depth := 200;
     format_exc := fun _ => "Traceback (most recent call last):" |}.

Definition host_world : world :=
  {| sys_stdout := HostStream 0; builtins_input := HostInput 0 |}.

(** A store: the integers 1, 2 and 5 at their own identities, the list
    [[1, 2]] at 10, the string ['a'] at 11, the mapping [{'a': [1, 2]}]
    at 12, and at 20 a list whose only element is itself. *)
Definition small_heap : heap :=
  {| obj_at := fun i =>
                 match i with
                 | 1 => VInt 1
                 | 2 => VInt 2
                 | 5 => VInt 5
                 | 10 => VList [1; 2]
                 | 11 => VStr "a"
                 | 12 => VDict [(11, 10)]
                 | 20 => VList [20]
                 | _ => VNone
                 end%Z;
     repr_of := fun _ => Ok "None" |}.

Definition small_memory : memory :=
  {| mem_heap := small_heap;
     mem_namespace := [("x", 10%Z); ("y", 10%Z); ("z", 12%Z)] |}.

Definition module_code : code_obj :=
  {| co_name := "<module>"; co_filename := "<string>"; co_varnames := [];
     co_argcount := 0; co_posonlyargcount := 0; co_kwonlyargcount := 0;
     co_varargs := false; co_varkeywords := false |}.

(** The frames below the submission: [Bdb.runcall], which calls [exec],
    called by [run_debugger]. *)
Definition run_debugger_frame : frame :=
  Frame {| co_name := "run_debugger"; co_filename := "/srv/app/a.py";
           co_varnames := ["self"; "code_str"; "input_to_inject";
                           "previous_inputs_list"];
           co_argcount := 4; co_posonlyargcount := 0; co_kwonlyargcount := 0;
           co_varargs := false; co_varkeywords := false |}
        759 [] [] None.

Definition runcall_frame : frame :=
  Frame {| co_name := "runcall"; co_filename := "/usr/lib/python3/bdb.py";
           co_varnames := ["self"; "func"; "args"; "kwds"];
           co_argcount := 2; co_posonlyargcount := 0; co_kwonlyargcount := 0;
           co_varargs := true; co_varkeywords := true |}
        600 [] [] (Some run_debugger_frame).

Definition module_frame (line : Z) : frame :=
  Frame module_code line (mem_namespace small_memory)
        (mem_namespace small_memory) (Some runcall_frame).

Definition f_code_obj : code_obj :=
  {| co_name := "f"; co_filename := "<string>"; co_varnames := ["a"];
     co_argcount := 1; co_posonlyargcount := 0; co_kwonlyargcount := 0;
     co_varargs := false; co_varkeywords := false |}.

Definition f_frame (line : Z) : frame :=
  Frame f_code_obj line [("a", 10%Z)] (mem_namespace small_memory)
        (Some (module_frame 3)).

(** The events of a submission of one line, [x = [1, 2]]: the call event
    of its module frame, the line, and the return event of the module
    frame. *)
Definition module_call_submission : prog :=
  PCall small_memory (module_frame 1)
    (PLine small_memory (module_frame 1)
       (PReturn small_memory (module_frame 1) 0%Z (PDone small_memory))).

(** A call of [f] from the module level, and its return. *)
Definition function_call_submission : prog :=
  PCall small_memory (module_frame 1)
    (PLine small_memory (module_frame 3)
       (PCall small_memory (f_frame 1)
          (PLine small_memory (f_frame 2)
             (PReturn small_memory (f_frame 2) 5%Z
                (PReturn small_memory (module_frame 3) 0%Z
                   (PDone small_memory)))))).

(** The same submission run by a nested [exec] at the top level of
    another: the module frame of the inner submission is called from the
    module frame of the outer one, whose call event came first. *)
Definition nested_exec_submission : prog :=
  PCall small_memory (module_frame 1)
    (PLine small_memory (module_frame 1)
       (PCall small_memory
          (Frame module_code 1 (mem_namespace small_memory)
                 (mem_namespace small_memory) (Some (module_frame 1)))
          (PLine small_memory
             (Frame module_code 1 (mem_namespace small_memory)
                    (mem_namespace small_memory) (Some (module_frame 1)))
             (PReturn small_memory
                (Frame module_code 1 (mem_namespace small_memory)
                       (mem_namespace small_memory) (Some (module_frame 1)))
                0%Z
                (PReturn small_memory (module_frame 1) 0%Z
                   (PDone small_memory)))))).

(** Two lines, the second of which raises [SyntaxError] while it runs
    (as [eval('1 +')] does). *)
Definition runtime_syntax_error : syntax_error :=
  {| lineno := Some 1%Z; text := Some "1 +";
     syntax_report := "SyntaxError: invalid syntax" |}.

Definition eval_submission : prog :=
  PCall small_memory (module_frame 1)
    (PLine small_memory (module_frame 1)
       (PLine small_memory (module_frame 2)
          (PReturn small_memory (module_frame 2) 0%Z
             (PRaise small_memory (SyntaxErrorRaised runtime_syntax_error))))).

(** A traceback with a frame of the debugger library and a frame of the
    submission. *)
Definition example_traceback : string :=
  "Traceback (most recent call last):" ^^ LF
  ^^ "  File " ^^ chr dquote ^^ "/usr/lib/python3/bdb.py" ^^ chr dquote
  ^^ ", line 12, in run" ^^ LF
  ^^ "  File " ^^ chr dquote ^^ "<string>" ^^ chr dquote
  ^^ ", line 2, in <module>" ^^ LF
  ^^ "ZeroDivisionError: division by zero".

(** What follows a console read at line [line] of the module level that
    no [try] statement guards: the submission goes on with the value, or
    the exception of the read leaves the module frame and the
    submission. *)
Definition unguarded (line : Z) (k : string -> prog) (r : input_result) : prog :=
  match r with
  | InputValue v => k v
  | WaitingForInputException prompt =>
      PReturn small_memory (module_frame line) 0%Z (PWaiting small_memory prompt)
  | InputTypeError =>
      PReturn small_memory (module_frame line) 0%Z
        (PRaise small_memory
           (ExceptionRaised {| user_lineno := Some line;
                               traceback_report := example_traceback |}))
  end.

(** One line that reads the console, [print(input('name? '))]. *)
Definition input_submission : prog :=
  PCall small_memory (module_frame 1)
    (PLine small_memory (module_frame 1)
       (PInput small_memory (Str "name? ")
          (unguarded 1
             (fun v => PPrint v
                         (PReturn small_memory (module_frame 1) 0%Z
                            (PDone small_memory)))))).


(** The same with a prompt that is not text, [input(5)], and a second
    read, of a text prompt, after the first was caught. *)
Definition number_prompt_submission : prog :=
  PCall small_memory (module_frame 1)
    (PLine small_memory (module_frame 1)
       (PLine small_memory (module_frame 2)
          (PInput small_memory NotStr
             (fun _ =>
                PLine small_memory (module_frame 5)
                  (PInput small_memory (Str "name? ")
                     (unguarded 5
                        (fun v => PReturn small_memory (module_frame 5) 0%Z
                                    (PDone small_memory)))))))).

Definition run_example (p : prog) (input_to_inject : option pytext)
    (previous_inputs_list : option (list pytext))
  : debugger * world * option (list step_entry) :=
  run_debugger example_host (fun _ => Compiled p) (new_debugger host_world)
               host_world "x = [1, 2]" input_to_inject previous_inputs_list.


(** A debugger with the recorded inputs used up and a value staged. *)
Definition staged_debugger : debugger :=
  with_input (new_debugger host_world) EmptyString (Some (Str "cy"))
             [Str "ann"; Str "bob"] 2.


(** A store with one object at 30, an instance of a class [Node] of the
    submission whose attribute [next] is the object itself. *)
Definition node_heap : heap :=
  {| obj_at := fun _ => VInstance "__debugger_run__" "Node" (Some [("next", 30%Z)]) false;
     repr_of := fun _ => Ok "<__debugger_run__.Node object at 0x1e>" |}.

(** A store where every identity is an empty list of its own, and a scope
    that binds [n] names to the identities 1 to [n]. *)
Definition lists_heap : heap :=
  {| obj_at := fun _ => VList []; repr_of := fun _ => Ok "[]" |}.

Definition many_bindings (n : nat) : list (string * ident) :=
  map (fun i => ("v" ^^ str_nat i, Z.of_nat i)) (seq 1 n).

(** A store with, at 100, a mapping of 16 items, [{(0,): [], (1,): [],
    ...}]: the key of item [k] is the tuple at [200 + k], whose only
    element is the integer [k] at [400 + k], and its value the empty list
    at [300 + k]; and, at 101, a list of 40 empty lists, those at 500 to
    539.  All the objects are distinct and the keys are different
    values. *)
Definition wide_dict_heap : heap :=
  {| obj_at := fun i =>
                 if (i =? 100)%Z then
                   VDict (map (fun k => (Z.of_nat (200 + k), Z.of_nat (300 + k)))
                              (seq 0 16))
                 else if (i =? 101)%Z then
                   VList (map (fun k => Z.of_nat (500 + k)) (seq 0 40))
                 else if (i <? 200)%Z then VNone
                 else if (i <? 300)%Z then VTuple [(i + 200)%Z]
                 else if (i <? 400)%Z then VList []
                 else if (i <? 500)%Z then VInt (i - 400)
                 else VList [];
     repr_of := fun _ => Ok "None" |}.

(** A call of [f] that calls [g], each between two lines. *)
Definition g_code_obj : code_obj :=
  {| co_name := "g"; co_filename := "<string>"; co_varnames := [];
     co_argcount := 0; co_posonlyargcount := 0; co_kwonlyargcount := 0;
     co_varargs := false; co_varkeywords := false |}.

Definition g_frame (line : Z) : frame :=
  Frame g_code_obj line [] (mem_namespace small_memory) (Some (f_frame 2)).

Definition nested_call_submission : prog :=
  PCall small_memory (module_frame 1)
    (PLine small_memory (module_frame 5)
       (PCall small_memory (f_frame 1)
          (PLine small_memory (f_frame 2)
             (PCall small_memory (g_frame 3)
                (PLine small_memory (g_frame 4)
                   (PReturn small_memory (g_frame 4) 5%Z
                      (PReturn small_memory (f_frame 2) 5%Z
                         (PReturn small_memory (module_frame 5) 0%Z
                            (PDone small_memory))))))))).

(** Two lines with a [print] between them. *)
Definition print_submission : prog :=
  PCall small_memory (module_frame 1)
    (PLine small_memory (module_frame 1)
       (PPrint ("hi" ^^ LF)
          (PLine small_memory (module_frame 2)
             (PReturn small_memory (module_frame 2) 0%Z
                (PDone small_memory))))).

(** A line, then an exception raised in the submission that nothing
    catches. *)
Definition failing_submission : prog :=
  PCall small_memory (module_frame 1)
    (PLine small_memory (module_frame 1)
       (PReturn small_memory (module_frame 1) 0%Z
          (PRaise small_memory
             (ExceptionRaised {| user_lineno := Some 2%Z;
                                 traceback_report := example_traceback |})))).

End Examples.

(* ===================================================================== *)
(** * Properties of the session                                           *)
(* ===================================================================== *)

Module SessionFacts.
Import PyStr Heap Render Extract Session Examples.

(** ** What each hook leaves alone *)

(** The fields only [prepare_run] and [restore] write. *)
Definition same_originals (d d' : debugger) : Prop :=
  original_stdout d' = original_stdout d
  /\ original_builtins_input d' = original_builtins_input d.

(** The call-log part of the state. *)
Definition same_calls (d d' : debugger) : Prop :=
  call_id_counter d' = call_id_counter d
  /\ call_event_log d' = call_event_log d
  /\ active_call_ids_stack d' = active_call_ids_stack d
  /\ logged_call_ids_stack d' = logged_call_ids_stack d.

(** The step-trace part of the state. *)
Definition same_steps (d d' : debugger) : Prop :=
  execution_trace d' = execution_trace d
  /\ current_step d' = current_step d
  /\ quitting d' = quitting d.

Ltac hook_cases :=
  repeat match goal with
         | |- context [match ?x with _ => _ end] => destruct x eqn:?
         end;
  simpl; auto.

Lemma user_call_originals env d h f : same_originals d (user_call env d h f).
Proof. unfold user_call, same_originals. hook_cases. Qed.

Lemma user_return_originals env d h f v :
  same_originals d (user_return env d h f v).
Proof. unfold user_return, same_originals. hook_cases. Qed.

Lemma user_line_originals env d h f : same_originals d (user_line env d h f).
Proof. unfold user_line, same_originals. hook_cases. Qed.

Lemma input_mock_originals d prompt :
  same_originals d (_one_time_input_mock d prompt).1.
Proof.
  unfold _one_time_input_mock, _custom_input_handler, same_originals. hook_cases.
Qed.

Lemma user_call_steps env d h f : same_steps d (user_call env d h f).
Proof. unfold user_call, same_steps. hook_cases. Qed.

Lemma user_return_steps env d h f v : same_steps d (user_return env d h f v).
Proof. unfold user_return, same_steps. hook_cases. Qed.

Lemma input_mock_steps d prompt : same_steps d (_one_time_input_mock d prompt).1.
Proof.
  unfold _one_time_input_mock, _custom_input_handler, same_steps. hook_cases.
Qed.

Lemma user_line_calls env d h f : same_calls d (user_line env d h f).
Proof. unfold user_line, same_calls. hook_cases. Qed.

Lemma input_mock_calls d prompt : same_calls d (_one_time_input_mock d prompt).1.
Proof.
  unfold _one_time_input_mock, _custom_input_handler, same_calls. hook_cases.
Qed.

(** ** Induction over the events of a submission *)

(** A relation between the state before and after that every hook
    establishes holds across the whole execution. *)
Lemma exec_prog_rel (R : debugger -> debugger -> Prop) env :
  (forall d, R d d) ->
  (forall a b c, R a b -> R b c -> R a c) ->
  (forall d h f, R d (user_line env d h f)) ->
  (forall d h f, R d (user_call env d h f)) ->
  (forall d h f v, R d (user_return env d h f v)) ->
  (forall d prompt, R d (_one_time_input_mock d prompt).1) ->
  (forall d text, R d (write_stdout d text)) ->
  forall p d, R d (exec_prog env d p).1.1.
Proof.
  intros Hrefl Htrans Hline Hcall Hret Hin Hout.
  induction p as [m|m e|m f k IH|m f k IH|m f v k IH|m prompt k IH|text k IH
                 |m prompt];
    intros d; simpl.
  - apply Hrefl.
  - apply Hrefl.
  - destruct (quitting (user_line env d (mem_heap m) f)); simpl.
    + apply Hline.
    + eapply Htrans; [apply Hline | apply IH].
  - eapply Htrans; [apply Hcall | apply IH].
  - eapply Htrans; [apply Hret | apply IH].
  - pose proof (Hin d prompt) as Hd.
    destruct (_one_time_input_mock d prompt) as [d' r]; simpl in *.
    eapply Htrans; [exact Hd | apply IH].
  - eapply Htrans; [apply Hout | apply IH].
  - apply Hrefl.
Qed.

(** The events that reach the hooks from [Bdb.reset] on: all but the call
    events that find [botframe] unset. *)
Fixpoint dispatched_from_reset (p : prog) : prog :=
  match p with
  | PCall m f k =>
      match f_back f with
      | Some _ => k
      | None => dispatched_from_reset k
      end
  | PLine m f k => PLine m f (dispatched_from_reset k)
  | PReturn m f v k => PReturn m f v (dispatched_from_reset k)
  | PInput m prompt k => PInput m prompt (fun r => dispatched_from_reset (k r))
  | PPrint text k => PPrint text (dispatched_from_reset k)
  | PDone _ | PRaise _ _ | PWaiting _ _ => p
  end.

Lemma exec_from_reset_dispatched env p :
  forall d, exec_from_reset env d p = exec_prog env d (dispatched_from_reset p).
Proof.
  induction p as [m|m e|m f k IH|m f k IH|m f v k IH|m prompt k IH|text k IH
                 |m prompt];
    intros d; cbn [exec_from_reset dispatched_from_reset exec_prog];
    try reflexivity.
  - destruct (quitting (user_line env d (mem_heap m) f)); [reflexivity|apply IH].
  - destruct (f_back f); [reflexivity|apply IH].
  - apply IH.
  - destruct (_one_time_input_mock d prompt) as [d' r]. apply IH.
  - apply IH.
Qed.

(** What holds of the engine for every submission holds of [runcall]. *)
Lemma runcall_as_exec_prog env d p :
  runcall env d p
  = let '(d', o, m) := exec_prog env (set_step d) (dispatched_from_reset p) in
    (set_quit d', o, m).
Proof. unfold runcall. rewrite exec_from_reset_dispatched. reflexivity. Qed.

Ltac from_reset p :=
  rewrite exec_from_reset_dispatched;
  generalize (dispatched_from_reset p); clear p; intro p.

(** An invariant of the state that every hook preserves holds when the
    execution stops. *)
Lemma exec_prog_inv (I : debugger -> Prop) env :
  (forall d h f, I d -> I (user_line env d h f)) ->
  (forall d h f, I d -> I (user_call env d h f)) ->
  (forall d h f v, I d -> I (user_return env d h f v)) ->
  (forall d prompt, I d -> I (_one_time_input_mock d prompt).1) ->
  (forall d text, I d -> I (write_stdout d text)) ->
  forall p d, I d -> I (exec_prog env d p).1.1.
Proof.
  intros Hline Hcall Hret Hin Hout p d.
  apply (exec_prog_rel (fun a b => I a -> I b) env); auto.
Qed.

Lemma exec_prog_originals env p d : same_originals d (exec_prog env d p).1.1.
Proof.
  apply (exec_prog_rel same_originals).
  - intros; split; reflexivity.
  - intros a b c [H1 H2] [H3 H4]; split; congruence.
  - apply user_line_originals.
  - apply user_call_originals.
  - apply user_return_originals.
  - apply input_mock_originals.
  - intros; split; reflexivity.
Qed.

Lemma execute_originals env python d code_str :
  same_originals d (execute env python d code_str).1.1.
Proof.
  unfold execute.
  destruct (python code_str) as [e|p]; simpl.
  - split; reflexivity.
  - rewrite runcall_as_exec_prog.
    pose proof (exec_prog_originals env (dispatched_from_reset p) (set_step d))
      as [H1 H2].
    destruct (exec_prog env (set_step d) (dispatched_from_reset p))
      as [[d' o] m]; simpl in *.
    split; assumption.
Qed.

Lemma handle_originals env d result : same_originals d (handle env d result).1.1.
Proof.
  unfold handle, same_originals.
  destruct result as [|prompt|[e|e|]]; simpl; auto.
Qed.

(** The world [finish] leaves is the one [restore] computes. *)
Lemma finish_world env d4 w1 result namespace error_info flag :
  (finish env d4 w1 result namespace error_info flag).1.2 = (restore d4 w1).2.
Proof.
  unfold finish. destruct (restore d4 w1) as [d5 w2]; simpl.
  destruct (display_vars _ _ _ _ _); reflexivity.
Qed.

(** ** Restoring the redirections *)

(** C6.  Whatever the submission does (it completes, it blocks on a
    console read, it does not compile, it raises, or an exception that no
    handler catches crosses the function), the world after
    [run_debugger] has the standard output stream and the console input
    function it had before the run. *)
Theorem run_debugger_restores_stdout_and_input
    env python d0 w0 code_str input_to_inject previous_inputs_list :
  (run_debugger env python d0 w0 code_str input_to_inject
                previous_inputs_list).1.2 = w0.
Proof.
  unfold run_debugger.
  destruct (prepare_run d0 w0 code_str input_to_inject previous_inputs_list)
    as [d2 w1] eqn:Hprep.
  pose proof (execute_originals env python d2 code_str) as [Ho1 Ho2].
  destruct (execute env python d2 code_str) as [[d3 result] namespace].
  pose proof (handle_originals env d3 result) as [Hh1 Hh2].
  destruct (handle env d3 result) as [[d4 error_info] flag].
  rewrite finish_world. simpl in *.
  unfold prepare_run in Hprep. injection Hprep as <- <-. simpl in *.
  unfold restore. rewrite Hh2, Ho2, Hh1, Ho1. simpl.
  destruct w0; reflexivity.
Qed.

(** ** The return hook on an empty stack *)

(** C10.  With no active call id, the return hook changes nothing: the
    state it returns is the state it was given, so no call event is
    appended, both stacks are as they were and the counter is unchanged. *)
Theorem user_return_on_empty_stack_is_noop env d h f return_value :
  active_call_ids_stack d = [] ->
  user_return env d h f return_value = d.
Proof.
  intros Hempty. unfold user_return. rewrite Hempty. reflexivity.
Qed.

(** ** Console reads *)






(** ** The call event log *)

(** [e] is the call record of call id [c]. *)
Definition is_call_of (c : nat) (e : call_event) : bool :=
  match e with
  | CallEvent c' _ _ _ _ _ => c' =? c
  | ReturnEvent _ _ _ => false
  end.

(** Every return record comes after a call record with its call id. *)
Definition returns_follow_calls (log : list call_event) : Prop :=
  forall i c r t,
    log !! i = Some (ReturnEvent c r t) ->
    exists j e, j < i /\ log !! j = Some e /\ is_call_of c e = true.

(** Every id on the logged stack has its call record in the log. *)
Definition logged_ids_have_calls (d : debugger) : Prop :=
  forall c, In c (logged_call_ids_stack d) ->
            exists j e, call_event_log d !! j = Some e /\ is_call_of c e = true.

Definition call_log_inv (d : debugger) : Prop :=
  returns_follow_calls (call_event_log d) /\ logged_ids_have_calls d.

Lemma returns_follow_calls_snoc_call log c p fn a l t :
  returns_follow_calls log ->
  returns_follow_calls (log ++ [CallEvent c p fn a l t]).
Proof.
  intros Hlog i c' r t' Hi.
  destruct (decide (i < length log)) as [Hlt|Hge].
  - rewrite lookup_app_l in Hi by exact Hlt.
    destruct (Hlog i c' r t' Hi) as (j & e & Hj & Hje & Hc).
    exists j, e. split; [exact Hj|]. split; [|exact Hc].
    rewrite lookup_app_l by lia. exact Hje.
  - rewrite lookup_app_r in Hi by lia.
    destruct (i - length log) as [|n]; simpl in Hi; [discriminate|].
    destruct n; discriminate.
Qed.

Lemma returns_follow_calls_snoc_return log c r t :
  returns_follow_calls log ->
  (exists j e, log !! j = Some e /\ is_call_of c e = true) ->
  returns_follow_calls (log ++ [ReturnEvent c r t]).
Proof.
  intros Hlog (j0 & e0 & Hj0 & Hc0) i c' r' t' Hi.
  destruct (decide (i < length log)) as [Hlt|Hge].
  - rewrite lookup_app_l in Hi by exact Hlt.
    destruct (Hlog i c' r' t' Hi) as (j & e & Hj & Hje & Hc).
    exists j, e. split; [exact Hj|]. split; [|exact Hc].
    rewrite lookup_app_l by lia. exact Hje.
  - assert (i = length log) as ->.
    { apply lookup_lt_Some in Hi. rewrite length_app in Hi. simpl in Hi. lia. }
    rewrite lookup_app_r in Hi by lia.
    rewrite Nat.sub_diag in Hi. simpl in Hi. injection Hi as <- <- <-.
    exists j0, e0. split; [eapply lookup_lt_Some; exact Hj0|].
    split; [|exact Hc0].
    rewrite lookup_app_l by (eapply lookup_lt_Some; exact Hj0). exact Hj0.
Qed.

Lemma top_In stack t : top stack = Some t -> In t stack.
Proof.
  unfold top. intros H. apply last_Some in H as [l' ->].
  apply in_or_app. right. left. reflexivity.
Qed.

Lemma In_removelast (l : list nat) x : In x (removelast l) -> In x l.
Proof.
  induction l as [|a l IH]; [auto|].
  destruct l as [|b l']; [intros []|].
  change (removelast (a :: b :: l')) with (a :: removelast (b :: l')).
  intros [H|H]; [left; exact H|right; apply IH; exact H].
Qed.

Lemma In_pop_if_top stack i x : In x (pop_if_top stack i) -> In x stack.
Proof.
  unfold pop_if_top. destruct (top stack) as [t|]; auto.
  destruct (t =? i); auto. apply In_removelast.
Qed.

Lemma is_top_In stack i : is_top stack i = true -> In i stack.
Proof.
  unfold is_top. destruct (top stack) as [t|] eqn:Ht; [|discriminate].
  intros H. apply Nat.eqb_eq in H. subst. apply top_In. exact Ht.
Qed.

Lemma user_call_call_log_inv env d h f :
  call_log_inv d -> call_log_inv (user_call env d h f).
Proof.
  intros [Hret Hlogged]. unfold user_call.
  destruct (negb (is_debugger_internal env f) && negb (is_bdb_internal f));
    [|split; simpl; assumption].
  destruct (if negb (String.eqb (function_name_of f) "<module>")
            then _get_frame_args_and_values (recursion_depth env) h f ∅
            else Ok "N/A (module scope)") as [args_repr|e];
    [|split; simpl; assumption].
  split; simpl.
  - apply returns_follow_calls_snoc_call. exact Hret.
  - intros c Hc. unfold logged_ids_have_calls in *. simpl in *.
    apply in_app_or in Hc as [Hc|[<-|[]]].
    + destruct (Hlogged c Hc) as (j & e & Hj & He).
      exists j, e. split; [|exact He].
      rewrite lookup_app_l by (eapply lookup_lt_Some; exact Hj). exact Hj.
    + eexists (length (call_event_log d)), _. split.
      * rewrite lookup_app_r by lia. rewrite Nat.sub_diag. reflexivity.
      * simpl. apply Nat.eqb_refl.
Qed.

Lemma user_return_call_log_inv env d h f v :
  call_log_inv d -> call_log_inv (user_return env d h f v).
Proof.
  intros [Hret Hlogged]. unfold user_return.
  destruct (top (active_call_ids_stack d)) as [returned_call_id|];
    [|split; assumption].
  simpl.
  match goal with
  | |- context [if ?c then _ else _] => destruct c eqn:Hcond
  end.
  - destruct (_safe_repr _ _ _ _ _ _) as [return_value_repr|e]; simpl.
    + apply andb_prop in Hcond as [_ Htop]. apply is_top_In in Htop.
      split; simpl.
      * apply returns_follow_calls_snoc_return; [exact Hret|].
        apply Hlogged. exact Htop.
      * intros c Hc. unfold logged_ids_have_calls in *. simpl in *.
        apply In_pop_if_top in Hc.
        destruct (Hlogged c Hc) as (j & e & Hj & He).
        exists j, e. split; [|exact He].
        rewrite lookup_app_l by (eapply lookup_lt_Some; exact Hj). exact Hj.
    + split; simpl; assumption.
  - split; simpl; [exact Hret|].
    intros c Hc. unfold logged_ids_have_calls in *. simpl in *.
    apply In_pop_if_top in Hc. apply Hlogged. exact Hc.
Qed.

(** An invariant of the call-log part of the state holds when the
    execution stops. *)
Lemma exec_prog_calls_inv (I : debugger -> Prop) env :
  (forall d d', same_calls d d' -> I d -> I d') ->
  (forall d h f, I d -> I (user_call env d h f)) ->
  (forall d h f v, I d -> I (user_return env d h f v)) ->
  forall p d, I d -> I (exec_prog env d p).1.1.
Proof.
  intros Hsame Hcall Hret. apply exec_prog_inv; auto.
  - intros d h f. apply Hsame, user_line_calls.
  - intros d prompt. apply Hsame, input_mock_calls.
  - intros d text. apply Hsame. repeat split.
Qed.

Lemma call_log_inv_same d d' : same_calls d d' -> call_log_inv d -> call_log_inv d'.
Proof.
  intros (_ & Hlog & _ & Hlogged) [H1 H2].
  unfold call_log_inv, logged_ids_have_calls. rewrite Hlog, Hlogged. auto.
Qed.

(** The call-log part of the state after the whole run is the one the
    engine left. *)
Lemma finish_calls env d4 w1 result namespace error_info flag :
  same_calls d4 (finish env d4 w1 result namespace error_info flag).1.1.
Proof.
  unfold finish, restore, same_calls.
  destruct (original_builtins_input d4); simpl;
    destruct flag; destruct (display_vars _ _ _ _ _); simpl; auto.
Qed.

Lemma handle_calls env d result : same_calls d (handle env d result).1.1.
Proof.
  unfold handle, same_calls. destruct result as [|prompt|[e|e|]]; simpl; auto.
Qed.

(** What holds of the call-log part when the engine stops, starting from
    the empty log of [prepare_run], holds after [run_debugger]. *)
Lemma run_debugger_calls_inv (I : debugger -> Prop) env :
  (forall d d', same_calls d d' -> I d -> I d') ->
  (forall d h f, I d -> I (user_call env d h f)) ->
  (forall d h f v, I d -> I (user_return env d h f v)) ->
  (forall d0 w0 code_str inj prev, I (prepare_run d0 w0 code_str inj prev).1) ->
  forall python d0 w0 code_str inj prev,
    I (run_debugger env python d0 w0 code_str inj prev).1.1.
Proof.
  intros Hsame Hcall Hret Hinit python d0 w0 code_str inj prev.
  unfold run_debugger.
  specialize (Hinit d0 w0 code_str inj prev).
  destruct (prepare_run d0 w0 code_str inj prev) as [d2 w1]; simpl in Hinit.
  assert (I (execute env python d2 code_str).1.1) as Hexec.
  { unfold execute, runcall. destruct (python code_str) as [e|p]; simpl; [exact Hinit|].
    from_reset p.
    pose proof (exec_prog_calls_inv I env Hsame Hcall Hret p (set_step d2)) as Hp.
    destruct (exec_prog env (set_step d2) p) as [[d' o] m]; simpl in *.
    eapply Hsame; [|apply Hp; eapply Hsame; [|exact Hinit]]; repeat split. }
  destruct (execute env python d2 code_str) as [[d3 result] namespace]; simpl in Hexec.
  pose proof (handle_calls env d3 result) as Hh.
  destruct (handle env d3 result) as [[d4 error_info] flag]; simpl in Hh.
  eapply Hsame; [apply finish_calls|]. eapply Hsame; [exact Hh|exact Hexec].
Qed.

(** C3.  In the call event log of a run, every return record has the
    call id of a call record that stands earlier in the log: no return
    record precedes its call record, and none refers to a call id that
    was not logged. *)
Theorem return_records_follow_their_call_records
    env python d0 w0 code_str input_to_inject previous_inputs_list :
  returns_follow_calls
    (call_event_log (run_debugger env python d0 w0 code_str input_to_inject
                                  previous_inputs_list).1.1).
Proof.
  apply (run_debugger_calls_inv call_log_inv env).
  - apply call_log_inv_same.
  - apply user_call_call_log_inv.
  - apply user_return_call_log_inv.
  - intros. split; simpl.
    + intros i c r t Hi. destruct i; discriminate.
    + intros c [].
Qed.

(** ** Module frames under the return hook *)

(** [e] is a call record with the function name of a module frame and no
    parent, the one the test of lines 633 to 638 looks for. *)
Definition is_parentless_module_call (e : call_event) : bool :=
  match e with
  | CallEvent _ None fn _ _ _ => String.eqb fn "<module>"
  | _ => false
  end.

Definition event_call_id (e : call_event) : nat :=
  match e with
  | CallEvent c _ _ _ _ _ => c
  | ReturnEvent c _ _ => c
  end.

(** No return record of such a call is in the log. *)
Definition parentless_module_return_hidden (log : list call_event) : Prop :=
  forall c r t e,
    In (ReturnEvent c r t) log -> In e log -> is_call_of c e = true ->
    is_parentless_module_call e = false.

Definition ids_bounded (d : debugger) : Prop :=
  (forall e, In e (call_event_log d) -> event_call_id e <= call_id_counter d)
  /\ (forall c, In c (active_call_ids_stack d) -> c <= call_id_counter d).

(** Two call records of one call id are one record. *)
Definition calls_unique (log : list call_event) : Prop :=
  forall c e e', In e log -> In e' log ->
                 is_call_of c e = true -> is_call_of c e' = true -> e = e'.

Definition parentless_module_inv (d : debugger) : Prop :=
  ids_bounded d /\ calls_unique (call_event_log d)
  /\ parentless_module_return_hidden (call_event_log d).

Lemma is_call_of_id c e : is_call_of c e = true -> event_call_id e = c.
Proof. destruct e; simpl; [|discriminate]. apply Nat.eqb_eq. Qed.

Lemma user_call_parentless_module_inv env d h f :
  parentless_module_inv d -> parentless_module_inv (user_call env d h f).
Proof.
  intros ([Hlog Hact] & Huniq & Hhid). unfold user_call.
  assert (ids_bounded
            (with_calls d (S (call_id_counter d)) (call_event_log d)
               (active_call_ids_stack d ++ [S (call_id_counter d)])
               (logged_call_ids_stack d))) as Hb.
  { split; simpl.
    - intros e He. specialize (Hlog e He). lia.
    - intros c Hc. apply in_app_or in Hc as [Hc|[<-|[]]]; [|lia].
      specialize (Hact c Hc). lia. }
  destruct (negb (is_debugger_internal env f) && negb (is_bdb_internal f));
    [|split; [exact Hb|split; simpl; assumption]].
  destruct (if negb (String.eqb (function_name_of f) "<module>")
            then _get_frame_args_and_values (recursion_depth env) h f ∅
            else Ok "N/A (module scope)") as [args_repr|e];
    [|split; [exact Hb|split; simpl; assumption]].
  destruct Hb as [Hb1 Hb2]. simpl in Hb1, Hb2.
  split; [|split]; simpl.
  - split; simpl; [|exact Hb2].
    intros e He. apply in_app_or in He as [He|[<-|[]]]; [apply Hb1, He|simpl; lia].
  - intros c e e' He He' Hc Hc'.
    apply in_app_or in He as [He|[<-|[]]];
      apply in_app_or in He' as [He'|[<-|[]]].
    + eapply Huniq; eassumption.
    + apply is_call_of_id in Hc. apply is_call_of_id in Hc'. simpl in Hc'.
      specialize (Hlog e He). lia.
    + apply is_call_of_id in Hc'. apply is_call_of_id in Hc. simpl in Hc.
      specialize (Hlog e' He'). lia.
    + reflexivity.
  - intros c r t e Hr He Hc.
    apply in_app_or in Hr as [Hr|[Hr|[]]]; [|discriminate].
    apply in_app_or in He as [He|[<-|[]]].
    + eapply Hhid; eassumption.
    + apply is_call_of_id in Hc. simpl in Hc.
      specialize (Hlog _ Hr). simpl in Hlog. lia.
Qed.

Lemma corresponding_call_event_spec log c :
  match corresponding_call_event log c with
  | Some e => In e log /\ is_call_of c e = true
  | None => forall e, In e log -> is_call_of c e = false
  end.
Proof.
  unfold corresponding_call_event.
  destruct (find _ (List.rev log)) as [e|] eqn:Hfind.
  - apply find_some in Hfind as [Hin Hc]. split.
    + apply in_rev. exact Hin.
    + exact Hc.
  - intros e He. apply (find_none _ _ Hfind). apply -> in_rev. exact He.
Qed.

Lemma user_return_parentless_module_inv env d h f v :
  parentless_module_inv d -> parentless_module_inv (user_return env d h f v).
Proof.
  intros ([Hlog Hact] & Huniq & Hhid). unfold user_return.
  destruct (top (active_call_ids_stack d)) as [returned_call_id|] eqn:Htop;
    [|repeat split; assumption].
  simpl.
  assert (forall c, In c (removelast (active_call_ids_stack d)) ->
                    c <= call_id_counter d) as Hact'.
  { intros c Hc. apply Hact, In_removelast, Hc. }
  match goal with
  | |- context [if ?c then _ else _] => destruct c eqn:Hcond
  end; [|repeat split; simpl; assumption].
  destruct (_safe_repr _ _ _ _ _ _) as [return_value_repr|e]; simpl;
    [|repeat split; simpl; assumption].
  apply andb_prop in Hcond as [Hcond _]. apply andb_prop in Hcond as [_ Hmod].
  apply negb_true_iff in Hmod.
  split; [|split]; simpl.
  - split; simpl; [|exact Hact'].
    intros e He. apply in_app_or in He as [He|[<-|[]]]; [apply Hlog, He|].
    simpl. apply Hact, top_In, Htop.
  - intros c e e' He He' Hc Hc'.
    apply in_app_or in He as [He|[<-|[]]]; [|discriminate].
    apply in_app_or in He' as [He'|[<-|[]]]; [|discriminate].
    eapply Huniq; eassumption.
  - intros c r t e Hr He Hc.
    apply in_app_or in He as [He|[<-|[]]]; [|discriminate].
    apply in_app_or in Hr as [Hr|[Hr|[]]]; [eapply Hhid; eassumption|].
    injection Hr as <- <- <-.
    pose proof (corresponding_call_event_spec (call_event_log d) returned_call_id)
      as Hspec.
    destruct (corresponding_call_event (call_event_log d) returned_call_id)
      as [e0|].
    + destruct Hspec as [Hin0 Hc0].
      rewrite (Huniq _ _ _ He Hin0 Hc Hc0).
      destruct e0 as [c0 [p|] fn a l t0|]; simpl in *; auto.
    + rewrite (Hspec e He) in Hc. discriminate.
Qed.

Lemma parentless_module_inv_same d d' :
  same_calls d d' -> parentless_module_inv d -> parentless_module_inv d'.
Proof.
  intros (Hc & Hlog & Hact & _). unfold parentless_module_inv, ids_bounded.
  rewrite Hc, Hlog, Hact. auto.
Qed.

(** The guard of lines 633 to 639: in the call event log of a run, no
    return record belongs to a call record with the module-frame function
    name and no parent.  Such a call record is that of a module frame
    run by a nested [exec] at the top level of the submission. *)
Lemma parentless_module_call_gets_no_return_record
    env python d0 w0 code_str input_to_inject previous_inputs_list :
  parentless_module_return_hidden
    (call_event_log (run_debugger env python d0 w0 code_str input_to_inject
                                  previous_inputs_list).1.1).
Proof.
  apply (run_debugger_calls_inv parentless_module_inv env).
  - apply parentless_module_inv_same.
  - apply user_call_parentless_module_inv.
  - apply user_return_parentless_module_inv.
  - intros. unfold parentless_module_inv, ids_bounded, calls_unique,
      parentless_module_return_hidden.
    repeat split; intros; simpl in *; contradiction.
Qed.

(** The call hook has no such guard (line 610 gives the argument text of
    a module frame). *)
Lemma call_hook_logs_a_module_frame env d h f :
  function_name_of f = "<module>" ->
  is_debugger_internal env f = false ->
  is_bdb_internal f = false ->
  logged_call_ids_stack d = [] ->
  call_event_log (user_call env d h f)
  = call_event_log d ++
    [CallEvent (S (call_id_counter d)) None "<module>"
               "N/A (module scope)" (f_lineno f) (current_step d)].
Proof.
  intros Hname Hint Hbdb Hlogged. unfold user_call.
  rewrite Hname, Hint, Hbdb, Hlogged. reflexivity.
Qed.

(** ** The frame of the whole submission *)

(** The events of a run without the return events of the frame of the
    whole submission, which is the frame that is left when no call is
    open: [depth] is the number of call events whose return event is still
    to come. *)
Fixpoint without_entry_return (depth : nat) (p : prog) : prog :=
  match p with
  | PDone _ | PRaise _ _ | PWaiting _ _ => p
  | PLine m f k => PLine m f (without_entry_return depth k)
  | PCall m f k => PCall m f (without_entry_return (S depth) k)
  | PReturn m f v k =>
      match depth with
      | O => without_entry_return O k
      | S depth' => PReturn m f v (without_entry_return depth' k)
      end
  | PInput m prompt k => PInput m prompt (fun r => without_entry_return depth (k r))
  | PPrint text k => PPrint text (without_entry_return depth k)
  end.

(** A submission that calls nothing: no call event but that of its own
    frame. *)
Fixpoint calls_nothing (p : prog) : Prop :=
  match p with
  | PDone _ | PRaise _ _ | PWaiting _ _ => True
  | PLine _ _ k | PReturn _ _ _ k | PPrint _ k => calls_nothing k
  | PCall _ _ _ => False
  | PInput _ _ k => forall r, calls_nothing (k r)
  end.

Lemma user_call_active env d h f :
  active_call_ids_stack (user_call env d h f)
  = active_call_ids_stack d ++ [S (call_id_counter d)].
Proof. unfold user_call. hook_cases. Qed.

Lemma user_return_active env d h f v :
  active_call_ids_stack (user_return env d h f v)
  = removelast (active_call_ids_stack d).
Proof.
  unfold user_return, top.
  destruct (last (active_call_ids_stack d)) as [c|] eqn:Hlast.
  - hook_cases.
  - apply last_None in Hlast. rewrite Hlast. reflexivity.
Qed.

Lemma length_removelast (l : list nat) n :
  length l = S n -> length (removelast l) = n.
Proof.
  intros Hl. destruct (exists_last (l := l)) as (l' & x & ->).
  - intros ->. discriminate.
  - rewrite removelast_last. rewrite length_app in Hl. simpl in Hl. lia.
Qed.

(** With as many active call ids as calls are open, the return event of
    the frame of the whole submission finds the active stack empty and
    is the early return of line 622: the hooks compute the same state
    with and without it. *)
Lemma exec_prog_without_entry_return env p :
  forall depth d,
    length (active_call_ids_stack d) = depth ->
    exec_prog env d p = exec_prog env d (without_entry_return depth p).
Proof.
  induction p as [m|m e|m f k IH|m f k IH|m f v k IH|m prompt k IH|text k IH
                 |m prompt];
    intros depth d Hdepth; cbn [exec_prog without_entry_return];
    try reflexivity.
  - destruct (quitting (user_line env d (mem_heap m) f)); [reflexivity|].
    apply IH. destruct (user_line_calls env d (mem_heap m) f) as (_ & _ & -> & _).
    exact Hdepth.
  - apply IH. rewrite user_call_active, length_app. simpl. lia.
  - destruct depth as [|depth'].
    + apply length_zero_iff_nil in Hdepth.
      replace (user_return env d (mem_heap m) f v) with d.
      * apply IH. rewrite Hdepth. reflexivity.
      * unfold user_return. rewrite Hdepth. reflexivity.
    + cbn [exec_prog]. apply IH. rewrite user_return_active.
      apply length_removelast, Hdepth.
  - pose proof (input_mock_calls d prompt) as (_ & _ & Hact & _).
    destruct (_one_time_input_mock d prompt) as [d' r]. simpl in Hact.
    apply IH. rewrite Hact. exact Hdepth.
  - apply IH. exact Hdepth.
Qed.

(** No call event and no return event: the log is as it was. *)
Lemma exec_prog_calls_nothing env p :
  calls_nothing p ->
  forall d, call_event_log (exec_prog env d (without_entry_return 0 p)).1.1
            = call_event_log d.
Proof.
  induction p as [m|m e|m f k IH|m f k IH|m f v k IH|m prompt k IH|text k IH
                 |m prompt];
    cbn [calls_nothing without_entry_return]; intros Hp d;
    try reflexivity; try contradiction.
  - cbn [exec_prog].
    destruct (user_line_calls env d (mem_heap m) f) as (_ & Hlog & _).
    destruct (quitting (user_line env d (mem_heap m) f)); [exact Hlog|].
    rewrite (IH Hp). exact Hlog.
  - apply IH, Hp.
  - cbn [exec_prog].
    pose proof (input_mock_calls d prompt) as (_ & Hlog & _).
    destruct (_one_time_input_mock d prompt) as [d' r]. simpl in Hlog.
    rewrite (IH r (Hp r)). exact Hlog.
  - cbn [exec_prog]. rewrite (IH Hp). reflexivity.
Qed.

(** The log [run_debugger] leaves is the one [execute] leaves. *)
Lemma run_debugger_log env python d0 w0 code_str inj prev :
  call_event_log (run_debugger env python d0 w0 code_str inj prev).1.1
  = call_event_log
      (execute env python (prepare_run d0 w0 code_str inj prev).1 code_str).1.1.
Proof.
  unfold run_debugger.
  destruct (prepare_run d0 w0 code_str inj prev) as [d2 w1]. cbn [fst].
  destruct (execute env python d2 code_str) as [[d3 result] namespace].
  pose proof (handle_calls env d3 result) as (_ & Hh & _).
  destruct (handle env d3 result) as [[d4 error_info] flag]. cbn [fst snd] in *.
  destruct (finish_calls env d4 w1 result namespace error_info flag)
    as (_ & Hf & _).
  rewrite Hf, Hh. reflexivity.
Qed.

(** C4.  The first event of a run is the call event of the frame of the
    whole submission, the module frame [exec] runs, whose caller is the
    engine.  For every such run, the call event log is the log the two
    call hooks write for the events of the calls made inside the
    submission: the call event of the entry reaches no hook (the engine
    takes the first call event after its reset to set [botframe]), and its
    return event finds no active call id (line 622).  So no call record
    and no return record of the entry is in the log; in particular the
    log of a submission that calls nothing is empty. *)
Theorem whole_program_entry_has_no_record_in_the_call_log
    env python d0 w0 code_str input_to_inject previous_inputs_list
    m entry engine_frame k :
  python code_str = Compiled (PCall m entry k) ->
  f_back entry = Some engine_frame ->
  let d2 := (prepare_run d0 w0 code_str input_to_inject
                         previous_inputs_list).1 in
  let final := (run_debugger env python d0 w0 code_str input_to_inject
                             previous_inputs_list).1.1 in
  call_event_log final
  = call_event_log (exec_prog env (set_step d2) (without_entry_return 0 k)).1.1
  /\ (calls_nothing k -> call_event_log final = []).
Proof.
  intros Hpython Hback d2 final.
  assert (call_event_log final
          = call_event_log
              (exec_prog env (set_step d2) (without_entry_return 0 k)).1.1) as Hlog.
  { unfold final. rewrite run_debugger_log. fold d2.
    unfold execute. rewrite Hpython. unfold runcall.
    cbn [exec_from_reset]. rewrite Hback.
    rewrite (exec_prog_without_entry_return env k 0 (set_step d2) eq_refl).
    destruct (exec_prog env (set_step d2) (without_entry_return 0 k))
      as [[d' o] m']. reflexivity. }
  split; [exact Hlog|].
  intros Hk. rewrite Hlog. rewrite (exec_prog_calls_nothing env k Hk).
  reflexivity.
Qed.

(** ** Step indices *)

(** The step indices of a trace are 0, 1, 2, ... in this order. *)
Definition contiguous_from_zero (trace : list step_entry) : Prop :=
  map step trace = seq 0 (length trace).

Definition steps_inv (d : debugger) : Prop :=
  contiguous_from_zero (execution_trace d)
  /\ current_step d = length (execution_trace d).

Lemma contiguous_snoc trace s :
  contiguous_from_zero trace -> step s = length trace ->
  contiguous_from_zero (trace ++ [s]).
Proof.
  unfold contiguous_from_zero. intros Ht Hs.
  rewrite map_app, length_app, seq_app, Ht. simpl. rewrite Hs. reflexivity.
Qed.

Lemma contiguous_set_last trace g :
  (forall s, step (g s) = step s) ->
  contiguous_from_zero trace -> contiguous_from_zero (set_last trace g).
Proof.
  unfold contiguous_from_zero, set_last. intros Hg Ht.
  destruct (last trace) as [s|] eqn:Hlast; [|exact Ht].
  apply last_Some in Hlast as [l' ->].
  rewrite removelast_last. rewrite !map_app, !length_app in *. simpl in *.
  rewrite Hg. exact Ht.
Qed.

Lemma last_error_differs_nonempty trace err :
  last_error_differs trace err = false -> trace <> [].
Proof. intros H ->. discriminate H. Qed.

(** The line hook appends the step whose index is the counter, or, when
    it asks to quit, leaves a trace that is not empty. *)
Lemma user_line_steps_inv env d h f :
  steps_inv d ->
  contiguous_from_zero (execution_trace (user_line env d h f))
  /\ (quitting (user_line env d h f) = false -> steps_inv (user_line env d h f))
  /\ (quitting (user_line env d h f) = true ->
      execution_trace (user_line env d h f) <> []).
Proof.
  intros [Hc Hn]. unfold user_line.
  destruct (String.eqb (getfile f) (debugger_script_abs env)
            && str_in (co_name (f_code f)) debugger_internal_methods);
    [simpl; repeat split; auto; discriminate|].
  destruct (contains (basename (getfile f)) "bdb.py");
    [simpl; repeat split; auto; discriminate|].
  destruct (negb (String.eqb (getfile f) "<string>"));
    [simpl; repeat split; auto; discriminate|].
  destruct (capture_step env d h f) as [entry|e] eqn:Hcap.
  - assert (step entry = current_step d) as Hstep.
    { unfold capture_step in Hcap.
      destruct (display_vars _ _ _ _ (f_locals f)); simpl in Hcap; [|discriminate].
      destruct (display_vars _ _ _ _ (f_globals f)); simpl in Hcap; [|discriminate].
      injection Hcap as <-. reflexivity. }
    simpl. split; [|split].
    + apply contiguous_snoc; [exact Hc|]. rewrite Hstep. exact Hn.
    + intros _. split; simpl.
      * apply contiguous_snoc; [exact Hc|]. rewrite Hstep. exact Hn.
      * rewrite length_app. simpl. lia.
    + discriminate.
  - simpl.
    destruct (last_error_differs (execution_trace d) _) eqn:Hdiff.
    + split; [|split].
      * apply contiguous_snoc; [exact Hc|]. simpl. exact Hn.
      * discriminate.
      * intros _ Hnil. apply app_eq_nil in Hnil as [_ Hnil]. discriminate.
    + split; [exact Hc|]. split; [discriminate|].
      intros _. eapply last_error_differs_nonempty. exact Hdiff.
Qed.

Lemma steps_inv_same d d' : same_steps d d' -> steps_inv d -> steps_inv d'.
Proof.
  intros (Ht & Hn & _) [H1 H2]. unfold steps_inv. rewrite Ht, Hn. auto.
Qed.

(** When the engine stops: the trace is contiguous; unless the submission
    was abandoned or completed, the counter is the length of the trace;
    and a trace that is empty has the counter at 0. *)
Definition steps_post (d : debugger) (o : outcome) : Prop :=
  contiguous_from_zero (execution_trace d)
  /\ (o <> Completed -> current_step d = length (execution_trace d))
  /\ (execution_trace d = [] -> current_step d = 0).

Lemma exec_prog_steps env p :
  forall d, steps_inv d ->
            steps_post (exec_prog env d p).1.1 (exec_prog env d p).1.2.
Proof.
  induction p as [m|m e|m f k IH|m f k IH|m f v k IH|m prompt k IH|text k IH
                 |m prompt];
    intros d Hd; simpl.
  - destruct Hd as [Hc Hn]. repeat split; auto. intros Hnil.
    rewrite Hn, Hnil. reflexivity.
  - destruct Hd as [Hc Hn]. repeat split; auto. intros Hnil.
    rewrite Hn, Hnil. reflexivity.
  - destruct (user_line_steps_inv env d (mem_heap m) f Hd) as (Hc & Hgo & Hquit).
    destruct (quitting (user_line env d (mem_heap m) f)); simpl.
    + split; [exact Hc|]. split; [congruence|].
      intros Hnil. exfalso. apply Hquit; auto.
    + apply IH, Hgo. reflexivity.
  - apply IH. eapply steps_inv_same; [apply user_call_steps|exact Hd].
  - apply IH. eapply steps_inv_same; [apply user_return_steps|exact Hd].
  - pose proof (input_mock_steps d prompt) as Hsame.
    destruct (_one_time_input_mock d prompt) as [d' r]; simpl in *.
    apply IH. eapply steps_inv_same; eassumption.
  - apply IH. eapply steps_inv_same; [|exact Hd]. repeat split.
  - destruct Hd as [Hc Hn]. repeat split; auto. intros Hnil.
    rewrite Hn, Hnil. reflexivity.
Qed.

Lemma execute_steps env python d code_str :
  steps_inv d ->
  steps_post (execute env python d code_str).1.1 (execute env python d code_str).1.2.
Proof.
  intros Hd. unfold execute, runcall. destruct (python code_str) as [e|p]; simpl.
  - destruct Hd as [Hc Hn]. repeat split; auto. intros Hnil.
    rewrite Hn, Hnil. reflexivity.
  - from_reset p.
    assert (steps_inv (set_step d)) as Hd' by (destruct Hd; split; assumption).
    pose proof (exec_prog_steps env p (set_step d) Hd') as Hp.
    destruct (exec_prog env (set_step d) p) as [[d' o] m]; simpl in *.
    exact Hp.
Qed.

(** The trace [finish] leaves. *)
Lemma finish_trace env d4 w1 result namespace error_info flag :
  let final := (finish env d4 w1 result namespace error_info flag).1.1 in
  execution_trace final = execution_trace d4
  \/ exists vars nodes,
      execution_trace final
      = finalize_trace
          (if flag then (restore d4 w1).1 else with_finished (restore d4 w1).1 true)
          error_info flag vars nodes.
Proof.
  unfold finish. destruct (restore d4 w1) as [d5 w2] eqn:Hres. simpl.
  assert (execution_trace d5 = execution_trace d4) as Ht.
  { unfold restore in Hres. destruct (original_builtins_input d4);
      injection Hres as <- _; reflexivity. }
  destruct (display_vars _ _ _ _ _) as [vars|e]; simpl.
  - right. eexists _, _. reflexivity.
  - left. destruct flag; simpl; exact Ht.
Qed.

(** X17.  Outside one case, the step indices of the trace of a run are
    contiguous from 0: the case is a [SyntaxError] that reaches the handler
    after a step was recorded. *)
Lemma step_indices_contiguous_unless_late_syntax_error
    env python d0 w0 code_str input_to_inject previous_inputs_list :
  let d2 := (prepare_run d0 w0 code_str input_to_inject previous_inputs_list).1 in
  (forall e, (execute env python d2 code_str).1.2 = Failed (SyntaxErrorRaised e) ->
             execution_trace (execute env python d2 code_str).1.1 = []) ->
  contiguous_from_zero
    (execution_trace (run_debugger env python d0 w0 code_str input_to_inject
                                   previous_inputs_list).1.1).
Proof.
  unfold run_debugger.
  destruct (prepare_run d0 w0 code_str input_to_inject previous_inputs_list)
    as [d2 w1] eqn:Hprep. simpl.
  assert (steps_inv d2) as Hd2.
  { unfold prepare_run in Hprep. injection Hprep as <- _. split; reflexivity. }
  pose proof (execute_steps env python d2 code_str Hd2) as (Hc & Hn & Hz).
  destruct (execute env python d2 code_str) as [[d3 result] namespace].
  simpl in *. intros Hsyntax.
  assert (contiguous_from_zero (execution_trace (handle env d3 result).1.1)) as Hc4.
  { unfold handle. destruct result as [|prompt|[e|e|]]; simpl; auto.
    apply contiguous_set_last; auto. }
  destruct (handle env d3 result) as [[d4 error_info] flag] eqn:Hh.
  simpl in Hc4.
  destruct (finish_trace env d4 w1 result namespace error_info flag)
    as [Hsame|(vars & nodes & Hfin)]; simpl in *.
  { rewrite Hsame. exact Hc4. }
  rewrite Hfin. clear Hfin.
  assert (forall b : bool, execution_trace (if b then (restore d4 w1).1
                                     else with_finished (restore d4 w1).1 true)
                    = execution_trace d4) as Ht.
  { intros b. unfold restore.
    destruct (original_builtins_input d4), b; reflexivity. }
  assert (forall b : bool, current_step (if b then (restore d4 w1).1
                                  else with_finished (restore d4 w1).1 true)
                    = current_step d4) as Hs.
  { intros b. unfold restore.
    destruct (original_builtins_input d4), b; reflexivity. }
  unfold finalize_trace. rewrite !Ht, !Hs.
  unfold handle in Hh.
  destruct result as [|prompt|[e|e|]]; injection Hh as <- <- <-; simpl in *.
  - destruct (execution_trace d3) as [|s0 t0] eqn:Htrace.
    + unfold contiguous_from_zero. simpl. rewrite Hz; reflexivity.
    + apply contiguous_set_last; [reflexivity|exact Hc].
  - exact Hc4.
  - specialize (Hsyntax e eq_refl). rewrite Hsyntax. reflexivity.
  - destruct (last_error_differs (execution_trace d3) _).
    + apply contiguous_snoc; [exact Hc|]. simpl. apply Hn. discriminate.
    + apply contiguous_set_last; [reflexivity|exact Hc].
  - destruct (execution_trace d3) as [|s0 t0] eqn:Htrace.
    + unfold contiguous_from_zero. simpl. rewrite Hz; reflexivity.
    + apply contiguous_set_last; [reflexivity|exact Hc].
Qed.

(** C7 at the failing input.  A submission whose second line raises
    [SyntaxError] while it runs gets a trace with the step indices 0, 1, 0:
    the handler of [SyntaxError] numbers its entry 0 instead of taking the
    counter, so the indices are neither increasing nor contiguous. *)
Theorem late_syntax_error_repeats_step_index_zero :
  map step (execution_trace (run_example eval_submission None None).1.1)
  = [0; 1; 0]
  /\ ~ contiguous_from_zero
         (execution_trace (run_example eval_submission None None).1.1).
Proof.
  split.
  - vm_compute. reflexivity.
  - unfold contiguous_from_zero. vm_compute. discriminate.
Qed.

(** ** The statements above at concrete inputs *)


Lemma user_return_on_empty_stack_is_noop_witness :
  user_return example_host (new_debugger host_world) small_heap
              (module_frame 1) 0%Z
  = new_debugger host_world.
Proof.
  apply (user_return_on_empty_stack_is_noop example_host
           (new_debugger host_world) small_heap (module_frame 1) 0%Z).
  reflexivity.
Defined.




(** The same read with a prompt that is not text raises [TypeError]
    instead of the signal, after the staged value was cleared: the value
    is lost to the second read, which raises the signal, and the input
    history stays empty. *)
Lemma non_text_prompt_loses_the_staged_value :
  (_one_time_input_mock staged_debugger NotStr).2 = InputTypeError
  /\ provided_input_value_for_next_call
       (_one_time_input_mock staged_debugger NotStr).1 = None
  /\ all_provided_inputs (_one_time_input_mock staged_debugger NotStr).1
     = all_provided_inputs staged_debugger
  /\ finished (run_example number_prompt_submission (Some (Str "cy")) None).1.1
     = false
  /\ all_provided_inputs
       (run_example number_prompt_submission (Some (Str "cy")) None).1.1 = [].
Proof. vm_compute. repeat split; reflexivity. Qed.

Lemma whole_program_entry_has_no_record_in_the_call_log_witness :
  call_event_log
    (run_debugger example_host (fun _ => Compiled function_call_submission)
                  (new_debugger host_world) host_world "x = [1, 2]"
                  None None).1.1
  = call_event_log
      (exec_prog example_host
         (set_step (prepare_run (new_debugger host_world) host_world
                                "x = [1, 2]" None None).1)
         (without_entry_return 0
            (PLine small_memory (module_frame 3)
               (PCall small_memory (f_frame 1)
                  (PLine small_memory (f_frame 2)
                     (PReturn small_memory (f_frame 2) 5%Z
                        (PReturn small_memory (module_frame 3) 0%Z
                           (PDone small_memory)))))))).1.1
  /\ call_event_log
       (run_debugger example_host (fun _ => Compiled function_call_submission)
                     (new_debugger host_world) host_world "x = [1, 2]"
                     None None).1.1
     = [CallEvent 1 None "f" "a=[1, 2]" 1%Z 1; ReturnEvent 1 "5" 2].
Proof.
  split.
  - apply (proj1 (whole_program_entry_has_no_record_in_the_call_log
                    example_host (fun _ => Compiled function_call_submission)
                    (new_debugger host_world) host_world "x = [1, 2]" None None
                    small_memory (module_frame 1) runcall_frame _
                    eq_refl eq_refl)).
  - vm_compute. reflexivity.
Defined.

(** A submission of one line calls nothing: its log is empty, though its
    own frame is called and returns. *)
Lemma one_line_submission_has_an_empty_call_log :
  call_event_log (run_example module_call_submission None None).1.1 = [].
Proof. vm_compute. reflexivity. Qed.

(** A module frame run by a nested [exec] is not the entry: its call
    record is in the log, without a return record (lines 633 to 639). *)
Lemma nested_module_frame_is_logged_without_return :
  call_event_log (run_example nested_exec_submission None None).1.1
  = [CallEvent 1 None "<module>" "N/A (module scope)" 1%Z 1].
Proof. vm_compute. reflexivity. Qed.

End SessionFacts.

(* ===================================================================== *)
(** * Properties of the traceback sanitizer                               *)
(* ===================================================================== *)

Module SanitizerFacts.
Import PyStr Sanitizer Examples.

(** The labels a file reference is rewritten to. *)
Inductive origin :=
| UserSubmission
| DebuggerInternals
| PythonSystemLibrary
| PythonDebuggerLibrary
| FlaskInternals
| ExternalCode
| ExternalCodePathError.

Definition label_text (o : origin) (filename : string) : string :=
  match o with
  | UserSubmission => "Your Code"
  | DebuggerInternals => "<Debugger Internals (" ^^ filename ^^ ")>"
  | PythonSystemLibrary => "<Python System Library (" ^^ filename ^^ ")>"
  | PythonDebuggerLibrary => "<Python Debugger Library (" ^^ filename ^^ ")>"
  | FlaskInternals => "<Flask Internals (" ^^ filename ^^ ")>"
  | ExternalCode => "<External Code (" ^^ filename ^^ ")>"
  | ExternalCodePathError => "<External Code (" ^^ filename ^^ ")> (Path Error)"
  end.

(** A line the sanitizer takes for a frame-location line, by its own two
    tests (lines 44 and 48): after stripping it starts with the word File
    and a double quote, and it holds the pattern of line 48. *)
Definition is_recognised_file_line (line : string) : Prop :=
  startswith (strip line) file_open = true
  /\ exists filepath rest_of_line, search_file line = Some (filepath, rest_of_line).

Lemma has_char_cat c a b : has_char c (a ^^ b) = has_char c a || has_char c b.
Proof.
  unfold cat. induction a as [|x a IH]; simpl; [reflexivity|].
  rewrite IH. apply orb_assoc.
Qed.

Lemma has_char_rev_onto c s acc :
  has_char c (rev_onto s acc) = has_char c s || has_char c acc.
Proof.
  revert acc. induction s as [|x s IH]; intros acc; simpl; [reflexivity|].
  rewrite IH. simpl. destruct (Ascii.eqb x c), (has_char c s); reflexivity.
Qed.

Lemma basename_from_no_slash cur p :
  has_char slash cur = false -> has_char slash (basename_from cur p) = false.
Proof.
  revert cur. induction p as [|x p IH]; intros cur Hcur; simpl.
  - unfold rev. rewrite has_char_rev_onto, Hcur. reflexivity.
  - destruct (Ascii.eqb x slash) eqn:Hx.
    + apply IH. reflexivity.
    + apply IH. simpl. rewrite Hx. exact Hcur.
Qed.

(** No path separator is left in what [os.path.basename] returns. *)
Lemma basename_no_slash p : has_char slash (basename p) = false.
Proof. apply basename_from_no_slash. reflexivity. Qed.

Lemma label_no_slash o filename :
  has_char slash filename = false -> has_char slash (label_text o filename) = false.
Proof.
  intros H. destruct o; simpl; try reflexivity;
    rewrite ?has_char_cat, H; reflexivity.
Qed.

Lemma display_is_label env filepath_raw :
  exists o, (sanitized_filepath_display env filepath_raw).1
            = label_text o (basename filepath_raw).
Proof.
  unfold sanitized_filepath_display.
  destruct (String.eqb filepath_raw "<string>"); [exists UserSubmission; reflexivity|].
  destruct (abspath env filepath_raw) as [abs_filepath|];
    [|exists ExternalCodePathError; reflexivity].
  destruct (String.eqb abs_filepath (debugger_script_abs env));
    [exists DebuggerInternals; reflexivity|].
  destruct (startswith abs_filepath (python_std_lib_prefix env)
            || contains (basename filepath_raw) "bdb.py"
            || contains (replace_char backslash slash (lower abs_filepath)) "flask");
    [|exists ExternalCode; reflexivity].
  destruct (contains (basename filepath_raw) "bdb.py");
    [exists PythonDebuggerLibrary; reflexivity|].
  destruct (contains (replace_char backslash slash (lower abs_filepath)) "flask");
    [exists FlaskInternals; reflexivity|exists PythonSystemLibrary; reflexivity].
Qed.

(** Group 2 of the pattern is empty or starts with the line number part. *)
Lemma match_file_at_rest s filepath rest_of_line :
  match_file_at s = Some (filepath, rest_of_line) ->
  rest_of_line = EmptyString \/ startswith rest_of_line ", line " = true.
Proof.
  unfold match_file_at. destruct (startswith s file_open); [|discriminate].
  destruct (span not_dquote (drop 6 s)) as [path after].
  destruct (is_empty path); [discriminate|].
  destruct after as [|c after']; [discriminate|].
  intros H. injection H as _ <-.
  unfold match_rest_group.
  destruct (startswith after' ", line "); [|left; reflexivity].
  destruct (span is_digit (drop 7 after')) as [digits r1].
  destruct (is_empty digits); [left; reflexivity|].
  destruct (startswith r1 ", in "); [|left; reflexivity].
  destruct (span not_newline (drop 5 r1)) as [name r2].
  right. unfold cat. simpl. reflexivity.
Qed.

Lemma search_file_rest s filepath rest_of_line :
  search_file s = Some (filepath, rest_of_line) ->
  rest_of_line = EmptyString \/ startswith rest_of_line ", line " = true.
Proof.
  induction s as [|c s IH]; cbn [search_file].
  - destruct (match_file_at EmptyString) as [[p r]|] eqn:Hm; [|discriminate].
    intros H. injection H as <- <-. eapply match_file_at_rest. exact Hm.
  - destruct (match_file_at (String c s)) as [[p r]|] eqn:Hm.
    + intros H. injection H as <- <-. eapply match_file_at_rest. exact Hm.
    + exact IH.
Qed.

(** A frame-location line becomes the indentation, the word File, the
    label between double quotes, and group 2 of the pattern. *)
Lemma sanitize_line_frame env line :
  is_recognised_file_line line ->
  exists o filepath rest_of_line,
    search_file line = Some (filepath, rest_of_line)
    /\ (sanitize_line env line).1
       = "  File " ^^ chr dquote ^^ label_text o (basename filepath)
         ^^ chr dquote ^^ rest_of_line.
Proof.
  intros [Hfile (filepath & rest_of_line & Hsearch)].
  destruct (display_is_label env filepath) as [o Ho].
  exists o, filepath, rest_of_line. split; [exact Hsearch|].
  unfold sanitize_line. rewrite Hfile, Hsearch.
  destruct (sanitized_filepath_display env filepath) as [display marker].
  simpl in *. rewrite Ho. reflexivity.
Qed.

(** Any other line is kept as it is. *)
Lemma sanitize_line_other env line :
  ~ is_recognised_file_line line -> (sanitize_line env line).1 = line.
Proof.
  intros Hnot. unfold sanitize_line.
  destruct (startswith (strip line) file_open) eqn:Hfile; [|reflexivity].
  destruct (search_file line) as [[filepath rest_of_line]|] eqn:Hsearch;
    [|reflexivity].
  exfalso. apply Hnot. split; [exact Hfile|]. eauto.
Qed.

(** The loop keeps the lines from some point on, each one rewritten; it
    keeps them all when it does not filter or has already started. *)
Lemma sanitize_lines_keeps_suffix env originated lines :
  forall started,
  exists dropped kept,
    lines = dropped ++ kept
    /\ (sanitize_lines env originated started lines).1
       = map (fun l => (sanitize_line env l).1) kept
    /\ (originated = false \/ started = true -> dropped = []).
Proof.
  induction lines as [|line0 rest IH]; intros started.
  - exists [], []. repeat split.
  - simpl. destruct (sanitize_line env line0) as [line marker] eqn:Hline.
    destruct originated.
    + destruct (IH (if marker then true else started))
        as (dropped & kept & Hrest & Hout & Hnone).
      destruct (sanitize_lines env true (if marker then true else started) rest)
        as [out final]. simpl in *.
      destruct (if marker then true else started) eqn:Hstarted.
      * rewrite (Hnone (or_intror eq_refl)) in Hrest. simpl in Hrest. subst rest.
        exists [], (line0 :: kept). simpl. rewrite Hline, Hout. repeat split.
      * exists (line0 :: dropped), kept. simpl. rewrite Hrest.
        split; [reflexivity|]. split; [exact Hout|].
        intros [Hf|Ht]; [discriminate|].
        subst started. destruct marker; discriminate.
    + destruct (IH started) as (dropped & kept & Hrest & Hout & Hnone).
      destruct (sanitize_lines env false started rest) as [out final]. simpl in *.
      rewrite (Hnone (or_introl eq_refl)) in Hrest. simpl in Hrest. subst rest.
      exists [], (line0 :: kept). simpl. rewrite Hline, Hout. repeat split.
Qed.

(** For a traceback with at least one line, the sanitized text is the
    first line as it is, followed by the lines from some point on (all of
    them when no filtering on user code applies), each one rewritten by
    itself.  The rewriting of a line the sanitizer takes for a
    frame-location line replaces its file reference by one of the fixed
    labels (the user-submission marker, or a label for debugger
    internals, the system library, the debugger library, the web layer or
    external code, around the base name of the file), in which no path
    separator occurs; what follows the reference is empty or the
    line-number part of the original line.  Any other line is kept as it
    is, a frame-location line that the two tests miss among them. *)
Lemma recognised_file_lines_are_relabelled
    env traceback_str originated_in_user_code first rest :
  splitlines traceback_str = first :: rest ->
  (exists dropped kept,
      rest = dropped ++ kept
      /\ sanitize_traceback_paths env traceback_str originated_in_user_code
         = join LF (first :: map (fun l => (sanitize_line env l).1) kept)
      /\ (originated_in_user_code = false -> dropped = []))
  /\ (forall line,
        is_recognised_file_line line ->
        exists o filepath rest_of_line,
          search_file line = Some (filepath, rest_of_line)
          /\ (sanitize_line env line).1
             = "  File " ^^ chr dquote ^^ label_text o (basename filepath)
               ^^ chr dquote ^^ rest_of_line
          /\ has_char slash (label_text o (basename filepath)) = false
          /\ (rest_of_line = EmptyString
              \/ startswith rest_of_line ", line " = true))
  /\ (forall line,
        ~ is_recognised_file_line line -> (sanitize_line env line).1 = line).
Proof.
  intros Hlines. split; [|split].
  - unfold sanitize_traceback_paths, sanitize_body. rewrite Hlines.
    destruct (sanitize_lines_keeps_suffix env originated_in_user_code rest false)
      as (dropped & kept & Hrest & Hout & Hnone).
    destruct (sanitize_lines env originated_in_user_code false rest)
      as [sanitized_tail started] eqn:Hloop. simpl in Hout.
    destruct (originated_in_user_code && negb started
              && (1 <? length (first :: rest))) eqn:Hretry.
    + destruct (sanitize_lines_keeps_suffix env false rest false)
        as (dropped' & kept' & Hrest' & Hout' & Hnone').
      destruct (sanitize_lines env false false rest) as [tail' started'].
      simpl in *. rewrite (Hnone' (or_introl eq_refl)) in Hrest'.
      exists [], kept'. rewrite Hout'. repeat split. exact Hrest'.
    + exists dropped, kept. rewrite Hout. split; [exact Hrest|].
      split; [reflexivity|]. intros ->. apply Hnone. left. reflexivity.
  - intros line Hframe.
    destruct (sanitize_line_frame env line Hframe)
      as (o & filepath & rest_of_line & Hsearch & Hline).
    exists o, filepath, rest_of_line.
    split; [exact Hsearch|]. split; [exact Hline|]. split.
    + apply label_no_slash, basename_no_slash.
    + eapply search_file_rest. exact Hsearch.
  - intros line. apply sanitize_line_other.
Qed.

(** ** Frame-location lines of an exception group *)

(** The report of [raise ExceptionGroup('eg', [ValueError(1)])] at line 1
    of a submission, as [traceback.format_exception] gives it and
    [strip] leaves it (line 800): inside an exception group every line
    of the traceback stands behind a margin, so a frame-location line is
    the margin followed by the usual indentation, the word File and the
    path. *)
Definition exception_group_traceback : string :=
  "+ Exception Group Traceback (most recent call last):" ^^ LF
  ^^ "  |   File " ^^ chr dquote ^^ "/srv/app/a.py" ^^ chr dquote
  ^^ ", line 759, in run_debugger" ^^ LF
  ^^ "  |     self.runcall(exec, compiled_code, namespace, namespace)" ^^ LF
  ^^ "  |   File " ^^ chr dquote ^^ "/usr/lib/python3/bdb.py" ^^ chr dquote
  ^^ ", line 600, in runcall" ^^ LF
  ^^ "  |     res = func(*args, **kwds)" ^^ LF
  ^^ "  |   File " ^^ chr dquote ^^ "<string>" ^^ chr dquote
  ^^ ", line 1, in <module>" ^^ LF
  ^^ "  | ExceptionGroup: eg (1 sub-exception)" ^^ LF
  ^^ "  +-+---------------- 1 ----------------" ^^ LF
  ^^ "    | ValueError: 1" ^^ LF
  ^^ "    +------------------------------------".

(** The same three frames in the report of an exception that is not a
    group. *)
Definition plain_traceback : string :=
  "Traceback (most recent call last):" ^^ LF
  ^^ "  File " ^^ chr dquote ^^ "/srv/app/a.py" ^^ chr dquote
  ^^ ", line 759, in run_debugger" ^^ LF
  ^^ "    self.runcall(exec, compiled_code, namespace, namespace)" ^^ LF
  ^^ "  File " ^^ chr dquote ^^ "/usr/lib/python3/bdb.py" ^^ chr dquote
  ^^ ", line 600, in runcall" ^^ LF
  ^^ "    res = func(*args, **kwds)" ^^ LF
  ^^ "  File " ^^ chr dquote ^^ "<string>" ^^ chr dquote
  ^^ ", line 1, in <module>" ^^ LF
  ^^ "ValueError: 1".

(** C9 at the failing input.  The sanitizer returns the report of an
    exception group as it is: none of its frame-location lines passes the
    test of line 44,
    which looks for the word File at the start of the stripped line and
    finds the margin of the group there.  The frame-location lines of
    the debugger and of the debugger library keep their absolute paths,
    with and without the filter on the frames of the submission.  The
    same frames in the report of a plain exception are relabelled, and
    left out by the filter when they precede the submission. *)
Theorem exception_group_frame_lines_keep_their_paths :
  sanitize_traceback_paths example_host exception_group_traceback true
  = exception_group_traceback
  /\ sanitize_traceback_paths example_host exception_group_traceback false
     = exception_group_traceback
  /\ In ("  |   File " ^^ chr dquote ^^ "/srv/app/a.py" ^^ chr dquote
         ^^ ", line 759, in run_debugger")
        (splitlines
           (sanitize_traceback_paths example_host exception_group_traceback true))
  /\ In ("  |   File " ^^ chr dquote ^^ "/usr/lib/python3/bdb.py" ^^ chr dquote
         ^^ ", line 600, in runcall")
        (splitlines
           (sanitize_traceback_paths example_host exception_group_traceback true))
  /\ sanitize_traceback_paths example_host plain_traceback false
     = "Traceback (most recent call last):" ^^ LF
       ^^ "  File " ^^ chr dquote ^^ "<Debugger Internals (a.py)>" ^^ chr dquote
       ^^ ", line 759, in run_debugger" ^^ LF
       ^^ "    self.runcall(exec, compiled_code, namespace, namespace)" ^^ LF
       ^^ "  File " ^^ chr dquote ^^ "<Python Debugger Library (bdb.py)>"
       ^^ chr dquote ^^ ", line 600, in runcall" ^^ LF
       ^^ "    res = func(*args, **kwds)" ^^ LF
       ^^ "  File " ^^ chr dquote ^^ "Your Code" ^^ chr dquote
       ^^ ", line 1, in <module>" ^^ LF
       ^^ "ValueError: 1"
  /\ sanitize_traceback_paths example_host plain_traceback true
     = "Traceback (most recent call last):" ^^ LF
       ^^ "  File " ^^ chr dquote ^^ "Your Code" ^^ chr dquote
       ^^ ", line 1, in <module>" ^^ LF
       ^^ "ValueError: 1".
Proof.
  repeat split; try (vm_compute; reflexivity).
  - vm_compute. right. left. reflexivity.
  - vm_compute. do 3 right. left. reflexivity.
Qed.

(** ** The filter on the frames of the submission *)

(** A frame-location line whose file reference is the submission. *)
Definition is_user_code_frame_line (line : string) : Prop :=
  startswith (strip line) file_open = true
  /\ exists rest_of_line, search_file line = Some ("<string>", rest_of_line).

Lemma display_marker env filepath_raw :
  (sanitized_filepath_display env filepath_raw).2
  = String.eqb filepath_raw "<string>".
Proof.
  unfold sanitized_filepath_display.
  destruct (String.eqb filepath_raw "<string>"); [reflexivity|].
  destruct (abspath env filepath_raw) as [abs_filepath|]; [|reflexivity].
  destruct (String.eqb abs_filepath (debugger_script_abs env)); [reflexivity|].
  destruct (startswith abs_filepath (python_std_lib_prefix env)
            || contains (basename filepath_raw) "bdb.py"
            || contains (replace_char backslash slash (lower abs_filepath)) "flask");
    reflexivity.
Qed.

Lemma marker_is_user_code_frame_line env line :
  (sanitize_line env line).2 = true <-> is_user_code_frame_line line.
Proof.
  unfold sanitize_line, is_user_code_frame_line.
  destruct (startswith (strip line) file_open); [|split; [discriminate|intros [? _]; discriminate]].
  destruct (search_file line) as [[filepath_raw rest_of_line]|];
    [|split; [discriminate|intros [_ [? ?]]; discriminate]].
  pose proof (display_marker env filepath_raw) as Hmarker.
  destruct (sanitized_filepath_display env filepath_raw) as [display marker].
  cbn [fst snd] in *. rewrite Hmarker. split.
  - intros Heq. apply String.eqb_eq in Heq. subst. eauto.
  - intros [_ [r [= -> _]]]. reflexivity.
Qed.

Lemma sanitize_lines_unfiltered env started lines :
  sanitize_lines env false started lines
  = (map (fun l => (sanitize_line env l).1) lines, started).
Proof.
  induction lines as [|line0 rest IH]; [reflexivity|].
  cbn [sanitize_lines map]. rewrite IH.
  destruct (sanitize_line env line0). reflexivity.
Qed.

Lemma sanitize_lines_started env lines :
  sanitize_lines env true true lines
  = (map (fun l => (sanitize_line env l).1) lines, true).
Proof.
  induction lines as [|line0 rest IH]; [reflexivity|].
  cbn [sanitize_lines map].
  destruct (sanitize_line env line0) as [line marker].
  replace (if marker then true else true) with true by (destruct marker; reflexivity).
  rewrite IH. reflexivity.
Qed.

Lemma sanitize_lines_no_marker env lines :
  (forall l, In l lines -> ~ is_user_code_frame_line l) ->
  sanitize_lines env true false lines = ([], false).
Proof.
  induction lines as [|line0 rest IH]; intros Hnone; [reflexivity|].
  cbn [sanitize_lines map].
  destruct (sanitize_line env line0) as [line marker] eqn:Hline.
  assert (marker = false) as ->.
  { destruct marker; [|reflexivity]. exfalso. apply (Hnone line0); [left; reflexivity|].
    apply (marker_is_user_code_frame_line env). rewrite Hline. reflexivity. }
  rewrite IH by (intros l Hl; apply Hnone; right; exact Hl). reflexivity.
Qed.

Lemma sanitize_lines_from_marker env before marker_line after :
  (forall l, In l before -> ~ is_user_code_frame_line l) ->
  is_user_code_frame_line marker_line ->
  sanitize_lines env true false (before ++ marker_line :: after)
  = (map (fun l => (sanitize_line env l).1) (marker_line :: after), true).
Proof.
  intros Hnone Hmarker.
  induction before as [|line0 rest IH].
  - cbn [app sanitize_lines map].
    apply (marker_is_user_code_frame_line env) in Hmarker.
    destruct (sanitize_line env marker_line) as [line marker].
    cbn [snd] in Hmarker. subst marker.
    rewrite sanitize_lines_started. reflexivity.
  - cbn [app sanitize_lines map].
    destruct (sanitize_line env line0) as [line marker] eqn:Hline.
    assert (marker = false) as ->.
    { destruct marker; [|reflexivity]. exfalso.
      apply (Hnone line0); [left; reflexivity|].
      apply (marker_is_user_code_frame_line env). rewrite Hline. reflexivity. }
    rewrite IH by (intros l Hl; apply Hnone; right; exact Hl). reflexivity.
Qed.

(** X18.  With [originated_in_user_code] set, the sanitized text is the
    first line followed by the rewritten lines from the first frame line
    of the submission on: the frames before it are left out.  When no line
    after the first is a frame line of the submission, the result is that
    of the call without the flag, where no line is left out. *)
Theorem filtered_report_starts_at_the_first_frame_of_the_submission
    env traceback_str first rest :
  splitlines traceback_str = first :: rest ->
  (forall before marker_line after,
      rest = before ++ marker_line :: after ->
      (forall l, In l before -> ~ is_user_code_frame_line l) ->
      is_user_code_frame_line marker_line ->
      sanitize_traceback_paths env traceback_str true
      = join LF (first :: map (fun l => (sanitize_line env l).1)
                              (marker_line :: after)))
  /\ ((forall l, In l rest -> ~ is_user_code_frame_line l) ->
      sanitize_traceback_paths env traceback_str true
      = sanitize_traceback_paths env traceback_str false)
  /\ sanitize_traceback_paths env traceback_str false
     = join LF (first :: map (fun l => (sanitize_line env l).1) rest).
Proof.
  intros Hlines.
  assert (sanitize_traceback_paths env traceback_str false
          = join LF (first :: map (fun l => (sanitize_line env l).1) rest))
    as Hunfiltered.
  { unfold sanitize_traceback_paths, sanitize_body. rewrite Hlines.
    rewrite sanitize_lines_unfiltered. reflexivity. }
  split; [|split; [|exact Hunfiltered]].
  - intros before marker_line after -> Hnone Hmarker.
    unfold sanitize_traceback_paths, sanitize_body. rewrite Hlines.
    rewrite (sanitize_lines_from_marker env before marker_line after Hnone Hmarker).
    reflexivity.
  - intros Hnone. rewrite Hunfiltered.
    unfold sanitize_traceback_paths, sanitize_body. rewrite Hlines.
    rewrite (sanitize_lines_no_marker env rest Hnone).
    destruct rest as [|line1 rest']; [reflexivity|].
    cbn [andb negb length Nat.ltb Nat.leb].
    rewrite sanitize_lines_unfiltered. reflexivity.
Qed.

Lemma filtered_report_starts_at_the_first_frame_of_the_submission_witness :
  sanitize_traceback_paths example_host example_traceback true
  = "Traceback (most recent call last):" ^^ LF
    ^^ "  File " ^^ chr dquote ^^ "Your Code" ^^ chr dquote
    ^^ ", line 2, in <module>" ^^ LF
    ^^ "ZeroDivisionError: division by zero".
Proof.
  rewrite (proj1 (filtered_report_starts_at_the_first_frame_of_the_submission
                    example_host example_traceback
                    "Traceback (most recent call last):"
                    ["  File " ^^ chr dquote ^^ "/usr/lib/python3/bdb.py" ^^ chr dquote
                     ^^ ", line 12, in run";
                     "  File " ^^ chr dquote ^^ "<string>" ^^ chr dquote
                     ^^ ", line 2, in <module>";
                     "ZeroDivisionError: division by zero"]
                    ltac:(vm_compute; reflexivity))
                 ["  File " ^^ chr dquote ^^ "/usr/lib/python3/bdb.py" ^^ chr dquote
                  ^^ ", line 12, in run"]
                 ("  File " ^^ chr dquote ^^ "<string>" ^^ chr dquote
                  ^^ ", line 2, in <module>")
                 ["ZeroDivisionError: division by zero"]
                 eq_refl).
  - vm_compute. reflexivity.
  - intros l [<-|[]] [_ [r Hsearch]]. vm_compute in Hsearch. discriminate Hsearch.
  - split; [vm_compute; reflexivity|]. eexists. vm_compute. reflexivity.
Defined.

End SanitizerFacts.

(* ===================================================================== *)
(** * Properties of rendering and of the object graph                     *)
(* ===================================================================== *)

Module ExtractFacts.
Import PyStr Heap Render Extract Examples.

(** ** Rendering through a cycle *)

(** A tracked object that is not the node being rendered is replaced by
    its reference marker, whatever it contains. *)
Lemma tracked_object_renders_as_marker depth h obj max_len context_id
    (tracked_ids : gset Z) :
  obj ∈ tracked_ids -> context_id <> Some obj ->
  _safe_repr (S depth) h obj max_len context_id tracked_ids
  = Ok (ref_marker h obj).
Proof.
  intros Hin Hctx. simpl. unfold is_tracked_ref.
  rewrite bool_decide_eq_false_2 by exact Hctx.
  rewrite bool_decide_eq_true_2 by exact Hin. reflexivity.
Qed.

(** A list that holds itself among its first three elements, rendered as
    an element of its own node, is not replaced by a marker at any depth:
    every call makes the same call again, until no depth is left. *)
Lemma self_containing_list_exhausts_any_depth h obj items tracked_ids :
  obj_at h obj = VList items ->
  In obj (firstn preview_limit items) ->
  (forall x, In x (firstn preview_limit items) -> x <> obj ->
             exists r, forall depth max_len,
                 _safe_repr (S depth) h x max_len (Some obj) tracked_ids = Ok r) ->
  forall depth max_len,
    _safe_repr depth h obj max_len (Some obj) tracked_ids = Raise RecursionError.
Proof.
  intros Hobj Hself Hothers.
  induction depth as [|depth IH]; intros max_len; [reflexivity|].
  simpl. unfold is_tracked_ref.
  rewrite bool_decide_eq_true_2 by reflexivity. simpl.
  rewrite Hobj. destruct items as [|i0 items']; [destruct Hself|].
  assert (forall l,
             In obj l ->
             (forall x, In x l -> x <> obj ->
                        exists r, forall d ml,
                            _safe_repr (S d) h x ml (Some obj) tracked_ids = Ok r) ->
             map_res (fun item => _safe_repr depth h item nested_max_len (Some obj)
                                             tracked_ids) l
             = Raise RecursionError) as Hmap.
  { induction l as [|x l IHl]; intros Hin Hoth; [destruct Hin|].
    cbn [map_res]. destruct (Z.eq_dec x obj) as [->|Hne].
    - rewrite IH. reflexivity.
    - destruct depth as [|depth']; [reflexivity|].
      destruct (Hoth x (or_introl eq_refl) Hne) as [r Hr].
      rewrite Hr. cbn [bind].
      rewrite IHl; [reflexivity| |].
      + destruct Hin as [Hin|Hin]; [congruence|exact Hin].
      + intros y Hy. apply Hoth. right. exact Hy. }
  rewrite Hmap; [reflexivity|exact Hself|exact Hothers].
Qed.

(** C2 at the failing input.  For the list [a] with [a.append(a)] bound to
    a name, rendering the element of the node of [a] exhausts every
    recursion depth, and the node extraction builds carries the error
    text in place of its elements, no length, and no reference: the
    cyclic edge is neither a marker nor an edge of the graph. *)
Theorem self_containing_list_is_not_rendered_as_marker :
  (forall depth max_len tracked_ids,
      _safe_repr depth small_heap 20%Z max_len (Some 20%Z) tracked_ids
      = Raise RecursionError)
  /\ (forall depth,
        extract_visualizables depth small_heap [("a", 20%Z)]
        = [{| node_vizType := VizArray; node_id := 20%Z; name := "a";
              type := "list"; memory_address := "0x14";
              has_direct_reference := true; references := [];
              node_payload :=
                ArrayElements
                  [(0, "<Error: RecursionError('maximum recursion depth exceeded')>")]
                  None;
              node_error := None |}]).
Proof.
  assert (forall depth max_len tracked_ids,
             _safe_repr depth small_heap 20%Z max_len (Some 20%Z) tracked_ids
             = Raise RecursionError) as Hloop.
  { intros depth max_len tracked_ids.
    apply (self_containing_list_exhausts_any_depth small_heap 20%Z [20%Z]).
    - reflexivity.
    - left. reflexivity.
    - intros x [<-|[]] Hne. congruence. }
  split; [exact Hloop|].
  intros depth. unfold extract_visualizables.
  replace (object_info_map (traverse small_heap [("a", 20%Z)]))
    with [(20%Z, {| item := 20%Z; names := ["a"]; vizType := VizArray;
                    is_direct := true; visited_bfs := true |})]
    by (vm_compute; reflexivity).
  cbn [map format_item vizType item names is_direct].
  replace (obj_at small_heap 20%Z) with (VList [20%Z]) by reflexivity.
  cbn [iter_items format_elements]. unfold render_in. rewrite Hloop.
  vm_compute. reflexivity.
Qed.

(** An object that refers to itself through an attribute is rendered, in
    its own node, by its [repr] and not by a marker; the edge is among the
    references. *)
Lemma self_referencing_object_field_is_inlined depth :
  map (fun n => (node_payload n, references n))
      (extract_visualizables (S depth) node_heap [("o", 30%Z)])
  = [(ObjectFields [("next", "<__debugger_run__.Node object at 0x1e>", "Node")],
      [{| field_name := "next"; target_id := 30%Z; target_type := VizObject |}])].
Proof.
  unfold extract_visualizables.
  replace (object_info_map (traverse node_heap [("o", 30%Z)]))
    with [(30%Z, {| item := 30%Z; names := ["o"]; vizType := VizObject;
                    is_direct := true; visited_bfs := true |})]
    by (vm_compute; reflexivity).
  reflexivity.
Qed.

(** ** The budgets of the traversal *)

Lemma enqueue_unvisited_map m st i :
  object_info_map (enqueue_unvisited m st i) = m.
Proof. unfold enqueue_unvisited. destruct (bool_decide _); reflexivity. Qed.

Lemma enqueue_unvisited_processed m st i :
  items_processed_bfs (enqueue_unvisited m st i) = items_processed_bfs st.
Proof. unfold enqueue_unvisited. destruct (bool_decide _); reflexivity. Qed.

Lemma visit_child_processed h st child :
  items_processed_bfs (visit_child h st child) = items_processed_bfs st.
Proof.
  unfold visit_child. destruct (negb _); [reflexivity|].
  apply enqueue_unvisited_processed.
Qed.

Lemma visit_children_processed h children :
  forall st, items_processed_bfs (fold_left (visit_child h) children st)
             = items_processed_bfs st.
Proof.
  induction children as [|c cs IH]; intros st; simpl; [reflexivity|].
  rewrite IH. apply visit_child_processed.
Qed.

(** The loop of the source stops by its own condition: any fuel of at
    least the budget that is left gives the same final state. *)
Lemma bfs_loop_fuel_enough h :
  forall n fuel st,
    MAX_TRAVERSAL_ITEMS - items_processed_bfs st <= n -> n <= fuel ->
    bfs_loop fuel h st = bfs_loop n h st.
Proof.
  induction n as [|n IH]; intros fuel st Hleft Hfuel.
  - destruct fuel as [|fuel]; [reflexivity|]. simpl.
    destruct (queue_bfs st) as [|current_obj queue']; [reflexivity|].
    destruct (items_processed_bfs st <? MAX_TRAVERSAL_ITEMS) eqn:Hlt;
      [|reflexivity].
    apply Nat.ltb_lt in Hlt. lia.
  - destruct fuel as [|fuel]; [lia|]. simpl.
    destruct (queue_bfs st) as [|current_obj queue']; [reflexivity|].
    destruct (items_processed_bfs st <? MAX_TRAVERSAL_ITEMS) eqn:Hlt;
      [|reflexivity].
    apply Nat.ltb_lt in Hlt.
    destruct (info_lookup (object_info_map st) current_obj) as [d|].
    + destruct (visited_bfs d).
      * apply IH; cbn [items_processed_bfs]; lia.
      * apply IH; [|lia]. rewrite visit_children_processed.
        cbn [items_processed_bfs]. lia.
    + apply IH; cbn [items_processed_bfs]; lia.
Qed.

Lemma bfs_loop_processed h :
  forall fuel st,
    items_processed_bfs st <= MAX_TRAVERSAL_ITEMS ->
    items_processed_bfs (bfs_loop fuel h st) <= MAX_TRAVERSAL_ITEMS.
Proof.
  induction fuel as [|fuel IH]; intros st Hst; simpl; [exact Hst|].
  destruct (queue_bfs st) as [|current_obj queue']; [exact Hst|].
  destruct (items_processed_bfs st <? MAX_TRAVERSAL_ITEMS) eqn:Hlt; [|exact Hst].
  apply Nat.ltb_lt in Hlt.
  destruct (info_lookup (object_info_map st) current_obj) as [d|].
  - destruct (visited_bfs d).
    + apply IH. cbn [items_processed_bfs]. lia.
    + apply IH. rewrite visit_children_processed. cbn [items_processed_bfs]. lia.
  - apply IH. cbn [items_processed_bfs]. lia.
Qed.

(** The number of entries of the map. *)
Lemma info_update_length m i g : length (info_update m i g) = length m.
Proof.
  induction m as [|[j d] m IH]; simpl; [reflexivity|].
  destruct (Z.eqb j i); simpl; [reflexivity|]. rewrite IH. reflexivity.
Qed.

Lemma seed_binding_length h st b :
  length (object_info_map (seed_binding h st b))
  <= S (length (object_info_map st)).
Proof.
  unfold seed_binding. destruct b as [var_name var_value].
  destruct (startswith var_name "__" || negb _); [lia|].
  destruct (negb (info_mem _ _)); simpl.
  - rewrite enqueue_unvisited_map, length_app. simpl. lia.
  - rewrite info_update_length. lia.
Qed.

Lemma seed_length h variables :
  forall st,
    length (object_info_map (fold_left (seed_binding h) variables st))
    <= length (object_info_map st) + length variables.
Proof.
  induction variables as [|b bs IH]; intros st; simpl; [lia|].
  specialize (IH (seed_binding h st b)).
  pose proof (seed_binding_length h st b). lia.
Qed.

Lemma visit_child_length h st child :
  length (object_info_map (visit_child h st child))
  <= S (length (object_info_map st)).
Proof.
  unfold visit_child. destruct (negb (_is_visualizable_candidate _ _)); [lia|].
  rewrite enqueue_unvisited_map.
  destruct (negb (info_mem _ _)); [|lia].
  rewrite length_app. simpl. lia.
Qed.

Lemma visit_children_length h children :
  forall st,
    length (object_info_map (fold_left (visit_child h) children st))
    <= length (object_info_map st) + length children.
Proof.
  induction children as [|c cs IH]; intros st; simpl; [lia|].
  specialize (IH (visit_child h st c)).
  pose proof (visit_child_length h st c). lia.
Qed.

(** Each iteration of the loop adds at most the children of one object. *)
Lemma bfs_loop_length h bound :
  (forall t cur, length (children_to_check h t cur) <= bound) ->
  forall fuel st,
    length (object_info_map (bfs_loop fuel h st))
    <= length (object_info_map st) + fuel * bound.
Proof.
  intros Hbound. induction fuel as [|fuel IH]; intros st; simpl; [lia|].
  destruct (queue_bfs st) as [|current_obj queue']; [lia|].
  destruct (items_processed_bfs st <? MAX_TRAVERSAL_ITEMS); [|lia].
  destruct (info_lookup (object_info_map st) current_obj) as [d|].
  - destruct (visited_bfs d).
    + etransitivity; [apply IH|]. simpl. lia.
    + etransitivity; [apply IH|].
      etransitivity;
        [apply Nat.add_le_mono_r, visit_children_length|].
      simpl. rewrite info_update_length.
      specialize (Hbound (vizType d) current_obj). lia.
  - etransitivity; [apply IH|]. simpl. lia.
Qed.

(** Sorting keeps the elements. *)
Lemma insert_by_perm {A} (le : A -> A -> bool) x l :
  Permutation (insert_by le x l) (x :: l).
Proof.
  induction l as [|y l IH]; simpl; [reflexivity|].
  destruct (le y x); [|reflexivity].
  rewrite IH. apply perm_swap.
Qed.

Lemma sort_by_perm {A} (le : A -> A -> bool) l : Permutation (sort_by le l) l.
Proof.
  unfold sort_by. induction l as [|x l IH]; simpl; [reflexivity|].
  rewrite insert_by_perm, IH. reflexivity.
Qed.

Lemma extract_length depth h variables :
  length (extract_visualizables depth h variables)
  = length (object_info_map (traverse h variables)).
Proof.
  unfold extract_visualizables.
  rewrite (Permutation_length (sort_by_perm _ _)). apply length_map.
Qed.

(** The fan-out of one object, by kind. *)
Lemma children_to_check_fanout h t cur :
  match t with
  | VizArray | VizDeque | VizSet =>
      length (children_to_check h t cur) <= MAX_COLLECTION_ITEMS_TRAVERSE
  | VizDict =>
      length (children_to_check h t cur) <= 2 * MAX_COLLECTION_ITEMS_TRAVERSE
  | VizNumpyArray => children_to_check h t cur = []
  | VizObject =>
      forall m n attrs c,
        obj_at h cur = VInstance m n (Some attrs) c ->
        length (children_to_check h t cur) = length attrs
  end.
Proof.
  destruct t; simpl.
  - intros m n attrs c ->. apply length_map.
  - rewrite length_firstn. lia.
  - destruct (obj_at h cur); simpl; try lia.
    assert (forall l : list (ident * ident),
               length (flat_map
                         (fun kv : ident * ident =>
                            (if _is_visualizable_candidate h kv.1 then [kv.1] else [])
                            ++ (if _is_visualizable_candidate h kv.2 then [kv.2] else []))
                         l) <= 2 * length l) as Hflat.
    { induction l as [|kv l IH]; [simpl; lia|].
      cbn [flat_map]. rewrite !length_app. cbn [length].
      destruct (_is_visualizable_candidate h kv.1),
               (_is_visualizable_candidate h kv.2); cbn [length];
        set (n := length (flat_map _ l)) in *; lia. }
    etransitivity; [apply Hflat|]. rewrite length_firstn.
    unfold MAX_COLLECTION_ITEMS_TRAVERSE. lia.
  - reflexivity.
  - rewrite length_firstn. lia.
  - rewrite length_firstn. lia.
Qed.

(** ** Aliases *)

(** The names recorded for an identity ([[]] when it has no entry). *)
Definition names_of (m : info_map) (v : ident) : list string :=
  match info_lookup m v with
  | Some d => names d
  | None => []
  end.

Lemma info_lookup_snoc m i d j :
  info_lookup (m ++ [(i, d)]) j
  = match info_lookup m j with
    | Some x => Some x
    | None => if Z.eqb i j then Some d else None
    end.
Proof.
  induction m as [|[k x] m IH]; simpl; [reflexivity|].
  destruct (Z.eqb k j); [reflexivity|exact IH].
Qed.

Lemma info_lookup_update m i g j :
  info_lookup (info_update m i g) j
  = if Z.eqb i j then option_map g (info_lookup m j) else info_lookup m j.
Proof.
  induction m as [|[k x] m IH]; simpl; [destruct (Z.eqb i j); reflexivity|].
  destruct (Z.eqb k i) eqn:Hki; simpl.
  - apply Z.eqb_eq in Hki. subst k.
    destruct (Z.eqb i j); reflexivity.
  - rewrite IH. destruct (Z.eqb k j) eqn:Hkj; [|reflexivity].
    apply Z.eqb_eq in Hkj. subst k. rewrite Z.eqb_sym, Hki. reflexivity.
Qed.

Lemma info_keys_update m i g : info_keys (info_update m i g) = info_keys m.
Proof.
  unfold info_keys. induction m as [|[k x] m IH]; simpl; [reflexivity|].
  destruct (Z.eqb k i); simpl; [reflexivity|]. rewrite IH. reflexivity.
Qed.

Lemma info_lookup_None_keys m i :
  info_lookup m i = None -> ~ In i (info_keys m).
Proof.
  unfold info_keys. induction m as [|[k x] m IH]; simpl; [auto|].
  destruct (Z.eqb k i) eqn:Hki; [discriminate|].
  intros Hnone [Heq|Hin]; [|exact (IH Hnone Hin)].
  subst k. rewrite Z.eqb_refl in Hki. discriminate.
Qed.

Lemma info_lookup_In m i d : info_lookup m i = Some d -> In (i, d) m.
Proof.
  induction m as [|[k x] m IH]; simpl; [discriminate|].
  destruct (Z.eqb k i) eqn:Hki.
  - apply Z.eqb_eq in Hki. subst k. intros H. injection H as ->. left. reflexivity.
  - intros H. right. apply IH, H.
Qed.

Lemma info_keys_snoc_NoDup m i d :
  NoDup (info_keys m) -> info_mem m i = false ->
  NoDup (info_keys (m ++ [(i, d)])).
Proof.
  unfold info_keys, info_mem. intros Hnd Hmem. rewrite map_app. simpl.
  apply NoDup_app; split; [exact Hnd|]. split.
  - intros x Hx Hx'. apply list_elem_of_In in Hx, Hx'.
    destruct Hx' as [<-|[]].
    destruct (info_lookup m i) eqn:Hl; [discriminate|].
    exact (info_lookup_None_keys m i Hl Hx).
  - apply NoDup_singleton.
Qed.

Lemma names_add_In name ns : In name (names_add name ns).
Proof.
  unfold names_add. destruct (existsb (String.eqb name) ns) eqn:He.
  - apply existsb_exists in He as (x & Hx & Heq).
    apply String.eqb_eq in Heq. subst x. exact Hx.
  - apply in_or_app. right. left. reflexivity.
Qed.

Lemma names_add_mono name ns n : In n ns -> In n (names_add name ns).
Proof.
  unfold names_add. destruct (existsb _ ns); [auto|].
  intros H. apply in_or_app. left. exact H.
Qed.

(** The seeding loop only adds names, and adds the name of every binding
    it does not skip. *)
Lemma seed_binding_names_mono h st b v n :
  In n (names_of (object_info_map st) v) ->
  In n (names_of (object_info_map (seed_binding h st b)) v).
Proof.
  unfold seed_binding, names_of. destruct b as [var_name var_value].
  destruct (startswith var_name "__" || negb _); [auto|].
  destruct (negb (info_mem (object_info_map st) var_value)).
  - rewrite enqueue_unvisited_map, info_lookup_snoc.
    destruct (info_lookup (object_info_map st) v); [auto|intros []].
  - simpl. rewrite info_lookup_update.
    destruct (Z.eqb var_value v); [|auto].
    destruct (info_lookup (object_info_map st) v); simpl; [|auto].
    apply names_add_mono.
Qed.

Lemma seed_binding_adds h st var_name v :
  startswith var_name "__" = false ->
  _is_visualizable_candidate h v = true ->
  In var_name (names_of (object_info_map (seed_binding h st (var_name, v))) v).
Proof.
  intros Hdunder Hcand. unfold seed_binding, names_of.
  rewrite Hdunder, Hcand. simpl. unfold info_mem.
  destruct (info_lookup (object_info_map st) v) as [d|] eqn:Hl; simpl.
  - rewrite info_lookup_update, Z.eqb_refl, Hl. simpl. apply names_add_In.
  - rewrite enqueue_unvisited_map, info_lookup_snoc, Hl, Z.eqb_refl.
    left. reflexivity.
Qed.

Lemma seed_names_mono h variables v n :
  forall st,
    In n (names_of (object_info_map st) v) ->
    In n (names_of (object_info_map (fold_left (seed_binding h) variables st)) v).
Proof.
  induction variables as [|b bs IH]; intros st Hn; simpl; [exact Hn|].
  apply IH, seed_binding_names_mono, Hn.
Qed.

Lemma seed_names h variables var_name v :
  In (var_name, v) variables ->
  startswith var_name "__" = false ->
  _is_visualizable_candidate h v = true ->
  forall st,
    In var_name
       (names_of (object_info_map (fold_left (seed_binding h) variables st)) v).
Proof.
  intros Hin Hdunder Hcand.
  induction variables as [|b bs IH]; intros st; [destruct Hin|].
  simpl. destruct Hin as [->|Hin].
  - apply seed_names_mono, seed_binding_adds; assumption.
  - apply IH, Hin.
Qed.

(** The traversal changes no set of names. *)
Lemma visit_child_names h st child v :
  names_of (object_info_map (visit_child h st child)) v
  = names_of (object_info_map st) v.
Proof.
  unfold visit_child, names_of.
  destruct (negb (_is_visualizable_candidate h child)); [reflexivity|].
  rewrite enqueue_unvisited_map.
  destruct (negb (info_mem (object_info_map st) child)); [|reflexivity].
  rewrite info_lookup_snoc.
  destruct (info_lookup (object_info_map st) v); [reflexivity|].
  destruct (Z.eqb child v); reflexivity.
Qed.

Lemma visit_children_names h children v :
  forall st,
    names_of (object_info_map (fold_left (visit_child h) children st)) v
    = names_of (object_info_map st) v.
Proof.
  induction children as [|c cs IH]; intros st; simpl; [reflexivity|].
  rewrite IH. apply visit_child_names.
Qed.

Lemma bfs_loop_names h v :
  forall fuel st,
    names_of (object_info_map (bfs_loop fuel h st)) v
    = names_of (object_info_map st) v.
Proof.
  induction fuel as [|fuel IH]; intros st; simpl; [reflexivity|].
  destruct (queue_bfs st) as [|current_obj queue']; [reflexivity|].
  destruct (items_processed_bfs st <? MAX_TRAVERSAL_ITEMS); [|reflexivity].
  destruct (info_lookup (object_info_map st) current_obj) as [d|].
  - destruct (visited_bfs d).
    + rewrite IH. reflexivity.
    + rewrite IH, visit_children_names. simpl. unfold names_of.
      rewrite info_lookup_update.
      destruct (Z.eqb current_obj v); [|reflexivity].
      destruct (info_lookup (object_info_map st) v); reflexivity.
  - rewrite IH. reflexivity.
Qed.

(** The map never holds an identity twice. *)
Lemma seed_binding_NoDup h st b :
  NoDup (info_keys (object_info_map st)) ->
  NoDup (info_keys (object_info_map (seed_binding h st b))).
Proof.
  intros Hnd. unfold seed_binding. destruct b as [var_name var_value].
  destruct (startswith var_name "__" || negb _); [exact Hnd|].
  destruct (negb (info_mem (object_info_map st) var_value)) eqn:Hmem.
  - rewrite enqueue_unvisited_map. apply info_keys_snoc_NoDup; [exact Hnd|].
    apply negb_true_iff. exact Hmem.
  - simpl. rewrite info_keys_update. exact Hnd.
Qed.

Lemma visit_child_NoDup h st child :
  NoDup (info_keys (object_info_map st)) ->
  NoDup (info_keys (object_info_map (visit_child h st child))).
Proof.
  intros Hnd. unfold visit_child.
  destruct (negb (_is_visualizable_candidate h child)); [exact Hnd|].
  rewrite enqueue_unvisited_map.
  destruct (negb (info_mem (object_info_map st) child)) eqn:Hmem; [|exact Hnd].
  apply info_keys_snoc_NoDup; [exact Hnd|]. apply negb_true_iff. exact Hmem.
Qed.

Lemma traverse_NoDup h variables :
  NoDup (info_keys (object_info_map (traverse h variables))).
Proof.
  unfold traverse, seed.
  assert (forall l st, NoDup (info_keys (object_info_map st)) ->
                       NoDup (info_keys (object_info_map
                                           (fold_left (seed_binding h) l st))))
    as Hseed.
  { induction l as [|b l IH]; intros st Hst; simpl; [exact Hst|].
    apply IH, seed_binding_NoDup, Hst. }
  assert (forall l st, NoDup (info_keys (object_info_map st)) ->
                       NoDup (info_keys (object_info_map
                                           (fold_left (visit_child h) l st))))
    as Hvisit.
  { induction l as [|c l IH]; intros st Hst; simpl; [exact Hst|].
    apply IH, visit_child_NoDup, Hst. }
  assert (forall fuel st, NoDup (info_keys (object_info_map st)) ->
                          NoDup (info_keys (object_info_map (bfs_loop fuel h st))))
    as Hloop.
  { induction fuel as [|fuel IH]; intros st Hst; simpl; [exact Hst|].
    destruct (queue_bfs st) as [|current_obj queue']; [exact Hst|].
    destruct (items_processed_bfs st <? MAX_TRAVERSAL_ITEMS); [|exact Hst].
    destruct (info_lookup (object_info_map st) current_obj) as [d|].
    - destruct (visited_bfs d).
      + apply IH. exact Hst.
      + apply IH, Hvisit. simpl. rewrite info_keys_update. exact Hst.
    - apply IH. exact Hst. }
  apply Hloop, Hseed. simpl. apply NoDup_nil. trivial.
Qed.

(** The node of an entry has the identity of the entry and a display name
    made of its names. *)
Ltac format_cases :=
  repeat match goal with
         | |- context [match ?x with _ => _ end] => destruct x
         end;
  reflexivity.

Lemma format_item_id depth h m i d : node_id (format_item depth h m (i, d)) = i.
Proof. unfold format_item. format_cases. Qed.

Lemma format_item_name depth h m i d :
  names d <> [] ->
  name (format_item depth h m (i, d)) = join ", " (sort_by str_le (names d)).
Proof.
  intros Hne.
  assert (name (format_item depth h m (i, d))
          = match sort_by str_le (names d) with
            | [] => "<" ^^ viz_name (vizType d) ^^ " @ " ^^ hex i ^^ ">"
            | _ => join ", " (sort_by str_le (names d))
            end) as ->.
  { unfold format_item.
    repeat match goal with
           | |- context [match ?x with _ => _ end] =>
               lazymatch x with
               | sort_by _ _ => fail
               | _ => destruct x
               end
           end; reflexivity. }
  destruct (sort_by str_le (names d)) eqn:Hs; [|reflexivity].
  exfalso. apply Hne. apply Permutation_nil.
  rewrite <- Hs. apply sort_by_perm.
Qed.

(** The nodes are the entries of the map, each formatted, in another
    order. *)
Lemma sorted_nodes_ids_NoDup (f : ident * obj_data -> node) (m : info_map) :
  (forall e, node_id (f e) = e.1) -> NoDup (info_keys m) ->
  List.NoDup (map node_id (sort_by node_le (map f m))).
Proof.
  intros Hf Hnd.
  apply (Permutation_NoDup
           (Permutation_map node_id (Permutation_sym (sort_by_perm node_le _)))).
  rewrite map_map.
  rewrite (map_ext _ fst); [apply NoDup_ListNoDup; exact Hnd|].
  exact Hf.
Qed.

Lemma extract_ids_NoDup depth h variables :
  List.NoDup (map node_id (extract_visualizables depth h variables)).
Proof.
  apply sorted_nodes_ids_NoDup.
  - intros [i x]. apply format_item_id.
  - apply traverse_NoDup.
Qed.

Lemma sorted_nodes_have (f : ident * obj_data -> node) (m : info_map) e :
  In e m -> In (f e) (sort_by node_le (map f m)).
Proof.
  intros He. apply (Permutation_in _ (Permutation_sym (sort_by_perm _ _))).
  apply in_map, He.
Qed.

Lemma extract_has_node depth h variables v d :
  info_lookup (object_info_map (traverse h variables)) v = Some d ->
  In (format_item depth h (object_info_map (traverse h variables)) (v, d))
     (extract_visualizables depth h variables).
Proof.
  intros Hl. apply sorted_nodes_have, info_lookup_In, Hl.
Qed.

Lemma only_node_with_its_id (nodes pre post : list node) nd :
  List.NoDup (map node_id nodes) -> nodes = pre ++ nd :: post ->
  forall n, In n (pre ++ post) -> node_id n <> node_id nd.
Proof.
  intros Hnd -> n Hn Hid.
  rewrite map_app in Hnd. cbn [map] in Hnd.
  apply List.NoDup_remove_2 in Hnd. apply Hnd.
  rewrite <- map_app, <- Hid. apply in_map. exact Hn.
Qed.

Lemma traverse_names h variables n v :
  In (n, v) variables -> startswith n "__" = false ->
  _is_visualizable_candidate h v = true ->
  In n (names_of (object_info_map (traverse h variables)) v).
Proof.
  intros Hin Hd Hcand. unfold traverse. rewrite bfs_loop_names.
  apply seed_names; assumption.
Qed.

Lemma names_of_entry m n v :
  In n (names_of m v) -> exists d, info_lookup m v = Some d /\ In n (names d).
Proof.
  unfold names_of. destruct (info_lookup m v) as [d|]; [|intros []].
  intros H. exists d. split; [reflexivity|exact H].
Qed.

(** C1, as amended.  When names that do not start with two underscores are
    bound, in one scope, to one object that is a candidate for the graph,
    extraction gives exactly one node with the identity of that object,
    and the display name of that node is the sorted, comma-separated list
    of a set of names that contains all of those names. *)
Theorem aliases_of_a_candidate_share_one_node depth h variables n1 n2 v :
  In (n1, v) variables -> In (n2, v) variables ->
  startswith n1 "__" = false -> startswith n2 "__" = false ->
  _is_visualizable_candidate h v = true ->
  exists pre nd post display_names,
    extract_visualizables depth h variables = pre ++ nd :: post
    /\ node_id nd = v
    /\ (forall n, In n (pre ++ post) -> node_id n <> v)
    /\ name nd = join ", " (sort_by str_le display_names)
    /\ In n1 display_names /\ In n2 display_names.
Proof.
  intros Hin1 Hin2 Hd1 Hd2 Hcand.
  destruct (names_of_entry _ _ _ (traverse_names h variables n1 v Hin1 Hd1 Hcand))
    as (d & Hl & H1).
  destruct (names_of_entry _ _ _ (traverse_names h variables n2 v Hin2 Hd2 Hcand))
    as (d' & Hl' & H2).
  assert (d' = d) as -> by congruence.
  destruct (in_split _ _ (extract_has_node depth h variables v d Hl))
    as (pre & post & Hsplit).
  exists pre, (format_item depth h (object_info_map (traverse h variables)) (v, d)),
    post, (names d).
  split; [exact Hsplit|]. split; [apply format_item_id|].
  split; [|split; [|split; assumption]].
  - intros n Hn.
    rewrite <- (format_item_id depth h (object_info_map (traverse h variables)) v d).
    eapply only_node_with_its_id; [apply extract_ids_NoDup|exact Hsplit|exact Hn].
  - apply format_item_name. intros Hnil. rewrite Hnil in H1. destruct H1.
Qed.

(** What C1 states, for one scope: any two names bound to one identity
    share exactly one node, whose display names contain both. *)
Definition aliases_share_one_node_as_claimed (depth : nat) (h : heap)
    (variables : list (string * ident)) : Prop :=
  forall n1 n2 v,
    n1 <> n2 -> In (n1, v) variables -> In (n2, v) variables ->
    exists pre nd post display_names,
      extract_visualizables depth h variables = pre ++ nd :: post
      /\ node_id nd = v
      /\ (forall n, In n (pre ++ post) -> node_id n <> v)
      /\ name nd = join ", " (sort_by str_le display_names)
      /\ In n1 display_names /\ In n2 display_names.

(** C1 as stated fails: two names bound to one integer share an identity,
    and the graph has no node for it. *)
Lemma aliases_of_an_integer_have_no_node :
  ~ aliases_share_one_node_as_claimed 200 small_heap [("n", 5%Z); ("k", 5%Z)].
Proof.
  intros Hclaim.
  destruct (Hclaim "n" "k" 5%Z) as (pre & nd & post & names & Hnodes & _).
  - discriminate.
  - left. reflexivity.
  - right. left. reflexivity.
  - replace (extract_visualizables 200 small_heap [("n", 5%Z); ("k", 5%Z)])
      with (@nil node) in Hnodes by (vm_compute; reflexivity).
    destruct pre; discriminate Hnodes.
Qed.

(** A name that starts with two underscores is not recorded either: of
    the two names bound to the list at 10, the node carries one. *)
Lemma dunder_alias_is_not_a_display_name :
  map (fun n => (node_id n, name n))
      (extract_visualizables 200 small_heap [("__cache", 10%Z); ("x", 10%Z)])
  = [(10%Z, "x")].
Proof. vm_compute. reflexivity. Qed.

Lemma aliases_of_a_candidate_share_one_node_witness :
  exists pre nd post display_names,
    extract_visualizables 200 small_heap (Session.mem_namespace small_memory)
    = pre ++ nd :: post
    /\ node_id nd = 10%Z
    /\ (forall n, In n (pre ++ post) -> node_id n <> 10%Z)
    /\ name nd = join ", " (sort_by str_le display_names)
    /\ In "x" display_names /\ In "y" display_names.
Proof.
  apply (aliases_of_a_candidate_share_one_node
           200 small_heap (Session.mem_namespace small_memory) "x" "y" 10%Z).
  - simpl. left. reflexivity.
  - simpl. right. left. reflexivity.
  - reflexivity.
  - reflexivity.
  - reflexivity.
Defined.

(** The bounds C8 states, for one scope. *)
Definition budgets_as_claimed (depth : nat) (h : heap)
    (variables : list (string * ident)) : Prop :=
  length (extract_visualizables depth h variables) <= MAX_TRAVERSAL_ITEMS
  /\ forall t cur,
      length (children_to_check h t cur) <= MAX_COLLECTION_ITEMS_TRAVERSE.

(** C8 as stated fails: a scope that binds 501 names to 501 lists gives
    501 nodes, one more than the node budget. *)
Lemma five_hundred_and_one_bound_lists_give_as_many_nodes :
  ~ budgets_as_claimed 200 lists_heap (many_bindings 501).
Proof.
  intros [Hnodes _]. rewrite extract_length in Hnodes.
  apply Nat.leb_le in Hnodes. vm_compute in Hnodes. discriminate Hnodes.
Qed.

(** It fails on the fan-out too: a mapping with 16 items whose keys and
    values are all candidates contributes 32 children. *)
Lemma mapping_of_sixteen_items_contributes_thirty_two_children :
  ~ budgets_as_claimed 200 wide_dict_heap [("d", 100%Z)].
Proof.
  intros [_ Hfan]. specialize (Hfan VizDict 100%Z).
  apply Nat.leb_le in Hfan. vm_compute in Hfan. discriminate Hfan.
Qed.

(** C8, as amended.  The traversal takes at most [MAX_TRAVERSAL_ITEMS]
    objects off its queue.  A sequence, a deque or a set contributes at
    most [MAX_COLLECTION_ITEMS_TRAVERSE] children, a mapping the keys and
    values of at most that many items, a numeric array none, and an object
    all its attributes.  The number of nodes is at most the number of
    bindings of the scope plus the budget times the largest fan-out. *)
Theorem traversal_budgets depth h variables bound :
  (forall t cur, length (children_to_check h t cur) <= bound) ->
  items_processed_bfs (traverse h variables) <= MAX_TRAVERSAL_ITEMS
  /\ (forall t cur,
         match t with
         | VizArray | VizDeque | VizSet =>
             length (children_to_check h t cur) <= MAX_COLLECTION_ITEMS_TRAVERSE
         | VizDict =>
             length (children_to_check h t cur) <= 2 * MAX_COLLECTION_ITEMS_TRAVERSE
         | VizNumpyArray => children_to_check h t cur = []
         | VizObject =>
             forall m n attrs c,
               obj_at h cur = VInstance m n (Some attrs) c ->
               length (children_to_check h t cur) = length attrs
         end)
  /\ length (extract_visualizables depth h variables)
     <= length variables + MAX_TRAVERSAL_ITEMS * bound.
Proof.
  intros Hbound. split; [|split].
  - apply bfs_loop_processed. unfold seed.
    assert (forall l st, items_processed_bfs (fold_left (seed_binding h) l st)
                         = items_processed_bfs st) as Hseed.
    { induction l as [|b l IH]; intros st; simpl; [reflexivity|].
      rewrite IH. unfold seed_binding. destruct b as [var_name var_value].
      destruct (startswith var_name "__" || negb _); [reflexivity|].
      destruct (negb (info_mem _ _)); [|reflexivity].
      apply enqueue_unvisited_processed. }
    rewrite Hseed. simpl. lia.
  - apply children_to_check_fanout.
  - rewrite extract_length. unfold traverse.
    etransitivity; [apply (bfs_loop_length h bound Hbound)|].
    apply Nat.add_le_mono_r. apply (seed_length h variables bfs_init).
Qed.

(** No object of [wide_dict_heap] contributes more than 32 children. *)
Lemma wide_dict_heap_fanout t cur :
  length (children_to_check wide_dict_heap t cur) <= 32.
Proof.
  pose proof (children_to_check_fanout wide_dict_heap t cur) as H.
  destruct t; cbn beta iota in H; unfold MAX_COLLECTION_ITEMS_TRAVERSE in H;
    try lia.
  - unfold children_to_check, wide_dict_heap. cbn [obj_at].
    destruct (cur =? 100)%Z; [simpl; lia|].
    destruct (cur =? 101)%Z; [simpl; lia|].
    destruct (cur <? 200)%Z; [simpl; lia|].
    destruct (cur <? 300)%Z; [simpl; lia|].
    destruct (cur <? 400)%Z; [simpl; lia|].
    destruct (cur <? 500)%Z; simpl; lia.
  - clear H. unfold children_to_check, wide_dict_heap. cbn [obj_at].
    destruct (cur =? 100)%Z; [apply Nat.leb_le; vm_compute; reflexivity|].
    destruct (cur =? 101)%Z; [simpl; lia|].
    destruct (cur <? 200)%Z; [simpl; lia|].
    destruct (cur <? 300)%Z; [simpl; lia|].
    destruct (cur <? 400)%Z; [simpl; lia|].
    destruct (cur <? 500)%Z; simpl; lia.
  - rewrite H. simpl. lia.
Qed.

(** The budgets on a scope that binds the mapping of 16 items and the list
    of 40: the list contributes 30 of its 40 elements, the mapping its 16
    keys and its 16 values, and the graph has the two bound objects and
    the 62 children, within the bound of the theorem. *)
Lemma traversal_budgets_witness :
  items_processed_bfs (traverse wide_dict_heap [("d", 100%Z); ("xs", 101%Z)])
  <= MAX_TRAVERSAL_ITEMS
  /\ (length (iter_items (obj_at wide_dict_heap 101%Z)) = 40
      /\ length (children_to_check wide_dict_heap VizArray 101%Z)
         <= MAX_COLLECTION_ITEMS_TRAVERSE
      /\ length (children_to_check wide_dict_heap VizArray 101%Z) = 30)
  /\ (length (children_to_check wide_dict_heap VizDict 100%Z)
      <= 2 * MAX_COLLECTION_ITEMS_TRAVERSE
      /\ length (children_to_check wide_dict_heap VizDict 100%Z) = 32)
  /\ (length (extract_visualizables 200 wide_dict_heap
                                    [("d", 100%Z); ("xs", 101%Z)])
      <= length [("d", 100%Z); ("xs", 101%Z)] + MAX_TRAVERSAL_ITEMS * 32
      /\ length (extract_visualizables 200 wide_dict_heap
                                       [("d", 100%Z); ("xs", 101%Z)]) = 64).
Proof.
  pose proof (traversal_budgets 200 wide_dict_heap [("d", 100%Z); ("xs", 101%Z)]
                                32 wide_dict_heap_fanout)
    as (Hprocessed & Hfanout & Hnodes).
  split; [exact Hprocessed|]. split; [|split].
  - split; [reflexivity|]. split; [exact (Hfanout VizArray 101%Z)|reflexivity].
  - split; [exact (Hfanout VizDict 100%Z)|reflexivity].
  - split; [exact Hnodes|].
    rewrite extract_length. apply Nat.eqb_eq. vm_compute. reflexivity.
Defined.

End ExtractFacts.

(* ===================================================================== *)
(** * Further properties of the object graph                              *)
(* ===================================================================== *)

Module GraphFacts.
Import PyStr Heap Render Extract Examples ExtractFacts.

(** ** An induction principle for the traversal

    A property of the entries of [object_info_map] holds when the
    traversal is over if it holds of the entry a binding creates, is kept
    when a binding adds a name to an entry, holds of the entry a child
    creates, and is kept when an entry is marked as visited. *)

Lemma info_update_Forall (P : ident * obj_data -> Prop) m i g :
  (forall d, P (i, d) -> P (i, g d)) ->
  Forall P m -> Forall P (info_update m i g).
Proof.
  intros Hg. induction m as [|[k d] m IH]; intros Hm; simpl; [constructor|].
  apply Forall_cons in Hm as [Hd Hm].
  destruct (Z.eqb k i) eqn:Hki.
  - apply Z.eqb_eq in Hki. subst k. constructor; [apply Hg, Hd|exact Hm].
  - constructor; [exact Hd|apply IH, Hm].
Qed.

Section TraverseInduction.
Variables (P : ident * obj_data -> Prop) (h : heap)
          (variables : list (string * ident)).
Hypothesis P_bound :
  forall var_name v,
    In (var_name, v) variables -> startswith var_name "__" = false ->
    _is_visualizable_candidate h v = true ->
    P (v, {| item := v; names := [var_name];
             vizType := viz_type_of (obj_at h v);
             is_direct := true; visited_bfs := false |}).
Hypothesis P_alias :
  forall var_name v d,
    In (var_name, v) variables -> startswith var_name "__" = false ->
    _is_visualizable_candidate h v = true ->
    P (v, d) ->
    P (v, {| item := item d; names := names_add var_name (names d);
             vizType := vizType d; is_direct := true;
             visited_bfs := visited_bfs d |}).
Hypothesis P_child :
  forall v,
    _is_visualizable_candidate h v = true ->
    P (v, {| item := v; names := [];
             vizType := viz_type_of (obj_at h v);
             is_direct := false; visited_bfs := false |}).
Hypothesis P_visited : forall v d, P (v, d) -> P (v, mark_visited d).

Lemma seed_binding_Forall st b :
  In b variables ->
  Forall P (object_info_map st) ->
  Forall P (object_info_map (seed_binding h st b)).
Proof.
  intros Hb Hst. unfold seed_binding. destruct b as [var_name var_value].
  destruct (startswith var_name "__") eqn:Hd; [exact Hst|].
  destruct (_is_visualizable_candidate h var_value) eqn:Hc; [|exact Hst].
  simpl. destruct (negb (info_mem (object_info_map st) var_value)).
  - rewrite enqueue_unvisited_map. apply Forall_app. split; [exact Hst|].
    constructor; [|constructor]. apply P_bound; assumption.
  - simpl. apply info_update_Forall; [|exact Hst].
    intros d Hd'. apply (P_alias var_name var_value d); assumption.
Qed.

Lemma seed_Forall l :
  forall st,
    (forall b, In b l -> In b variables) ->
    Forall P (object_info_map st) ->
    Forall P (object_info_map (fold_left (seed_binding h) l st)).
Proof.
  induction l as [|b l IH]; intros st Hl Hst; simpl; [exact Hst|].
  apply IH.
  - intros b' Hb'. apply Hl. right. exact Hb'.
  - apply seed_binding_Forall; [apply Hl; left; reflexivity|exact Hst].
Qed.

Lemma visit_child_Forall st child :
  Forall P (object_info_map st) ->
  Forall P (object_info_map (visit_child h st child)).
Proof.
  intros Hst. unfold visit_child.
  destruct (_is_visualizable_candidate h child) eqn:Hc; simpl; [|exact Hst].
  rewrite enqueue_unvisited_map.
  destruct (negb (info_mem (object_info_map st) child)); [|exact Hst].
  apply Forall_app. split; [exact Hst|].
  constructor; [|constructor]. apply P_child. exact Hc.
Qed.

Lemma visit_children_Forall children :
  forall st,
    Forall P (object_info_map st) ->
    Forall P (object_info_map (fold_left (visit_child h) children st)).
Proof.
  induction children as [|c cs IH]; intros st Hst; simpl; [exact Hst|].
  apply IH, visit_child_Forall, Hst.
Qed.

Lemma bfs_loop_Forall :
  forall fuel st,
    Forall P (object_info_map st) ->
    Forall P (object_info_map (bfs_loop fuel h st)).
Proof.
  induction fuel as [|fuel IH]; intros st Hst; simpl; [exact Hst|].
  destruct (queue_bfs st) as [|current_obj queue']; [exact Hst|].
  destruct (items_processed_bfs st <? MAX_TRAVERSAL_ITEMS); [|exact Hst].
  destruct (info_lookup (object_info_map st) current_obj) as [d|].
  - destruct (visited_bfs d).
    + apply IH. exact Hst.
    + apply IH, visit_children_Forall. simpl.
      apply info_update_Forall; [|exact Hst].
      intros d'. apply P_visited.
  - apply IH. exact Hst.
Qed.

Lemma traverse_Forall : Forall P (object_info_map (traverse h variables)).
Proof.
  unfold traverse, seed. apply bfs_loop_Forall, seed_Forall.
  - auto.
  - constructor.
Qed.

End TraverseInduction.

(** ** What a node says of its entry *)

Lemma format_item_vizType depth h m i d :
  node_vizType (format_item depth h m (i, d)) = vizType d.
Proof. unfold format_item. format_cases. Qed.

Lemma format_item_direct depth h m i d :
  has_direct_reference (format_item depth h m (i, d)) = is_direct d.
Proof. unfold format_item. format_cases. Qed.

Lemma format_item_type depth h m i d :
  type (format_item depth h m (i, d)) = type_name (obj_at h (item d)).
Proof. unfold format_item. format_cases. Qed.

Lemma format_item_placeholder depth h m i d :
  names d = [] ->
  name (format_item depth h m (i, d))
  = "<" ^^ viz_name (vizType d) ^^ " @ " ^^ hex i ^^ ">".
Proof. intros Hn. unfold format_item. rewrite Hn. simpl sort_by. format_cases. Qed.

(** Every node is the formatting of an entry of the map. *)
Lemma sorted_nodes_from (f : ident * obj_data -> node) (m : info_map) n :
  In n (sort_by node_le (map f m)) -> exists e, In e m /\ n = f e.
Proof.
  intros Hn. apply (Permutation_in _ (sort_by_perm _ _)) in Hn.
  apply in_map_iff in Hn as (e & He & Hin). exists e. auto.
Qed.

(** The result, with the map named once. *)
Lemma extract_visualizables_eq depth h variables :
  extract_visualizables depth h variables
  = sort_by node_le
      (map (format_item depth h (object_info_map (traverse h variables)))
           (object_info_map (traverse h variables))).
Proof. reflexivity. Qed.

Lemma extract_node_entry depth h variables n :
  In n (extract_visualizables depth h variables) ->
  exists i d,
    In (i, d) (object_info_map (traverse h variables))
    /\ n = format_item depth h (object_info_map (traverse h variables)) (i, d).
Proof.
  rewrite extract_visualizables_eq.
  generalize (object_info_map (traverse h variables)). intros m Hn.
  apply sorted_nodes_from in Hn as ([i d] & He & Heq).
  exists i, d. split; assumption.
Qed.

(** ** Entries describe candidate objects *)

Definition entry_describes (h : heap) (e : ident * obj_data) : Prop :=
  item e.2 = e.1
  /\ vizType e.2 = viz_type_of (obj_at h e.1)
  /\ _is_visualizable_candidate h e.1 = true.

Lemma traverse_entries_describe h variables :
  Forall (entry_describes h) (object_info_map (traverse h variables)).
Proof.
  apply traverse_Forall; unfold entry_describes; simpl.
  - intros var_name v _ _ Hc. auto.
  - intros var_name v d _ _ _ H. exact H.
  - intros v Hc. auto.
  - intros v d H. exact H.
Qed.

(** X1.  The nodes of one graph have pairwise distinct identities. *)
Theorem graph_identities_are_distinct depth h variables :
  List.NoDup (map node_id (extract_visualizables depth h variables)).
Proof. apply extract_ids_NoDup. Qed.


(** ** References *)

(** The target of [r] has an entry, of the kind [r] states. *)
Definition ref_ok (m : info_map) (r : reference) : Prop :=
  exists d, info_lookup m (target_id r) = Some d /\ vizType d = target_type r.

Lemma ref_if_tracked_ok m label target :
  Forall (ref_ok m) (ref_if_tracked m label target).
Proof.
  unfold ref_if_tracked. destruct (info_lookup m target) as [d|] eqn:Hl;
    constructor; [|constructor].
  exists d. simpl. auto.
Qed.

Lemma format_fields_refs depth h m ctx attrs :
  forall fields refs,
    Forall (ref_ok m) refs ->
    Forall (ref_ok m) (format_fields depth h m ctx attrs fields refs).1.2.
Proof.
  induction attrs as [|[field_name field_value] rest IH]; intros fields refs Hrefs;
    cbn [format_fields]; [exact Hrefs|].
  destruct (startswith field_name "__"); [apply IH, Hrefs|].
  destruct (render_in depth h m ctx field_value); [|exact Hrefs].
  apply IH. apply Forall_app. split; [exact Hrefs|apply ref_if_tracked_ok].
Qed.

Lemma format_elements_refs depth h m ctx items :
  forall item_idx elements refs,
    Forall (ref_ok m) refs ->
    Forall (ref_ok m)
           (format_elements depth h m ctx items item_idx elements refs).1.2.
Proof.
  induction items as [|element rest IH]; intros item_idx elements refs Hrefs;
    cbn [format_elements]; [exact Hrefs|].
  destruct (render_in depth h m ctx element); [|exact Hrefs].
  apply IH. apply Forall_app. split; [exact Hrefs|apply ref_if_tracked_ok].
Qed.

Lemma format_pairs_refs depth h m ctx items :
  forall pairs refs,
    Forall (ref_ok m) refs ->
    Forall (ref_ok m) (format_pairs depth h m ctx items pairs refs).1.2.
Proof.
  induction items as [|[key value] rest IH]; intros pairs refs Hrefs;
    cbn [format_pairs]; [exact Hrefs|].
  destruct (render_in depth h m ctx key); [|exact Hrefs].
  destruct (render_in depth h m ctx value); [|exact Hrefs].
  apply IH. repeat (apply Forall_app; split);
    [exact Hrefs|apply ref_if_tracked_ok|apply ref_if_tracked_ok].
Qed.

Lemma format_set_elements_refs depth h m ctx items :
  forall elems refs,
    Forall (ref_ok m) refs ->
    Forall (ref_ok m) (format_set_elements depth h m ctx items elems refs).1.2.
Proof.
  induction items as [|element rest IH]; intros elems refs Hrefs;
    cbn [format_set_elements]; [exact Hrefs|].
  destruct (render_in depth h m ctx element); [|exact Hrefs].
  apply IH. apply Forall_app. split; [exact Hrefs|apply ref_if_tracked_ok].
Qed.

Lemma numpy_flat_refs_ok m flat : Forall (ref_ok m) (numpy_flat_refs m flat).
Proof.
  unfold numpy_flat_refs. generalize (combine (seq 0 20) flat).
  induction l as [|[idx element] l IH]; simpl; [constructor|].
  apply Forall_app. split; [apply ref_if_tracked_ok|exact IH].
Qed.

Lemma no_refs_ok m : Forall (ref_ok m) [].
Proof. constructor. Qed.

Lemma format_item_refs depth h m e :
  Forall (ref_ok m) (references (format_item depth h m e)).
Proof.
  destruct e as [i d]. unfold format_item.
  destruct (vizType d).
  - destruct (obj_at h (item d)); simpl; try constructor.
    destruct attrs as [attrs|].
    + pose proof (format_fields_refs depth h m i attrs [] [] (no_refs_ok m)) as H.
      destruct (format_fields depth h m i attrs [] []) as [[fields refs] failure].
      exact H.
    + destruct depth; constructor.
  - pose proof (format_elements_refs depth h m i (iter_items (obj_at h (item d)))
                                     0 [] [] (no_refs_ok m)) as H.
    destruct (format_elements _ _ _ _ _ _ _ _) as [[elements refs] failure].
    destruct failure; exact H.
  - pose proof (format_pairs_refs depth h m i
                  match obj_at h (item d) with VDict ps => ps | _ => [] end
                  [] [] (no_refs_ok m)) as H.
    destruct (format_pairs _ _ _ _ _ _ _) as [[pairs refs] failure].
    destruct failure; exact H.
  - destruct (obj_at h (item d)); simpl; try constructor.
    destruct (_safe_repr _ _ _ _ _ _); simpl; [|constructor].
    destruct (String.eqb dtype "object"); [apply numpy_flat_refs_ok|constructor].
  - pose proof (format_elements_refs depth h m i (iter_items (obj_at h (item d)))
                                     0 [] [] (no_refs_ok m)) as H.
    destruct (format_elements _ _ _ _ _ _ _ _) as [[elements refs] failure].
    destruct failure; exact H.
  - destruct (sorted_or_listed _ _) as [sorted_elements|e]; [|constructor].
    pose proof (format_set_elements_refs depth h m i sorted_elements
                                         [] [] (no_refs_ok m)) as H.
    destruct (format_set_elements _ _ _ _ _ _ _) as [[elems refs] failure].
    destruct failure; exact H.
Qed.

(** The nodes of a map whose keys are distinct, for any order of the
    nodes: every reference of a node points to a node. *)
Lemma sorted_nodes_refs_closed depth h (m : info_map) :
  Forall (fun n =>
            Forall (fun r =>
                      exists n',
                        In n' (sort_by node_le (map (format_item depth h m) m))
                        /\ node_id n' = target_id r
                        /\ node_vizType n' = target_type r)
                   (references n))
         (sort_by node_le (map (format_item depth h m) m)).
Proof.
  apply Forall_forall. intros n Hn. apply list_elem_of_In in Hn.
  apply sorted_nodes_from in Hn as (e & He & ->).
  eapply Forall_impl; [apply format_item_refs|].
  intros r (d' & Hl & Hviz).
  exists (format_item depth h m (target_id r, d')).
  split; [apply sorted_nodes_have, info_lookup_In, Hl|].
  rewrite format_item_id, format_item_vizType. auto.
Qed.

(** X3.  Every outgoing reference of a node points to a node of the same
    graph, and states the kind of that node. *)
Theorem graph_references_point_to_nodes depth h variables :
  Forall (fun n =>
            Forall (fun r =>
                      exists n',
                        In n' (extract_visualizables depth h variables)
                        /\ node_id n' = target_id r
                        /\ node_vizType n' = target_type r)
                   (references n))
         (extract_visualizables depth h variables).
Proof.
  rewrite extract_visualizables_eq. apply sorted_nodes_refs_closed.
Qed.

(** ** The order of the nodes *)

Lemma node_le_total a b : node_le a b = true \/ node_le b a = true.
Proof.
  unfold node_le. simpl.
  destruct (has_direct_reference a), (has_direct_reference b); simpl; auto.
  - destruct (kind_priority (node_vizType a) =? kind_priority (node_vizType b))
      eqn:Hk.
    + rewrite Nat.eqb_sym, Hk. apply String.leb_total.
    + rewrite Nat.eqb_sym, Hk.
      apply Nat.eqb_neq in Hk.
      destruct (Nat.ltb_spec (kind_priority (node_vizType a))
                             (kind_priority (node_vizType b))); [auto|].
      right. apply Nat.ltb_lt. lia.
  - destruct (kind_priority (node_vizType a) =? kind_priority (node_vizType b))
      eqn:Hk.
    + rewrite Nat.eqb_sym, Hk. apply String.leb_total.
    + rewrite Nat.eqb_sym, Hk.
      apply Nat.eqb_neq in Hk.
      destruct (Nat.ltb_spec (kind_priority (node_vizType a))
                             (kind_priority (node_vizType b))); [auto|].
      right. apply Nat.ltb_lt. lia.
Qed.

(** [sorted(...)] by a total comparison: neighbours are in order. *)
Section SortBy.
Context {A : Type} (le : A -> A -> bool).
Hypothesis le_total : forall a b, le a b = true \/ le b a = true.

Let R (a b : A) : Prop := le a b = true.

Lemma insert_by_HdRel y x l :
  R y x -> HdRel R y l ->
  HdRel R y (insert_by (fun a b => negb (le b a)) x l).
Proof.
  intros Hyx Hl. destruct l as [|z l]; simpl; [constructor; exact Hyx|].
  destruct (negb (le x z)); constructor; [|exact Hyx].
  inversion Hl; assumption.
Qed.

Lemma insert_by_Sorted x l :
  Sorted R l -> Sorted R (insert_by (fun a b => negb (le b a)) x l).
Proof.
  induction l as [|y l IH]; intros Hl; simpl.
  - constructor; constructor.
  - inversion Hl as [|? ? Hl' Hhd]; subst.
    destruct (le x y) eqn:Hxy; simpl.
    + constructor; [exact Hl|]. constructor. exact Hxy.
    + constructor; [apply IH, Hl'|].
      apply insert_by_HdRel; [|exact Hhd].
      destruct (le_total x y) as [H|H]; [congruence|exact H].
Qed.

Lemma sort_by_Sorted l : Sorted R (sort_by le l).
Proof.
  unfold sort_by. induction l as [|x l IH]; simpl; [constructor|].
  apply insert_by_Sorted, IH.
Qed.

End SortBy.

(** The rank the first two components of the sort key give: nodes with a
    direct binding first, then by kind. *)
Definition rank (n : node) : nat :=
  (if has_direct_reference n then 0 else 4) + kind_priority (node_vizType n).

Lemma kind_priority_le_3 t : kind_priority t <= 3.
Proof. destruct t; simpl; lia. Qed.

Lemma node_le_rank a b : node_le a b = true -> rank a <= rank b.
Proof.
  unfold node_le, rank. simpl.
  pose proof (kind_priority_le_3 (node_vizType a)).
  pose proof (kind_priority_le_3 (node_vizType b)).
  destruct (has_direct_reference a), (has_direct_reference b); simpl;
    try discriminate; try lia.
  - destruct (kind_priority (node_vizType a) =? kind_priority (node_vizType b))
      eqn:Hk; [apply Nat.eqb_eq in Hk; lia|].
    intros Hlt. apply Nat.ltb_lt in Hlt. lia.
  - destruct (kind_priority (node_vizType a) =? kind_priority (node_vizType b))
      eqn:Hk; [apply Nat.eqb_eq in Hk; lia|].
    intros Hlt. apply Nat.ltb_lt in Hlt. lia.
Qed.

Lemma sorted_nodes_ranked (l : list node) :
  StronglySorted (fun a b => rank a <= rank b) (sort_by node_le l).
Proof.
  apply Sorted_StronglySorted.
  - intros a b c Hab Hbc. lia.
  - pose proof (sort_by_Sorted node_le node_le_total l) as Hs.
    induction Hs as [|a l' Hl' IH Hhd]; constructor; [exact IH|].
    destruct Hhd; constructor. apply node_le_rank. assumption.
Qed.

(** X4.  Wherever the returned list is cut, the node at the cut is not
    after its successor in the sort key (direct binding first, then kind
    priority, then display name), and every later node has the
    direct-binding flag only if the node at the cut has it and, under the
    same flag, a kind priority that is not lower (object, mapping, set,
    then the sequence-like kinds). *)
Theorem graph_nodes_are_ordered depth h variables before a after :
  extract_visualizables depth h variables = before ++ a :: after ->
  HdRel (fun x y => node_le x y = true) a after
  /\ Forall (fun b =>
               (has_direct_reference b = true -> has_direct_reference a = true)
               /\ (has_direct_reference a = has_direct_reference b ->
                   kind_priority (node_vizType a)
                   <= kind_priority (node_vizType b)))
            after.
Proof.
  rewrite extract_visualizables_eq.
  generalize (map (format_item depth h (object_info_map (traverse h variables)))
                  (object_info_map (traverse h variables))).
  intros l Hsplit. split.
  - pose proof (sort_by_Sorted node_le node_le_total l) as Hs.
    rewrite Hsplit in Hs. clear Hsplit.
    induction before as [|p before IH]; simpl in Hs.
    + inversion Hs; assumption.
    + inversion Hs; auto.
  - pose proof (sorted_nodes_ranked l) as Hs. rewrite Hsplit in Hs.
    clear Hsplit.
    assert (Forall (fun b => rank a <= rank b) after) as Htail.
    { induction before as [|p before IH]; simpl in Hs.
      - apply StronglySorted_inv in Hs as [_ Hall].
        apply Forall_forall. intros b Hb.
        rewrite List.Forall_forall in Hall. apply Hall.
        apply list_elem_of_In. exact Hb.
      - apply StronglySorted_inv in Hs as [Hs _]. apply IH, Hs. }
    eapply Forall_impl; [exact Htail|].
    intros b Hrank. unfold rank in Hrank.
    pose proof (kind_priority_le_3 (node_vizType a)).
    pose proof (kind_priority_le_3 (node_vizType b)).
    destruct (has_direct_reference a), (has_direct_reference b); simpl in *;
      split; intros; try discriminate; auto; lia.
Qed.

Lemma graph_nodes_are_ordered_witness :
  exists a after,
    extract_visualizables 200 small_heap [("x", 10%Z); ("z", 12%Z)]
    = [] ++ a :: after
    /\ after <> []
    /\ HdRel (fun x y => node_le x y = true) a after
    /\ Forall (fun b =>
                 (has_direct_reference b = true -> has_direct_reference a = true)
                 /\ (has_direct_reference a = has_direct_reference b ->
                     kind_priority (node_vizType a)
                     <= kind_priority (node_vizType b)))
              after.
Proof.
  eexists. eexists.
  split; [vm_compute; reflexivity|].
  split; [discriminate|].
  apply (graph_nodes_are_ordered 200 small_heap [("x", 10%Z); ("z", 12%Z)] []).
  vm_compute. reflexivity.
Defined.

(** ** Direct bindings *)

Definition entry_bound (variables : list (string * ident))
    (e : ident * obj_data) : Prop :=
  (is_direct e.2 = true <-> names e.2 <> [])
  /\ forall n, In n (names e.2) ->
               In (n, e.1) variables /\ startswith n "__" = false.

Lemma names_add_elim name ns n :
  In n (names_add name ns) -> n = name \/ In n ns.
Proof.
  unfold names_add. destruct (existsb _ ns); [auto|].
  intros H. apply in_app_or in H as [H|[H|[]]]; auto.
Qed.

Lemma traverse_entries_bound h variables :
  Forall (entry_bound variables) (object_info_map (traverse h variables)).
Proof.
  apply traverse_Forall; unfold entry_bound; simpl.
  - intros var_name v Hin Hd _. split; [split; [discriminate|reflexivity]|].
    intros n [<-|[]]. auto.
  - intros var_name v d Hin Hd _ [_ Hnames]. split.
    + split; [|reflexivity]. intros _ Hnil.
      pose proof (names_add_In var_name (names d)) as H. rewrite Hnil in H.
      destruct H.
    + intros n Hn. apply names_add_elim in Hn as [->|Hn]; auto.
  - intros v _. split; [split; [discriminate|intros H; exfalso; apply H; reflexivity]|].
    intros n [].
  - intros v d H. exact H.
Qed.

Lemma info_lookup_of_In m i d :
  NoDup (info_keys m) -> In (i, d) m -> info_lookup m i = Some d.
Proof.
  unfold info_keys. induction m as [|[k x] m IH]; intros Hnd Hin; [destruct Hin|].
  simpl in *. apply NoDup_cons in Hnd as [Hk Hnd].
  destruct Hin as [Heq|Hin].
  - injection Heq as -> ->. rewrite Z.eqb_refl. reflexivity.
  - destruct (Z.eqb k i) eqn:Hki; [|apply IH; assumption].
    apply Z.eqb_eq in Hki. subst k. exfalso. apply Hk.
    apply list_elem_of_In. apply (in_map fst) in Hin. exact Hin.
Qed.

(** X5.  A node has the direct-binding flag exactly when a name of the
    scope that does not start with two underscores is bound to its
    identity; a node without the flag carries the placeholder name made of
    its kind and identity. *)
Theorem direct_flag_means_bound_by_name depth h variables :
  Forall (fun n =>
            (has_direct_reference n = true <->
             exists var_name,
               In (var_name, node_id n) variables
               /\ startswith var_name "__" = false)
            /\ (has_direct_reference n = false ->
                name n = "<" ^^ viz_name (node_vizType n) ^^ " @ "
                         ^^ hex (node_id n) ^^ ">"))
         (extract_visualizables depth h variables).
Proof.
  apply Forall_forall. intros n Hn. apply list_elem_of_In in Hn.
  apply extract_node_entry in Hn as (i & d & He & ->).
  pose proof (traverse_entries_bound h variables) as Hbound.
  pose proof (traverse_entries_describe h variables) as Hdesc.
  pose proof (traverse_NoDup h variables) as Hnd.
  assert (forall var_name,
             In (var_name, i) variables -> startswith var_name "__" = false ->
             _is_visualizable_candidate h i = true ->
             In var_name (names_of (object_info_map (traverse h variables)) i))
    as Hnames.
  { intros var_name Hin Hd Hc. apply traverse_names; assumption. }
  revert He Hbound Hdesc Hnd Hnames.
  generalize (object_info_map (traverse h variables)).
  intros m He Hbound Hdesc Hnd Hnames.
  rewrite Forall_forall in Hbound, Hdesc.
  destruct (Hbound (i, d)) as [Hflag Hsub]; [apply list_elem_of_In, He|].
  destruct (Hdesc (i, d)) as (_ & _ & Hcand); [apply list_elem_of_In, He|].
  cbn [fst snd] in *.
  rewrite format_item_id, format_item_direct, format_item_vizType.
  split; [split|].
  - intros Hdirect. apply Hflag in Hdirect.
    destruct (names d) as [|n0 ns] eqn:Hn; [congruence|].
    exists n0. apply Hsub. left. reflexivity.
  - intros (var_name & Hin & Hd). apply Hflag.
    specialize (Hnames var_name Hin Hd Hcand). unfold names_of in Hnames.
    rewrite (info_lookup_of_In m i d Hnd He) in Hnames.
    intros Hnil. rewrite Hnil in Hnames. destruct Hnames.
  - intros Hdirect. apply format_item_placeholder.
    destruct (names d) as [|n0 ns] eqn:Hn; [reflexivity|].
    assert (is_direct d = true) as Ht by (apply Hflag; discriminate).
    congruence.
Qed.


(** ** The payload of a node *)

Lemma format_elements_indices depth h m ctx items :
  forall item_idx elements refs elements' refs',
    format_elements depth h m ctx items item_idx elements refs
    = (elements', refs', None) ->
    map fst elements' = map fst elements ++ seq item_idx (length items).
Proof.
  induction items as [|element rest IH]; intros item_idx elements refs elements' refs';
    cbn [format_elements].
  - intros [= <- _]. simpl. symmetry. apply app_nil_r.
  - destruct (render_in depth h m ctx element) as [element_repr|e]; [|discriminate].
    intros Hrest. apply IH in Hrest. rewrite Hrest, map_app, <- app_assoc.
    reflexivity.
Qed.

Lemma format_pairs_length depth h m ctx items :
  forall pairs refs pairs' refs',
    format_pairs depth h m ctx items pairs refs = (pairs', refs', None) ->
    length pairs' = length pairs + length items.
Proof.
  induction items as [|[key value] rest IH]; intros pairs refs pairs' refs';
    cbn [format_pairs].
  - intros [= <- _]. simpl. lia.
  - destruct (render_in depth h m ctx key) as [key_repr|e]; [|discriminate].
    destruct (render_in depth h m ctx value) as [value_repr|e]; [|discriminate].
    intros Hrest. apply IH in Hrest. rewrite Hrest, length_app. simpl. lia.
Qed.

Lemma format_set_elements_length depth h m ctx items :
  forall elems refs elems' refs',
    format_set_elements depth h m ctx items elems refs = (elems', refs', None) ->
    length elems' = length elems + length items.
Proof.
  induction items as [|element rest IH]; intros elems refs elems' refs';
    cbn [format_set_elements].
  - intros [= <- _]. simpl. lia.
  - destruct (render_in depth h m ctx element) as [element_repr|e]; [|discriminate].
    intros Hrest. apply IH in Hrest. rewrite Hrest, length_app. simpl. lia.
Qed.

Lemma len_cat a b : len (a ^^ b) = len a + len b.
Proof.
  unfold len, cat. induction a as [|x a IH]; [reflexivity|].
  change (S (String.length (String.append a b))
          = S (String.length a + String.length b)).
  rewrite IH. reflexivity.
Qed.

Lemma len_take n s : len (take n s) <= n.
Proof.
  unfold len. revert s. induction n as [|n IH]; intros [|c s]; simpl; try lia.
  specialize (IH s). lia.
Qed.

Lemma len_truncate n r : len (truncate n r) <= n + 3.
Proof.
  unfold truncate. destruct (Nat.ltb_spec n (len r)); [|lia].
  rewrite len_cat. pose proof (len_take n r). change (len "...") with 3. lia.
Qed.

Lemma numpy_string_preview_length text : len (numpy_string_preview text) <= 300.
Proof.
  unfold numpy_string_preview. destruct text as [array_str_full|e].
  - match goal with
    | |- context [if 300 <? len ?p then _ else _] =>
        destruct (Nat.ltb_spec 300 (len p)); [|assumption]
    end.
    rewrite len_cat. change (len "...") with 3.
    match goal with
    | |- context [len (take ?n ?s)] => pose proof (len_take n s)
    end.
    lia.
  - rewrite !len_cat. unfold render_exn.
    pose proof (len_truncate default_max_len (repr_exn e)).
    change (len "<Error getting str preview: ") with 28.
    change (len ">") with 1. unfold default_max_len in *. lia.
Qed.

(** What the payload of a node holds, by its kind. *)
Definition payload_agrees (n : node) : Prop :=
  match node_payload n with
  | ObjectFields _ => node_vizType n = VizObject
  | ArrayElements elements length =>
      (node_vizType n = VizArray \/ node_vizType n = VizDeque)
      /\ forall k, length = Some k -> map fst elements = seq 0 k
  | DictPairs pairs length =>
      node_vizType n = VizDict
      /\ forall k, length = Some k -> List.length pairs = k
  | SetElements set_elements length =>
      node_vizType n = VizSet
      /\ forall k, length = Some k -> List.length set_elements = k
  | NumpyInfo _ _ _ _ string_preview =>
      node_vizType n = VizNumpyArray /\ len string_preview <= 300
  end.

Lemma format_item_payload depth h m e : payload_agrees (format_item depth h m e).
Proof.
  destruct e as [i d]. unfold format_item, payload_agrees.
  destruct (vizType d).
  - destruct (obj_at h (item d)); try reflexivity.
    destruct attrs as [attrs|]; [|destruct depth; reflexivity].
    destruct (format_fields depth h m i attrs [] []) as [[fields refs] failure].
    reflexivity.
  - destruct (format_elements _ _ _ _ _ _ _ _) as [[elements refs] failure] eqn:Hf.
    destruct failure; cbn [node_payload node_vizType]; (split; [left; reflexivity|]).
    + discriminate.
    + intros k [= <-]. apply format_elements_indices in Hf. exact Hf.
  - destruct (format_pairs _ _ _ _ _ _ _) as [[pairs refs] failure] eqn:Hf.
    destruct failure; cbn [node_payload node_vizType]; (split; [reflexivity|]).
    + discriminate.
    + intros k [= <-]. apply format_pairs_length in Hf. exact Hf.
  - destruct (obj_at h (item d)); cbn [node_payload node_vizType];
      try (split; [reflexivity|simpl; lia]).
    destruct (_safe_repr _ _ _ _ _ _); cbn [node_payload node_vizType];
      (split; [reflexivity|]); [apply numpy_string_preview_length|simpl; lia].
  - destruct (format_elements _ _ _ _ _ _ _ _) as [[elements refs] failure] eqn:Hf.
    destruct failure; cbn [node_payload node_vizType]; (split; [right; reflexivity|]).
    + discriminate.
    + intros k [= <-]. apply format_elements_indices in Hf. exact Hf.
  - destruct (sorted_or_listed _ _) as [sorted_elements|e];
      [|cbn [node_payload node_vizType]; split; [reflexivity|discriminate]].
    destruct (format_set_elements _ _ _ _ _ _ _) as [[elems refs] failure] eqn:Hf.
    destruct failure; cbn [node_payload node_vizType]; (split; [reflexivity|]).
    + discriminate.
    + intros k [= <-]. apply format_set_elements_length in Hf. exact Hf.
Qed.

(** X23.  The payload of every node of the graph is the one of its
    kind.  When a sequence, mapping or set node states a length (and not
    the ['?'] that stands for a failure), it lists that many entries, a
    sequence node with the indices 0, 1, ... in order; the text preview of
    a numeric array has at most 300 characters. *)
Theorem node_payload_agrees_with_its_kind depth h variables :
  Forall (fun n =>
            match node_payload n with
            | ObjectFields _ => node_vizType n = VizObject
            | ArrayElements elements length =>
                (node_vizType n = VizArray \/ node_vizType n = VizDeque)
                /\ forall k, length = Some k -> map fst elements = seq 0 k
            | DictPairs pairs length =>
                node_vizType n = VizDict
                /\ forall k, length = Some k -> List.length pairs = k
            | SetElements set_elements length =>
                node_vizType n = VizSet
                /\ forall k, length = Some k -> List.length set_elements = k
            | NumpyInfo _ _ _ _ string_preview =>
                node_vizType n = VizNumpyArray /\ len string_preview <= 300
            end)
         (extract_visualizables depth h variables).
Proof.
  apply Forall_forall. intros n Hn. apply list_elem_of_In in Hn.
  apply extract_node_entry in Hn as (i & d & _ & ->).
  apply (format_item_payload depth h).
Qed.

End GraphFacts.

(* ===================================================================== *)
(** * The numbering of the call event log                                 *)
(* ===================================================================== *)

Module CallLogFacts.
Import PyStr Heap Render Extract Session Examples SessionFacts.

(** What the two call hooks keep true of the call-log part of the state:
    no id in the log or on a stack is above the counter; every id on the
    logged stack has its call record; the logged stack has no id twice;
    an id with a return record is no longer on the logged stack; every
    record before a call record has a smaller id; the parent of a call
    record has its call record earlier; no two return records share an
    id. *)
Definition numbering_inv (d : debugger) : Prop :=
  (forall e, In e (call_event_log d) -> event_call_id e <= call_id_counter d)
  /\ (forall c, In c (active_call_ids_stack d) -> c <= call_id_counter d)
  /\ (forall c, In c (logged_call_ids_stack d) ->
        c <= call_id_counter d
        /\ exists j e, call_event_log d !! j = Some e /\ is_call_of c e = true)
  /\ List.NoDup (logged_call_ids_stack d)
  /\ (forall c r t, In (ReturnEvent c r t) (call_event_log d) ->
                    ~ In c (logged_call_ids_stack d))
  /\ (forall i j e c p fn a l t,
        i < j -> call_event_log d !! i = Some e ->
        call_event_log d !! j = Some (CallEvent c p fn a l t) ->
        event_call_id e < c)
  /\ (forall j c q fn a l t,
        call_event_log d !! j = Some (CallEvent c (Some q) fn a l t) ->
        exists i e, i < j /\ call_event_log d !! i = Some e
                    /\ is_call_of q e = true)
  /\ (forall i j c r t r' t',
        call_event_log d !! i = Some (ReturnEvent c r t) ->
        call_event_log d !! j = Some (ReturnEvent c r' t') -> i = j).

Lemma lookup_In {A} (l : list A) i x : l !! i = Some x -> In x l.
Proof. intros H. apply list_elem_of_In. eapply list_elem_of_lookup_2, H. Qed.

Lemma NoDup_snoc_fresh (l : list nat) x :
  List.NoDup l -> ~ In x l -> List.NoDup (l ++ [x]).
Proof.
  intros Hl Hx. apply List.NoDup_app; [exact Hl|repeat constructor; intros []|].
  intros a Ha [<-|[]]. contradiction.
Qed.

Lemma NoDup_removelast (l : list nat) :
  List.NoDup l -> List.NoDup (removelast l).
Proof.
  destruct (last l) as [x|] eqn:Hlast.
  - apply last_Some in Hlast as [l' ->]. rewrite removelast_last.
    apply NoDup_app_remove_r.
  - apply last_None in Hlast. subst. auto.
Qed.

Lemma NoDup_pop_if_top stack i :
  List.NoDup stack -> List.NoDup (pop_if_top stack i).
Proof.
  unfold pop_if_top. destruct (top stack) as [t|]; auto.
  destruct (t =? i); auto. apply NoDup_removelast.
Qed.

Lemma popped_top_is_gone stack c :
  List.NoDup stack -> is_top stack c = true -> ~ In c (pop_if_top stack c).
Proof.
  unfold is_top, pop_if_top, top. intros Hnd Htop.
  destruct (last stack) as [t|] eqn:Hlast; [|discriminate].
  rewrite Htop. apply Nat.eqb_eq in Htop. subst t.
  apply last_Some in Hlast as [l' ->]. rewrite removelast_last.
  intros Hin. apply NoDup_remove_2 in Hnd. apply Hnd.
  rewrite app_nil_r. exact Hin.
Qed.

(** A state that differs from one with the invariant by a larger counter,
    more on the active stack within the counter, and less on the logged
    stack. *)
Lemma numbering_inv_weaken d counter active logged :
  numbering_inv d ->
  call_id_counter d <= counter ->
  (forall c, In c active -> c <= counter) ->
  (forall c, In c logged -> In c (logged_call_ids_stack d)) ->
  List.NoDup logged ->
  numbering_inv (with_calls d counter (call_event_log d) active logged).
Proof.
  intros (Hlog & Hact & Hlogged & Hnd & Hclosed & Hord & Hpar & Honce)
         Hle Hact' Hsub Hnd'.
  unfold numbering_inv. simpl. repeat split; auto.
  - intros e He. specialize (Hlog e He). lia.
  - destruct (Hlogged c (Hsub c H)) as [Hc _]. lia.
  - destruct (Hlogged c (Hsub c H)) as [_ Hc]. exact Hc.
  - intros c r t Hin Hc. apply (Hclosed c r t Hin). apply Hsub, Hc.
Qed.

Lemma user_call_numbering env d h f :
  numbering_inv d -> numbering_inv (user_call env d h f).
Proof.
  intros Hinv. unfold user_call.
  assert (numbering_inv
            (with_calls d (S (call_id_counter d)) (call_event_log d)
               (active_call_ids_stack d ++ [S (call_id_counter d)])
               (logged_call_ids_stack d))) as Hd1.
  { apply numbering_inv_weaken; auto.
    - intros c Hc. apply in_app_or in Hc as [Hc|[<-|[]]]; [|lia].
      destruct Hinv as (_ & Hact & _). specialize (Hact c Hc). lia.
    - destruct Hinv as (_ & _ & _ & Hnd & _). exact Hnd. }
  destruct (negb (is_debugger_internal env f) && negb (is_bdb_internal f));
    [|exact Hd1].
  destruct (if negb (String.eqb (function_name_of f) "<module>")
            then _get_frame_args_and_values (recursion_depth env) h f ∅
            else Ok "N/A (module scope)") as [args_repr|e]; [|exact Hd1].
  clear Hd1.
  destruct Hinv as (Hlog & Hact & Hlogged & Hnd & Hclosed & Hord & Hpar & Honce).
  unfold numbering_inv. cbn [with_calls call_id_counter call_event_log
                             active_call_ids_stack logged_call_ids_stack
                             current_step].
  set (n := call_id_counter d) in *.
  set (new := CallEvent (S n) _ _ _ _ _).
  repeat split.
  - intros e He. apply in_app_or in He as [He|[<-|[]]]; [|simpl; lia].
    specialize (Hlog e He). lia.
  - intros c Hc. apply in_app_or in Hc as [Hc|[<-|[]]]; [|lia].
    specialize (Hact c Hc). lia.
  - apply in_app_or in H as [Hc|[<-|[]]]; [|lia].
    destruct (Hlogged c Hc) as [Hb _]. lia.
  - apply in_app_or in H as [Hc|[<-|[]]].
    + destruct (Hlogged c Hc) as (_ & j & e & Hj & He).
      exists j, e. split; [|exact He].
      rewrite lookup_app_l by (eapply lookup_lt_Some; exact Hj). exact Hj.
    + exists (length (call_event_log d)), new. split.
      * rewrite lookup_app_r by lia. rewrite Nat.sub_diag. reflexivity.
      * simpl. apply Nat.eqb_refl.
  - apply NoDup_snoc_fresh; [exact Hnd|].
    intros Hin. destruct (Hlogged _ Hin) as [Hb _]. lia.
  - intros c r t Hin Hc.
    apply in_app_or in Hin as [Hin|[Heq|[]]]; [|discriminate].
    apply in_app_or in Hc as [Hc|[<-|[]]].
    + exact (Hclosed c r t Hin Hc).
    + specialize (Hlog _ Hin). simpl in Hlog. lia.
  - intros i j e c p fn a l t Hij Hi Hj.
    apply lookup_snoc_Some in Hj as [[Hjlt Hj]|[-> Hj]].
    + apply lookup_snoc_Some in Hi as [[_ Hi]|[-> _]]; [|lia].
      exact (Hord i j e c p fn a l t Hij Hi Hj).
    + apply lookup_snoc_Some in Hi as [[_ Hi]|[-> _]]; [|lia].
      injection Hj as <- _ _ _ _ _.
      apply lookup_In in Hi. specialize (Hlog e Hi). lia.
  - intros j c q fn a l t Hj.
    apply lookup_snoc_Some in Hj as [[Hjlt Hj]|[-> Hj]].
    + destruct (Hpar j c q fn a l t Hj) as (i & e & Hij & Hi & He).
      exists i, e. repeat split; auto.
      rewrite lookup_app_l by lia. exact Hi.
    + injection Hj as _ Htop _ _ _ _.
      apply top_In in Htop.
      destruct (Hlogged q Htop) as (_ & i & e & Hi & He).
      exists i, e. repeat split; auto.
      * eapply lookup_lt_Some; exact Hi.
      * rewrite lookup_app_l by (eapply lookup_lt_Some; exact Hi). exact Hi.
  - intros i j c r t r' t' Hi Hj.
    apply lookup_snoc_Some in Hi as [[_ Hi]|[_ Hi]]; [|discriminate].
    apply lookup_snoc_Some in Hj as [[_ Hj]|[_ Hj]]; [|discriminate].
    exact (Honce i j c r t r' t' Hi Hj).
Qed.

Lemma user_return_numbering env d h f v :
  numbering_inv d -> numbering_inv (user_return env d h f v).
Proof.
  intros Hinv. unfold user_return.
  destruct (top (active_call_ids_stack d)) as [returned_call_id|] eqn:Htop;
    [|exact Hinv].
  cbn [with_calls call_id_counter call_event_log active_call_ids_stack
       logged_call_ids_stack current_step].
  assert (forall logged,
             (forall c, In c logged -> In c (logged_call_ids_stack d)) ->
             List.NoDup logged ->
             numbering_inv
               (with_calls d (call_id_counter d) (call_event_log d)
                  (removelast (active_call_ids_stack d)) logged)) as Hweak.
  { intros logged Hsub Hnd'. apply numbering_inv_weaken; auto.
    intros c Hc. apply In_removelast in Hc.
    destruct Hinv as (_ & Hact & _). auto. }
  assert (List.NoDup (logged_call_ids_stack d)) as Hnd
      by (destruct Hinv as (_ & _ & _ & Hnd & _); exact Hnd).
  match goal with
  | |- context [if ?c then _ else _] => destruct c eqn:Hcond
  end.
  - destruct (_safe_repr _ _ _ _ _ _) as [return_value_repr|e].
    + apply andb_prop in Hcond as [_ Hlogtop].
      pose proof (popped_top_is_gone _ _ Hnd Hlogtop) as Hgone.
      pose proof (is_top_In _ _ Hlogtop) as Hin_top.
      destruct Hinv as (Hlog & Hact & Hlogged & _ & Hclosed & Hord & Hpar & Honce).
      unfold numbering_inv.
      cbn [with_calls call_id_counter call_event_log active_call_ids_stack
           logged_call_ids_stack current_step].
      repeat split.
      * intros e He. apply in_app_or in He as [He|[<-|[]]]; [auto|].
        simpl. apply Hact, top_In, Htop.
      * intros c Hc. apply In_removelast in Hc. auto.
      * apply In_pop_if_top in H. apply Hlogged, H.
      * apply In_pop_if_top in H.
        destruct (Hlogged c H) as (_ & j & e & Hj & He).
        exists j, e. split; [|exact He].
        rewrite lookup_app_l by (eapply lookup_lt_Some; exact Hj). exact Hj.
      * apply NoDup_pop_if_top, Hnd.
      * intros c r t Hin Hc.
        apply in_app_or in Hin as [Hin|[Heq|[]]].
        -- apply (Hclosed c r t Hin). eapply In_pop_if_top, Hc.
        -- injection Heq as -> _ _. exact (Hgone Hc).
      * intros i j e c p fn a l t Hij Hi Hj.
        apply lookup_snoc_Some in Hj as [[Hjlt Hj]|[_ Hj]]; [|discriminate].
        apply lookup_snoc_Some in Hi as [[_ Hi]|[-> _]]; [|lia].
        exact (Hord i j e c p fn a l t Hij Hi Hj).
      * intros j c q fn a l t Hj.
        apply lookup_snoc_Some in Hj as [[Hjlt Hj]|[_ Hj]]; [|discriminate].
        destruct (Hpar j c q fn a l t Hj) as (i & e & Hij & Hi & He).
        exists i, e. repeat split; auto.
        rewrite lookup_app_l by lia. exact Hi.
      * intros i j c r t r' t' Hi Hj.
        apply lookup_snoc_Some in Hi as [[Hilt Hi]|[-> Hi]];
          apply lookup_snoc_Some in Hj as [[Hjlt Hj]|[-> Hj]]; auto.
        -- exact (Honce i j c r t r' t' Hi Hj).
        -- injection Hj as -> _ _.
           apply lookup_In in Hi. destruct (Hclosed _ _ _ Hi Hin_top).
        -- injection Hi as -> _ _.
           apply lookup_In in Hj. destruct (Hclosed _ _ _ Hj Hin_top).
    + apply Hweak; auto.
  - apply Hweak; [apply In_pop_if_top|apply NoDup_pop_if_top, Hnd].
Qed.

Lemma numbering_inv_same d d' :
  same_calls d d' -> numbering_inv d -> numbering_inv d'.
Proof.
  intros (Hc & Hlog & Hact & Hlogged). unfold numbering_inv.
  rewrite Hc, Hlog, Hact, Hlogged. auto.
Qed.

Lemma run_debugger_numbering env python d0 w0 code_str inj prev :
  numbering_inv (run_debugger env python d0 w0 code_str inj prev).1.1.
Proof.
  apply (run_debugger_calls_inv numbering_inv env).
  - apply numbering_inv_same.
  - apply user_call_numbering.
  - apply user_return_numbering.
  - intros. unfold numbering_inv. simpl.
    repeat split; try (intros; contradiction); try constructor;
      try (intros; match goal with
                   | H : [] !! _ = Some _ |- _ => rewrite lookup_nil in H; discriminate
                   end).
Qed.

(** X8.  In the call event log of a run, every record that stands
    before a call record has a smaller call id than that call record: the
    call records are numbered in the order they were appended, and no
    record refers to a call that is logged only later. *)
Theorem call_records_are_numbered_in_log_order
    env python d0 w0 code_str input_to_inject previous_inputs_list
    i j e c p fn a l t :
  let log := call_event_log (run_debugger env python d0 w0 code_str
                               input_to_inject previous_inputs_list).1.1 in
  i < j -> log !! i = Some e -> log !! j = Some (CallEvent c p fn a l t) ->
  event_call_id e < c.
Proof.
  destruct (run_debugger_numbering env python d0 w0 code_str input_to_inject
              previous_inputs_list) as (_ & _ & _ & _ & _ & Hord & _).
  intros log. apply Hord.
Qed.

Lemma call_records_are_numbered_in_log_order_witness :
  call_event_log (run_example nested_call_submission None None).1.1
  = [CallEvent 1 None "f" "a=[1, 2]" 1 1;
     CallEvent 2 (Some 1) "g" "" 3 2;
     ReturnEvent 2 "5" 3; ReturnEvent 1 "5" 3]
  /\ 1 < 2.
Proof.
  split; [vm_compute; reflexivity|].
  apply (call_records_are_numbered_in_log_order
           example_host (fun _ => Compiled nested_call_submission)
           (new_debugger host_world) host_world "x = [1, 2]" None None
           0 1 (CallEvent 1 None "f" "a=[1, 2]" 1 1) 2 (Some 1) "g" "" 3%Z 2);
    [lia|vm_compute; reflexivity|vm_compute; reflexivity].
Defined.

(** X9.  The parent id of a call record is the id of a call record that
    stands earlier in the log, and it is smaller than the record's own
    id. *)
Theorem parent_of_a_call_record_is_an_earlier_call_record
    env python d0 w0 code_str input_to_inject previous_inputs_list
    j c q fn a l t :
  let log := call_event_log (run_debugger env python d0 w0 code_str
                               input_to_inject previous_inputs_list).1.1 in
  log !! j = Some (CallEvent c (Some q) fn a l t) ->
  q < c
  /\ exists i q_parent q_fn q_args q_line q_step,
       i < j
       /\ log !! i = Some (CallEvent q q_parent q_fn q_args q_line q_step).
Proof.
  destruct (run_debugger_numbering env python d0 w0 code_str input_to_inject
              previous_inputs_list) as (_ & _ & _ & _ & _ & Hord & Hpar & _).
  intros log Hj.
  destruct (Hpar j c q fn a l t Hj) as (i & e & Hij & Hi & He).
  pose proof (Hord i j e c (Some q) fn a l t Hij Hi Hj) as Hlt.
  destruct e as [q' qp qfn qa ql qt|]; [|discriminate].
  simpl in He. apply Nat.eqb_eq in He. subst q'.
  split; [exact Hlt|]. exists i, qp, qfn, qa, ql, qt. auto.
Qed.

Lemma parent_of_a_call_record_is_an_earlier_call_record_witness :
  1 < 2
  /\ exists i q_parent q_fn q_args q_line q_step,
       i < 1
       /\ call_event_log (run_example nested_call_submission None None).1.1 !! i
          = Some (CallEvent 1 q_parent q_fn q_args q_line q_step).
Proof.
  apply (parent_of_a_call_record_is_an_earlier_call_record
           example_host (fun _ => Compiled nested_call_submission)
           (new_debugger host_world) host_world "x = [1, 2]" None None
           1 2 1 "g" "" 3%Z 2).
  vm_compute. reflexivity.
Defined.

(** X10.  The call event log of a run holds at most one return record
    for a call id. *)
Theorem a_call_has_at_most_one_return_record
    env python d0 w0 code_str input_to_inject previous_inputs_list
    i j c r t r' t' :
  let log := call_event_log (run_debugger env python d0 w0 code_str
                               input_to_inject previous_inputs_list).1.1 in
  log !! i = Some (ReturnEvent c r t) ->
  log !! j = Some (ReturnEvent c r' t') ->
  i = j.
Proof.
  destruct (run_debugger_numbering env python d0 w0 code_str input_to_inject
              previous_inputs_list) as (_ & _ & _ & _ & _ & _ & _ & Honce).
  intros log. apply Honce.
Qed.

Lemma a_call_has_at_most_one_return_record_witness : 2 = 2.
Proof.
  apply (a_call_has_at_most_one_return_record
           example_host (fun _ => Compiled nested_call_submission)
           (new_debugger host_world) host_world "x = [1, 2]" None None
           2 2 2 "5" 3 "5" 3);
    vm_compute; reflexivity.
Defined.


(** ** A call hook followed by the return hook *)

Lemma pop_if_top_snoc stack c : pop_if_top (stack ++ [c]) c = stack.
Proof.
  unfold pop_if_top, top. rewrite last_snoc, Nat.eqb_refl.
  apply removelast_last.
Qed.

Lemma pop_if_top_fresh stack c :
  (forall x, In x stack -> x < c) -> pop_if_top stack c = stack.
Proof.
  intros Hlt. unfold pop_if_top.
  destruct (top stack) as [t|] eqn:Ht; [|reflexivity].
  apply top_In, Hlt in Ht.
  destruct (Nat.eqb_spec t c); [lia|reflexivity].
Qed.

Lemma user_return_stacks env d1 h f v r active c :
  active_call_ids_stack d1 = active ++ [c] ->
  _safe_repr (recursion_depth env) h v default_max_len None ∅ = Ok r ->
  active_call_ids_stack (user_return env d1 h f v) = active
  /\ logged_call_ids_stack (user_return env d1 h f v)
     = pop_if_top (logged_call_ids_stack d1) c
  /\ call_id_counter (user_return env d1 h f v) = call_id_counter d1.
Proof.
  intros Hactive Hr. unfold user_return. rewrite Hactive.
  replace (top (active ++ [c])) with (Some c)
    by (unfold top; rewrite last_snoc; reflexivity).
  rewrite removelast_last, Hr.
  match goal with
  | |- context [if ?b then _ else _] => destruct b
  end; cbn [with_calls active_call_ids_stack logged_call_ids_stack
            call_id_counter call_event_log]; auto.
Qed.

(** X15.  The call hook followed by the return hook leaves the stack
    of active calls and the stack of logged calls as they were, whatever
    the two frames are, when no id on the logged stack is above the
    counter and the returned value can be rendered. *)
Theorem call_then_return_leaves_both_stacks
    env d h f h' f' return_value r :
  (forall c, In c (logged_call_ids_stack d) -> c <= call_id_counter d) ->
  _safe_repr (recursion_depth env) h' return_value default_max_len None ∅ = Ok r ->
  let d' := user_return env (user_call env d h f) h' f' return_value in
  active_call_ids_stack d' = active_call_ids_stack d
  /\ logged_call_ids_stack d' = logged_call_ids_stack d
  /\ call_id_counter d' = S (call_id_counter d).
Proof.
  intros Hbound Hr d'. subst d'.
  assert (active_call_ids_stack (user_call env d h f)
          = active_call_ids_stack d ++ [S (call_id_counter d)]
          /\ call_id_counter (user_call env d h f) = S (call_id_counter d)
          /\ pop_if_top (logged_call_ids_stack (user_call env d h f))
                        (S (call_id_counter d))
             = logged_call_ids_stack d) as (Hactive & Hcounter & Hlogged).
  { assert (pop_if_top (logged_call_ids_stack d) (S (call_id_counter d))
            = logged_call_ids_stack d) as Hfresh.
    { apply pop_if_top_fresh. intros x Hx. specialize (Hbound x Hx). lia. }
    unfold user_call.
    destruct (negb (is_debugger_internal env f) && negb (is_bdb_internal f));
      [|auto].
    destruct (if negb (String.eqb (function_name_of f) "<module>")
              then _get_frame_args_and_values (recursion_depth env) h f ∅
              else Ok "N/A (module scope)") as [args_repr|e]; [|auto].
    cbn [with_calls active_call_ids_stack logged_call_ids_stack call_id_counter].
    rewrite pop_if_top_snoc. auto. }
  destruct (user_return_stacks env (user_call env d h f) h' f' return_value r
              _ _ Hactive Hr) as (H1 & H2 & H3).
  rewrite H1, H2, H3, Hlogged, Hcounter. auto.
Qed.

Lemma call_then_return_leaves_both_stacks_witness :
  let d := user_call example_host (new_debugger host_world) small_heap (f_frame 1) in
  let d' := user_return example_host
              (user_call example_host d small_heap (g_frame 3))
              small_heap (g_frame 4) 5%Z in
  active_call_ids_stack d = [1]
  /\ active_call_ids_stack d' = active_call_ids_stack d
  /\ logged_call_ids_stack d' = logged_call_ids_stack d
  /\ call_id_counter d' = S (call_id_counter d).
Proof.
  intros d d'. split; [reflexivity|].
  apply (call_then_return_leaves_both_stacks
           example_host d small_heap (g_frame 3) small_heap (g_frame 4) 5%Z "5").
  - intros c Hc. vm_compute in Hc. destruct Hc as [<-|[]]. vm_compute. lia.
  - vm_compute. reflexivity.
Defined.

(** The test of lines 633 to 638. *)
Definition is_top_level_module_return (log : list call_event) (c : nat) : bool :=
  match corresponding_call_event log c with
  | Some (CallEvent _ None fn _ _ _) => String.eqb fn "<module>"
  | _ => false
  end.

(** X16.  When the value returned by a logged call of the submission
    cannot be rendered, the return hook takes the call off the stack of
    active calls but leaves it on the stack of logged calls and appends no
    return record: the call that has returned stays the parent of the
    calls logged after it. *)
Theorem unrenderable_return_value_leaves_the_call_logged
    env d h f return_value c e :
  top (active_call_ids_stack d) = Some c ->
  top (logged_call_ids_stack d) = Some c ->
  is_debugger_internal env f = false ->
  is_bdb_internal f = false ->
  is_top_level_module_return (call_event_log d) c = false ->
  _safe_repr (recursion_depth env) h return_value default_max_len None ∅
  = Raise e ->
  let d' := user_return env d h f return_value in
  active_call_ids_stack d' = removelast (active_call_ids_stack d)
  /\ top (logged_call_ids_stack d') = Some c
  /\ call_event_log d' = call_event_log d.
Proof.
  intros Hactive Hlogged Hint Hbdb Hmod Hr d'. subst d'.
  unfold user_return. rewrite Hactive.
  cbn [with_calls active_call_ids_stack logged_call_ids_stack call_event_log
       call_id_counter current_step].
  unfold is_top_level_module_return in Hmod. rewrite Hmod, Hint, Hbdb, Hr.
  unfold is_top. rewrite Hlogged, Nat.eqb_refl.
  cbn [negb andb with_calls active_call_ids_stack logged_call_ids_stack
       call_event_log].
  auto.
Qed.

Lemma unrenderable_return_value_leaves_the_call_logged_witness :
  let d := user_call example_host (new_debugger host_world) small_heap (f_frame 1) in
  let d' := user_return example_host d small_heap (f_frame 2) 20%Z in
  active_call_ids_stack d' = removelast (active_call_ids_stack d)
  /\ top (logged_call_ids_stack d') = Some 1
  /\ call_event_log d' = call_event_log d.
Proof.
  intros d d'.
  apply (unrenderable_return_value_leaves_the_call_logged
           example_host d small_heap (f_frame 2) 20%Z 1 RecursionError);
    vm_compute; reflexivity.
Defined.

End CallLogFacts.

(* ===================================================================== *)
(** * The console and the trace of a run                                  *)
(* ===================================================================== *)

Module TraceFacts.
Import PyStr Heap Render Extract Session Examples SessionFacts.

(** ** The stages of [run_debugger] *)

(** The console part of the state. *)
Definition same_console (d d' : debugger) : Prop :=
  stdout_buffer d' = stdout_buffer d
  /\ provided_input_value_for_next_call d' = provided_input_value_for_next_call d
  /\ all_provided_inputs d' = all_provided_inputs d
  /\ next_input_index d' = next_input_index d
  /\ finished d' = finished d.

Lemma user_call_console env d h f : same_console d (user_call env d h f).
Proof. unfold user_call, same_console. hook_cases. Qed.

Lemma user_return_console env d h f v :
  same_console d (user_return env d h f v).
Proof. unfold user_return, same_console. hook_cases. Qed.

Lemma user_line_console env d h f : same_console d (user_line env d h f).
Proof. unfold user_line, same_console. hook_cases. Qed.

(** The state [finish] computes before it amends the trace. *)
Definition before_amending (d4 : debugger) (w1 : world) (flag : bool) : debugger :=
  if flag then (restore d4 w1).1 else with_finished (restore d4 w1).1 true.

Lemma before_amending_fields d4 w1 flag :
  let d6 := before_amending d4 w1 flag in
  execution_trace d6 = execution_trace d4
  /\ current_step d6 = current_step d4
  /\ stdout_buffer d6 = stdout_buffer d4
  /\ call_event_log d6 = call_event_log d4
  /\ logged_call_ids_stack d6 = logged_call_ids_stack d4
  /\ provided_input_value_for_next_call d6 = provided_input_value_for_next_call d4
  /\ all_provided_inputs d6 = all_provided_inputs d4
  /\ next_input_index d6 = next_input_index d4
  /\ finished d6 = (if flag then finished d4 else true).
Proof.
  unfold before_amending, restore.
  destruct (original_builtins_input d4), flag; simpl; repeat split.
Qed.

(** What [finish] returns: the state before amending when the last
    rendering raises, and otherwise that state with the amended trace,
    which is also the value returned unless the submission was left by
    an exception no handler caught. *)
Lemma finish_graph_cases env d4 w1 result namespace error_info flag :
  let r := finish env d4 w1 result namespace error_info flag in
  let d6 := before_amending d4 w1 flag in
  (r.1.1 = d6 /\ r.2 = None)
  \/ exists vars nodes,
      List.NoDup (map node_id nodes)
      /\ r.1.1 = with_trace d6 (finalize_trace d6 error_info flag vars nodes)
                            (current_step d6)
      /\ (r.2 = None
          \/ r.2 = Some (finalize_trace d6 error_info flag vars nodes)).
Proof.
  unfold finish, before_amending.
  destruct (restore d4 w1) as [d5 w2]. cbn [fst snd].
  destruct (display_vars _ _ _ _ _) as [vars|e]; cbn [fst snd].
  - right. eexists _, _. split; [apply ExtractFacts.extract_ids_NoDup|].
    split; [reflexivity|].
    destruct result as [|prompt|[e|e|]]; auto.
  - left. auto.
Qed.

Lemma finish_cases env d4 w1 result namespace error_info flag :
  let r := finish env d4 w1 result namespace error_info flag in
  let d6 := before_amending d4 w1 flag in
  (r.1.1 = d6 /\ r.2 = None)
  \/ exists vars nodes,
      r.1.1 = with_trace d6 (finalize_trace d6 error_info flag vars nodes)
                         (current_step d6)
      /\ (r.2 = None
          \/ r.2 = Some (finalize_trace d6 error_info flag vars nodes)).
Proof.
  destruct (finish_graph_cases env d4 w1 result namespace error_info flag)
    as [H|(vars & nodes & _ & H)]; [left; exact H|right; eauto].
Qed.

(** ** The inputs of a run *)

(** While the submission runs, the history is the recorded one, with the
    injected value staged or cleared (line 168 clears it before the
    writes that may raise); or the staged value has been consumed: it was
    text, it is the last of the history and the index is past it. *)
Definition inputs_inv (inj : option pytext) (recorded : list pytext)
    (d : debugger) : Prop :=
  next_input_index d <= length (all_provided_inputs d)
  /\ ((all_provided_inputs d = recorded
       /\ (provided_input_value_for_next_call d = inj
           \/ provided_input_value_for_next_call d = None))
      \/ exists v, inj = Some (Str v)
                   /\ all_provided_inputs d = recorded ++ [Str v]
                   /\ provided_input_value_for_next_call d = None
                   /\ next_input_index d = length (recorded ++ [Str v])).

Lemma inputs_inv_same inj recorded d d' :
  same_console d d' -> inputs_inv inj recorded d -> inputs_inv inj recorded d'.
Proof.
  intros (_ & Hp & Ha & Hn & _). unfold inputs_inv. rewrite Hp, Ha, Hn. auto.
Qed.

Lemma input_mock_inputs inj recorded d prompt :
  inputs_inv inj recorded d ->
  inputs_inv inj recorded (_one_time_input_mock d prompt).1.
Proof.
  intros [Hle Hstate]. unfold _one_time_input_mock, _custom_input_handler.
  destruct (nth_error (all_provided_inputs d) (next_input_index d))
    as [val|] eqn:Hnth.
  - assert (next_input_index d < length (all_provided_inputs d)) as Hlt
        by (apply nth_error_Some; congruence).
    destruct prompt as [prompt|]; [destruct val as [val|]|]; cbn [fst];
      try (split; [exact Hle|exact Hstate]).
    split; cbn [with_input next_input_index all_provided_inputs
                provided_input_value_for_next_call]; [lia|].
    destruct Hstate as [Hs|(v & Hinj & Hall & Hprov & Hidx)]; [left; exact Hs|].
    rewrite <- Hall in Hidx. lia.
  - apply nth_error_None in Hnth.
    destruct (provided_input_value_for_next_call d) as [val|] eqn:Hprov.
    + assert (all_provided_inputs d = recorded /\ inj = Some val)
        as [Hall Hinj].
      { destruct Hstate as [[Hall [Hinj|Hnone]]|(v & _ & _ & Hnone & _)];
          [split; congruence|congruence|congruence]. }
      destruct prompt as [prompt|]; [destruct val as [val|]|]; cbn [fst];
        try (split; cbn [with_buffer with_input next_input_index
                         all_provided_inputs provided_input_value_for_next_call];
             [exact Hle|left; split; [exact Hall|right; reflexivity]]).
      split; cbn [with_input next_input_index all_provided_inputs
                  provided_input_value_for_next_call]; [lia|].
      right. exists val. rewrite Hall. repeat split. exact Hinj.
    + destruct prompt as [prompt|]; cbn [fst];
        (split; [exact Hle|]);
        cbn [with_buffer with_input next_input_index all_provided_inputs
             provided_input_value_for_next_call];
        rewrite ?Hprov; exact Hstate.
Qed.

Lemma input_mock_finished d prompt :
  finished (_one_time_input_mock d prompt).1 = finished d.
Proof. unfold _one_time_input_mock, _custom_input_handler. hook_cases. Qed.

Lemma exec_prog_inputs env inj recorded p :
  forall d, inputs_inv inj recorded d ->
    inputs_inv inj recorded (exec_prog env d p).1.1
    /\ finished (exec_prog env d p).1.1 = finished d.
Proof.
  induction p as [m|m e|m f k IH|m f k IH|m f v k IH|m prompt k IH|text k IH
                 |m prompt];
    intros d Hd; cbn [exec_prog].
  - split; [exact Hd|reflexivity].
  - split; [exact Hd|reflexivity].
  - pose proof (user_line_console env d (mem_heap m) f) as Hsame.
    pose proof (inputs_inv_same _ _ _ _ Hsame Hd) as Hd'.
    destruct Hsame as (_ & _ & _ & _ & Hfin).
    destruct (quitting (user_line env d (mem_heap m) f)); cbn [fst snd].
    + split; [exact Hd'|exact Hfin].
    + destruct (IH _ Hd') as (H1 & H2). rewrite H2, Hfin. auto.
  - pose proof (user_call_console env d (mem_heap m) f) as Hsame.
    destruct (IH _ (inputs_inv_same _ _ _ _ Hsame Hd)) as (H1 & H2).
    destruct Hsame as (_ & _ & _ & _ & Hfin). rewrite H2, Hfin. auto.
  - pose proof (user_return_console env d (mem_heap m) f v) as Hsame.
    destruct (IH _ (inputs_inv_same _ _ _ _ Hsame Hd)) as (H1 & H2).
    destruct Hsame as (_ & _ & _ & _ & Hfin). rewrite H2, Hfin. auto.
  - pose proof (input_mock_inputs inj recorded d prompt Hd) as Hinv.
    pose proof (input_mock_finished d prompt) as Hfin.
    destruct (_one_time_input_mock d prompt) as [d' r]; cbn [fst snd] in *.
    destruct (IH r _ Hinv) as (H1 & H2). rewrite H2, Hfin. auto.
  - assert (inputs_inv inj recorded (write_stdout d text)) as Hd' by exact Hd.
    destruct (IH _ Hd') as (H1 & H2). auto.
  - split; [exact Hd|reflexivity].
Qed.

(** X11.  After a run, the index of the next recorded value is within the
    input history, and the history is the recorded one (the staged value
    is then the injected one, or it was cleared), or it is the recorded
    one followed by the injected value: that value is text, no staged
    value is left and the index is at the end of the history. *)
Theorem input_history_after_a_run
    env python d0 w0 code_str input_to_inject previous_inputs_list :
  let d := (run_debugger env python d0 w0 code_str input_to_inject
                         previous_inputs_list).1.1 in
  let recorded := match previous_inputs_list with Some l => l | None => [] end in
  next_input_index d <= length (all_provided_inputs d)
  /\ ((all_provided_inputs d = recorded
       /\ (provided_input_value_for_next_call d = input_to_inject
           \/ provided_input_value_for_next_call d = None))
      \/ exists v, input_to_inject = Some (Str v)
                   /\ all_provided_inputs d = recorded ++ [Str v]
                   /\ provided_input_value_for_next_call d = None
                   /\ next_input_index d = length (all_provided_inputs d)).
Proof.
  intros d recorded. subst d. unfold run_debugger.
  destruct (prepare_run d0 w0 code_str input_to_inject previous_inputs_list)
    as [d2 w1] eqn:Hprep.
  assert (inputs_inv input_to_inject recorded d2) as Hd2.
  { unfold prepare_run in Hprep. injection Hprep as <- _.
    split; simpl; [lia|]. left. split; [reflexivity|left; reflexivity]. }
  assert (inputs_inv input_to_inject recorded (execute env python d2 code_str).1.1)
    as Hd3.
  { unfold execute, runcall. destruct (python code_str) as [e|p]; cbn [fst snd].
    - exact Hd2.
    - from_reset p.
      pose proof (exec_prog_inputs env input_to_inject recorded p (set_step d2) Hd2)
        as [Hp _].
      destruct (exec_prog env (set_step d2) p) as [[d' o] m]; cbn [fst snd] in *.
      exact Hp. }
  destruct (execute env python d2 code_str) as [[d3 result] namespace].
  cbn [fst snd] in Hd3.
  assert (inputs_inv input_to_inject recorded (handle env d3 result).1.1) as Hd4.
  { unfold handle. destruct result as [|prompt|[e|e|]]; cbn [fst snd]; exact Hd3. }
  destruct (handle env d3 result) as [[d4 error_info] flag].
  cbn [fst snd] in Hd4.
  pose proof (before_amending_fields d4 w1 flag)
    as (_ & _ & _ & _ & _ & Hp6 & Ha6 & Hn6 & Hf6).
  cbn zeta in *.
  assert (forall final,
             final = before_amending d4 w1 flag
             \/ (exists t, final = with_trace (before_amending d4 w1 flag) t
                                     (current_step (before_amending d4 w1 flag))) ->
             inputs_inv input_to_inject recorded final) as Hfinal.
  { intros final Hfin.
    assert (all_provided_inputs final = all_provided_inputs d4
            /\ provided_input_value_for_next_call final
               = provided_input_value_for_next_call d4
            /\ next_input_index final = next_input_index d4)
      as (Ha & Hp & Hn).
    { destruct Hfin as [->|[t ->]]; cbn [with_trace all_provided_inputs
        provided_input_value_for_next_call next_input_index];
        rewrite ?Hp6, ?Ha6, ?Hn6; auto. }
    unfold inputs_inv. rewrite Ha, Hp, Hn. exact Hd4. }
  assert (inputs_inv input_to_inject recorded
            (finish env d4 w1 result namespace error_info flag).1.1) as [Hle Hst].
  { destruct (finish_cases env d4 w1 result namespace error_info flag)
      as [[-> _]|(vars & nodes & -> & _)]; apply Hfinal; eauto. }
  split; [exact Hle|].
  destruct Hst as [Hs|(v & Hinj & Hall & Hnone & Hidx)]; [left; exact Hs|].
  right. exists v. rewrite Hall. auto.
Qed.

(** A run with two recorded values and a staged one, whose only read
    takes the first recorded value; and the run of a submission that
    catches the [TypeError] of a read with a number as prompt: the staged
    value is gone and the history is as it was. *)
Lemma input_history_after_a_run_examples :
  all_provided_inputs
    (run_example input_submission (Some (Str "cy"))
                 (Some [Str "ann"; Str "bob"])).1.1
  = [Str "ann"; Str "bob"]
  /\ all_provided_inputs (run_example input_submission (Some (Str "cy")) None).1.1
     = [Str "cy"]
  /\ all_provided_inputs
       (run_example number_prompt_submission (Some (Str "cy")) None).1.1 = []
  /\ provided_input_value_for_next_call
       (run_example number_prompt_submission (Some (Str "cy")) None).1.1 = None.
Proof. vm_compute. repeat split; reflexivity. Qed.


(** ** Text and trace lemmas *)

Lemma cat_assoc a b c : (a ^^ b) ^^ c = a ^^ b ^^ c.
Proof.
  unfold cat. induction a as [|x a IH]; [reflexivity|].
  change (String x (String.append (String.append a b) c)
          = String x (String.append a (String.append b c))).
  rewrite IH. reflexivity.
Qed.

Lemma cat_empty_r a : a ^^ EmptyString = a.
Proof.
  unfold cat. induction a as [|x a IH]; [reflexivity|].
  change (String x (String.append a EmptyString) = String x a).
  rewrite IH. reflexivity.
Qed.

Lemma last_set_last trace g s :
  last (set_last trace g) = Some s ->
  exists s0, last trace = Some s0 /\ s = g s0.
Proof.
  unfold set_last. destruct (last trace) as [s0|] eqn:Hlast; [|congruence].
  rewrite last_snoc. intros [= <-]. eauto.
Qed.

(** ** How the trace of a finished run ends *)

Lemma set_last_nonempty trace g : trace <> [] -> set_last trace g <> [].
Proof.
  unfold set_last. intros Hne.
  destruct (last trace) as [s|]; [|exact Hne].
  intros Hnil. apply app_eq_nil in Hnil as [_ Hnil]. discriminate.
Qed.

Lemma finalize_trace_end d error_info vars nodes :
  let trace := finalize_trace d error_info false vars nodes in
  trace <> []
  /\ forall s, last trace = Some s ->
               stdout s = stdout_buffer d
               /\ historical_events (stack_info s) = call_event_log d
               /\ forall info is_syntax, error_info = Some (info, is_syntax) ->
                                         error s = error info.
Proof.
  unfold finalize_trace. destruct error_info as [[info is_syntax]|].
  - destruct (last_error_differs (execution_trace d) (error info)) eqn:Hdiff.
    + split; [intros Hnil; apply app_eq_nil in Hnil as [_ Hnil]; discriminate|].
      intros s. rewrite last_snoc. intros [= <-].
      destruct is_syntax; repeat split; intros ? ? [= <- _]; reflexivity.
    + split; [apply set_last_nonempty; eapply last_error_differs_nonempty, Hdiff|].
      intros s Hs. apply last_set_last in Hs as (s0 & Hs0 & ->).
      assert (error s0 = error info) as Herr.
      { unfold last_error_differs in Hdiff. rewrite Hs0 in Hdiff.
        apply negb_false_iff, bool_decide_eq_true in Hdiff. exact Hdiff. }
      destruct is_syntax; repeat split; intros ? ? [= <- _]; exact Herr.
  - destruct (execution_trace d) as [|s0 t0] eqn:Htrace.
    + split; [discriminate|]. intros s [= <-]. repeat split. discriminate.
    + split; [apply set_last_nonempty; discriminate|].
      intros s Hs. apply last_set_last in Hs as (s1 & _ & ->).
      repeat split. discriminate.
Qed.

(** X13.  The trace a finished run returns is not empty, and its last
    step holds the whole console output and the whole call event log of
    the run. *)
Theorem finished_run_returns_a_trace_that_ends_with_the_final_state
    env python d0 w0 code_str input_to_inject previous_inputs_list trace :
  let r := run_debugger env python d0 w0 code_str input_to_inject
                        previous_inputs_list in
  r.2 = Some trace -> finished r.1.1 = true ->
  exists s, last trace = Some s
            /\ stdout s = stdout_buffer r.1.1
            /\ historical_events (stack_info s) = call_event_log r.1.1.
Proof.
  intros r. subst r. unfold run_debugger.
  destruct (prepare_run d0 w0 code_str input_to_inject previous_inputs_list)
    as [d2 w1].
  destruct (execute env python d2 code_str) as [[d3 result] namespace].
  assert ((handle env d3 result).2 = true ->
          finished (handle env d3 result).1.1 = false) as Hflag.
  { unfold handle. destruct result as [|prompt|[e|e|]]; cbn [fst snd];
      try discriminate. reflexivity. }
  destruct (handle env d3 result) as [[d4 error_info] flag]. cbn [fst snd] in Hflag.
  pose proof (before_amending_fields d4 w1 flag)
    as (_ & _ & Hb6 & Hl6 & _ & _ & _ & _ & Hf6).
  cbn zeta in *.
  destruct (finish_cases env d4 w1 result namespace error_info flag)
    as [[_ ->]|(vars & nodes & -> & [->| ->])]; try discriminate.
  intros [= <-]. cbn [with_trace finished stdout_buffer call_event_log].
  rewrite Hf6. intros Hfin.
  destruct flag; [rewrite Hflag in Hfin by reflexivity; discriminate|].
  destruct (finalize_trace_end (before_amending d4 w1 false) error_info vars nodes)
    as [Hne Hlast].
  destruct (last (finalize_trace (before_amending d4 w1 false) error_info false
                                 vars nodes)) as [s|] eqn:Hs.
  - exists s. destruct (Hlast s eq_refl) as (H1 & H2 & _). auto.
  - apply last_None in Hs. contradiction.
Qed.

Lemma finished_run_returns_a_trace_that_ends_with_the_final_state_witness :
  exists s,
    last (execution_trace (run_example print_submission None None).1.1) = Some s
    /\ stdout s = stdout_buffer (run_example print_submission None None).1.1
    /\ historical_events (stack_info s)
       = call_event_log (run_example print_submission None None).1.1.
Proof.
  apply (finished_run_returns_a_trace_that_ends_with_the_final_state
           example_host (fun _ => Compiled print_submission)
           (new_debugger host_world) host_world "x = [1, 2]" None None);
    vm_compute; reflexivity.
Defined.


(** X14.  When the submission is left by an exception, or by a
    [SyntaxError], the trace returned ends with a step whose error text
    is what [sanitize_traceback_paths] makes of the report: of the
    stripped traceback, filtered to the frames of the submission exactly
    when the innermost frame is in the submission, and of
    ['SyntaxError: '] followed by the stripped message. *)
Theorem failed_run_ends_with_the_sanitized_report
    env python d0 w0 code_str input_to_inject previous_inputs_list trace :
  let d2 := (prepare_run d0 w0 code_str input_to_inject previous_inputs_list).1 in
  let r := run_debugger env python d0 w0 code_str input_to_inject
                        previous_inputs_list in
  r.2 = Some trace ->
  (forall e, (execute env python d2 code_str).1.2 = Failed (ExceptionRaised e) ->
     exists s, last trace = Some s
               /\ error s
                  = Some (Sanitizer.sanitize_traceback_paths env
                            (strip (traceback_report e))
                            (match user_lineno e with
                             | Some _ => true
                             | None => false
                             end)))
  /\ (forall e, (execute env python d2 code_str).1.2 = Failed (SyntaxErrorRaised e) ->
        exists s, last trace = Some s
                  /\ error s
                     = Some (Sanitizer.sanitize_traceback_paths env
                               ("SyntaxError: " ^^ strip (syntax_report e)) true)).
Proof.
  intros d2 r. subst d2 r. unfold run_debugger.
  destruct (prepare_run d0 w0 code_str input_to_inject previous_inputs_list)
    as [d2 w1]. cbn [fst].
  destruct (execute env python d2 code_str) as [[d3 result] namespace].
  cbn [fst snd].
  assert (forall info is_syntax,
             (handle env d3 result) = (d3, Some (info, is_syntax), false) ->
             (finish env d3 w1 result namespace (Some (info, is_syntax)) false).2
             = Some trace ->
             exists s, last trace = Some s /\ error s = error info) as Hend.
  { intros info is_syntax _ Hret.
    pose proof (finish_cases env d3 w1 result namespace
                  (Some (info, is_syntax)) false) as Hcases.
    cbn zeta in Hcases.
    destruct Hcases as [[_ Hnone]|(vars & nodes & _ & [Hnone|Hsome])];
      try congruence.
    rewrite Hsome in Hret. injection Hret as <-.
    destruct (finalize_trace_end (before_amending d3 w1 false)
                (Some (info, is_syntax)) vars nodes) as [Hne Hlast].
    destruct (last (finalize_trace (before_amending d3 w1 false)
                      (Some (info, is_syntax)) false vars nodes)) as [s|] eqn:Hs.
    - exists s. split; [exact Hs|].
      destruct (Hlast s eq_refl) as (_ & _ & Herr). eapply Herr. reflexivity.
    - apply last_None in Hs. contradiction. }
  intros Hret. split; intros e ->; cbn [handle] in *.
  - destruct (Hend _ _ eq_refl Hret) as (s & Hs & Herr).
    exists s. split; [exact Hs|]. rewrite Herr. reflexivity.
  - destruct (Hend _ _ eq_refl Hret) as (s & Hs & Herr).
    exists s. split; [exact Hs|]. rewrite Herr. reflexivity.
Qed.

Lemma failed_run_ends_with_the_sanitized_report_witness :
  exists s,
    last (execution_trace (run_example failing_submission None None).1.1) = Some s
    /\ error s
       = Some (Sanitizer.sanitize_traceback_paths example_host
                 (strip example_traceback) true).
Proof.
  apply (proj1 (failed_run_ends_with_the_sanitized_report
                  example_host (fun _ => Compiled failing_submission)
                  (new_debugger host_world) host_world "x = [1, 2]" None None
                  (execution_trace (run_example failing_submission None None).1.1)
                  ltac:(vm_compute; reflexivity))
               {| user_lineno := Some 2%Z; traceback_report := example_traceback |}).
  vm_compute. reflexivity.
Defined.


Lemma step_indices_contiguous_unless_late_syntax_error_witness :
  map step (execution_trace (run_example nested_call_submission None None).1.1)
  = seq 0 (length (execution_trace
                     (run_example nested_call_submission None None).1.1))
  /\ length (execution_trace (run_example nested_call_submission None None).1.1)
     = 3.
Proof.
  split; [|vm_compute; reflexivity].
  apply (step_indices_contiguous_unless_late_syntax_error
           example_host (fun _ => Compiled nested_call_submission)
           (new_debugger host_world) host_world "x = [1, 2]" None None).
  intros e Hfailed. vm_compute in Hfailed. discriminate Hfailed.
Defined.


(** ** What every step of a trace holds *)

(** A step shows at most [MAX_STACK_DEPTH_DISPLAY_SIMPLE] frames, and the
    nodes of its graph have distinct identities. *)
Definition step_shape (s : step_entry) : Prop :=
  length (current_frames (stack_info s)) <= MAX_STACK_DEPTH_DISPLAY_SIMPLE
  /\ List.NoDup (map node_id (visualizables s)).

Lemma walk_frames_length env h tracked remaining f :
  length (walk_frames env h tracked remaining f) <= remaining.
Proof.
  revert f. induction remaining as [|n IH]; intros f; [reflexivity|].
  cbn [walk_frames]. rewrite length_app.
  assert (length
            match f_back f with
            | Some back => walk_frames env h tracked n back
            | None => []
            end <= n) as Hrest.
  { destruct (f_back f) as [back|]; [apply IH|simpl; lia]. }
  match goal with
  | |- length ?here + _ <= _ => assert (length here <= 1) as Hhere
  end.
  { destruct (_ || _); [simpl; lia|].
    destruct (String.eqb (getfile f) "<string>"); [|simpl; lia].
    destruct (_get_frame_args_and_values _ _ _ _); simpl; lia. }
  lia.
Qed.

Lemma capture_step_shape env d h f entry :
  capture_step env d h f = Ok entry ->
  step_shape entry /\ input_request entry = None.
Proof.
  unfold capture_step. intros Hcap.
  destruct (display_vars _ _ _ _ (f_locals f)); cbn [bind] in Hcap; [|discriminate].
  destruct (display_vars _ _ _ _ (f_globals f)); cbn [bind] in Hcap; [|discriminate].
  pose proof (f_equal (fun r => match r with Ok a => a | Raise _ => entry end)
                      Hcap) as Hentry.
  cbv beta iota in Hentry. rewrite <- Hentry. unfold step_shape.
  cbn [stack_info current_frames visualizables input_request].
  split; [split|reflexivity].
  - apply walk_frames_length.
  - apply ExtractFacts.extract_ids_NoDup.
Qed.

Definition steps_shaped (d : debugger) : Prop :=
  Forall (fun s => step_shape s /\ input_request s = None) (execution_trace d).

Lemma empty_step_shape s :
  current_frames (stack_info s) = [] -> visualizables s = [] -> step_shape s.
Proof.
  intros Hf Hv. unfold step_shape. rewrite Hf, Hv. split; [simpl; lia|constructor].
Qed.

Lemma user_line_shaped env d h f :
  steps_shaped d -> steps_shaped (user_line env d h f).
Proof.
  intros Hd. unfold user_line.
  destruct (String.eqb (getfile f) (debugger_script_abs env)
            && str_in (co_name (f_code f)) debugger_internal_methods);
    [exact Hd|].
  destruct (contains (basename (getfile f)) "bdb.py"); [exact Hd|].
  destruct (negb (String.eqb (getfile f) "<string>")); [exact Hd|].
  unfold steps_shaped.
  destruct (capture_step env d h f) as [entry|e] eqn:Hcap.
  - cbn [set_step with_quitting with_trace execution_trace].
    apply Forall_app. split; [exact Hd|].
    apply Forall_singleton. eapply capture_step_shape, Hcap.
  - cbn [set_quit with_quitting with_trace execution_trace].
    destruct (last_error_differs (execution_trace d) _); [|exact Hd].
    apply Forall_app. split; [exact Hd|].
    apply Forall_singleton. split; [|reflexivity].
    apply empty_step_shape; reflexivity.
Qed.

Lemma steps_shaped_same d d' :
  execution_trace d' = execution_trace d -> steps_shaped d -> steps_shaped d'.
Proof. unfold steps_shaped. intros ->. auto. Qed.

Lemma exec_prog_shaped env p d :
  steps_shaped d -> steps_shaped (exec_prog env d p).1.1.
Proof.
  apply exec_prog_inv.
  - apply user_line_shaped.
  - intros d1 h f. apply steps_shaped_same, user_call_steps.
  - intros d1 h f v. apply steps_shaped_same, user_return_steps.
  - intros d1 prompt. apply steps_shaped_same, input_mock_steps.
  - intros d1 text. apply steps_shaped_same. reflexivity.
Qed.

Lemma Forall_set_last (P : step_entry -> Prop) trace g :
  Forall P trace -> (forall s, P s -> P (g s)) -> Forall P (set_last trace g).
Proof.
  intros Ht Hg. unfold set_last.
  destruct (last trace) as [s|] eqn:Hlast; [|exact Ht].
  apply last_Some in Hlast as [l' ->].
  rewrite removelast_last. apply Forall_app in Ht as [Hl' Hs].
  apply Forall_app. split; [exact Hl'|].
  apply Forall_singleton. apply Hg. rewrite Forall_singleton in Hs. exact Hs.
Qed.

(** The state the handlers leave: the steps are well shaped; with the
    blocking-input signal only the last step holds a request and the run
    is not finished, and otherwise no step holds one and the error entry
    is well shaped too. *)
Definition handled (d : debugger) (error_info : option (step_entry * bool))
    (flag : bool) : Prop :=
  Forall step_shape (execution_trace d)
  /\ (forall info is_syntax, error_info = Some (info, is_syntax) ->
        step_shape info /\ input_request info = None)
  /\ if flag then
       error_info = None /\ finished d = false
       /\ forall i s, execution_trace d !! i = Some s ->
                      input_request s <> None -> S i = length (execution_trace d)
     else Forall (fun s => input_request s = None) (execution_trace d).

Lemma handle_handled env d result :
  steps_shaped d ->
  handled (handle env d result).1.1 (handle env d result).1.2
          (handle env d result).2.
Proof.
  intros Hd. unfold steps_shaped in Hd.
  assert (Forall step_shape (execution_trace d)) as Hshape
      by (eapply Forall_impl; [exact Hd|]; intros s [H _]; exact H).
  assert (Forall (fun s => input_request s = None) (execution_trace d)) as Hreq
      by (eapply Forall_impl; [exact Hd|]; intros s [_ H]; exact H).
  unfold handle, handled.
  destruct result as [|prompt|[e|e|]]; cbn [fst snd].
  - split; [exact Hshape|]. split; [discriminate|exact Hreq].
  - cbn [on_waiting_for_input with_finished with_trace execution_trace finished].
    split; [|split; [discriminate|split; [reflexivity|split; [reflexivity|]]]].
    + apply Forall_set_last; [exact Hshape|]. intros s Hs. exact Hs.
    + intros i s Hi Hrequest. unfold set_last in *.
      destruct (last (execution_trace d)) as [s0|] eqn:Hlast.
      * apply last_Some in Hlast as [l' Hl']. rewrite Hl' in *.
        rewrite removelast_last in *. rewrite !length_app. simpl.
        apply lookup_snoc_Some in Hi as [[Hlt Hi]|[-> _]]; [|lia].
        exfalso. apply Hrequest.
        apply Forall_app in Hreq as [Hreq _]. rewrite Forall_forall in Hreq.
        apply Hreq. eapply list_elem_of_lookup_2, Hi.
      * exfalso. apply Hrequest. rewrite Forall_forall in Hreq.
        apply Hreq. eapply list_elem_of_lookup_2, Hi.
  - split; [exact Hshape|]. split; [|exact Hreq].
    intros info is_syntax [= <- _]. split; [|reflexivity].
    apply empty_step_shape; reflexivity.
  - split; [exact Hshape|]. split; [|exact Hreq].
    intros info is_syntax [= <- _]. split; [|reflexivity].
    unfold runtime_error_info, step_shape.
    cbn [stack_info current_frames visualizables].
    destruct (last (execution_trace d)) as [s0|] eqn:Hlast.
    + apply last_Some_elem_of in Hlast. rewrite Forall_forall in Hshape.
      apply Hshape, Hlast.
    + split; [simpl; lia|constructor].
  - split; [exact Hshape|]. split; [discriminate|exact Hreq].
Qed.

Lemma amended_step_shape (s : step_entry) frames out vars nodes history active
    (is_syntax : bool) :
  length frames <= MAX_STACK_DEPTH_DISPLAY_SIMPLE ->
  List.NoDup (map node_id nodes) ->
  step_shape s ->
  step_shape
    (if is_syntax
     then with_final_view s out vars nodes
            {| current_frames := frames; historical_events := history;
               active_call_ids := active |}
     else with_stack s out
            {| current_frames := frames; historical_events := history;
               active_call_ids := active |}).
Proof.
  intros Hf Hn [_ Hs]. destruct is_syntax; split; assumption.
Qed.

Lemma finalize_trace_shaped d error_info flag vars nodes :
  handled d error_info flag ->
  List.NoDup (map node_id nodes) ->
  let trace := finalize_trace d error_info flag vars nodes in
  Forall step_shape trace
  /\ forall i s, trace !! i = Some s -> input_request s <> None ->
                 S i = length trace /\ flag = true.
Proof.
  intros (Hshape & Hinfo & Hflag) Hnodes. unfold finalize_trace.
  destruct error_info as [[info is_syntax]|].
  - destruct (Hinfo info is_syntax eq_refl) as [Hi_shape Hi_req].
    destruct flag; [destruct Hflag as [Hnone _]; discriminate|].
    assert (forall s, input_request s = None ->
              input_request
                (if is_syntax
                 then with_final_view s (stdout_buffer d) vars nodes
                        {| current_frames := current_frames (stack_info info);
                           historical_events := call_event_log d;
                           active_call_ids := logged_call_ids_stack d |}
                 else with_stack s (stdout_buffer d)
                        {| current_frames := current_frames (stack_info info);
                           historical_events := call_event_log d;
                           active_call_ids := logged_call_ids_stack d |})
              = None) as Hreq_amend.
    { intros s Hs. destruct is_syntax; exact Hs. }
    assert (forall s, step_shape s ->
              step_shape
                (if is_syntax
                 then with_final_view s (stdout_buffer d) vars nodes
                        {| current_frames := current_frames (stack_info info);
                           historical_events := call_event_log d;
                           active_call_ids := logged_call_ids_stack d |}
                 else with_stack s (stdout_buffer d)
                        {| current_frames := current_frames (stack_info info);
                           historical_events := call_event_log d;
                           active_call_ids := logged_call_ids_stack d |}))
      as Hshape_amend.
    { intros s. apply amended_step_shape; [apply Hi_shape|exact Hnodes]. }
    assert (forall trace,
               Forall step_shape trace ->
               Forall (fun s => input_request s = None) trace ->
               Forall step_shape trace
               /\ forall i s, trace !! i = Some s -> input_request s <> None ->
                              S i = length trace /\ false = true) as Hclose.
    { intros trace H1 H2. split; [exact H1|].
      intros i s Hi Hrequest. exfalso. apply Hrequest.
      rewrite Forall_forall in H2. apply H2. eapply list_elem_of_lookup_2, Hi. }
    destruct (last_error_differs (execution_trace d) (error info)).
    + apply Hclose.
      * apply Forall_app. split; [exact Hshape|].
        apply Forall_singleton, Hshape_amend, Hi_shape.
      * apply Forall_app. split; [exact Hflag|].
        apply Forall_singleton, Hreq_amend, Hi_req.
    + apply Hclose; apply Forall_set_last; auto.
  - destruct flag.
    + destruct Hflag as (_ & _ & Hlast). split; [exact Hshape|].
      intros i s Hi Hrequest. split; [|reflexivity]. eapply Hlast; eauto.
    + assert (forall trace,
                 Forall step_shape trace ->
                 Forall (fun s => input_request s = None) trace ->
                 Forall step_shape trace
                 /\ forall i s, trace !! i = Some s -> input_request s <> None ->
                                S i = length trace /\ false = true) as Hclose.
      { intros trace H1 H2. split; [exact H1|].
        intros i s Hi Hrequest. exfalso. apply Hrequest.
        rewrite Forall_forall in H2. apply H2. eapply list_elem_of_lookup_2, Hi. }
      destruct (execution_trace d) as [|s0 t0] eqn:Htrace.
      * apply Hclose; apply Forall_singleton; [|reflexivity].
        split; [simpl; lia|exact Hnodes].
      * apply Hclose; apply Forall_set_last; auto.
        intros s [_ Hs]. split; [simpl; lia|exact Hnodes].
Qed.

Lemma run_debugger_shaped
    env python d0 w0 code_str input_to_inject previous_inputs_list :
  let d := (run_debugger env python d0 w0 code_str input_to_inject
                         previous_inputs_list).1.1 in
  Forall step_shape (execution_trace d)
  /\ forall i s, execution_trace d !! i = Some s -> input_request s <> None ->
                 S i = length (execution_trace d) /\ finished d = false.
Proof.
  intros d. subst d. unfold run_debugger.
  destruct (prepare_run d0 w0 code_str input_to_inject previous_inputs_list)
    as [d2 w1] eqn:Hprep.
  assert (steps_shaped d2) as Hd2.
  { unfold prepare_run in Hprep. injection Hprep as <- _. constructor. }
  assert (steps_shaped (execute env python d2 code_str).1.1) as Hd3.
  { unfold execute, runcall. destruct (python code_str) as [e|p]; [exact Hd2|].
    from_reset p.
    pose proof (exec_prog_shaped env p (set_step d2) Hd2) as Hp.
    destruct (exec_prog env (set_step d2) p) as [[d' o] m]. exact Hp. }
  destruct (execute env python d2 code_str) as [[d3 result] namespace].
  cbn [fst snd] in Hd3.
  pose proof (handle_handled env d3 result Hd3) as Hd4.
  destruct (handle env d3 result) as [[d4 error_info] flag]. cbn [fst snd] in Hd4.
  pose proof (before_amending_fields d4 w1 flag)
    as (Ht6 & _ & _ & _ & _ & _ & _ & _ & Hf6).
  cbn zeta in *.
  assert (handled (before_amending d4 w1 flag) error_info flag) as Hd6.
  { destruct Hd4 as (H1 & H2 & H3). unfold handled. rewrite Ht6, Hf6.
    split; [exact H1|]. split; [exact H2|].
    destruct flag; [|exact H3].
    destruct H3 as (Hnone & Hfin & Hlast). auto. }
  assert (flag = true -> finished (before_amending d4 w1 flag) = false) as Hfin.
  { intros ->. destruct Hd6 as (_ & _ & _ & Hfin & _). exact Hfin. }
  destruct (finish_graph_cases env d4 w1 result namespace error_info flag)
    as [[-> _]|(vars & nodes & Hnodes & -> & _)].
  - destruct Hd6 as (Hshape & _ & Hflag). split; [exact Hshape|].
    intros i s Hi Hrequest. destruct flag.
    + destruct Hflag as (_ & Hf & Hlast). split; [eapply Hlast; eauto|exact Hf].
    + exfalso. apply Hrequest. rewrite Forall_forall in Hflag.
      apply Hflag. eapply list_elem_of_lookup_2, Hi.
  - cbn [with_trace execution_trace finished].
    destruct (finalize_trace_shaped _ _ _ vars nodes Hd6 Hnodes) as [Hshape Hreq].
    split; [exact Hshape|].
    intros i s Hi Hrequest. destruct (Hreq i s Hi Hrequest) as [Hlen Hflag].
    split; [exact Hlen|apply Hfin, Hflag].
Qed.

(** X19.  Every step of the trace of a run shows at most seven stack
    frames, and the nodes of its object graph have pairwise distinct
    identities. *)
Theorem every_step_shows_a_bounded_stack_and_distinct_nodes
    env python d0 w0 code_str input_to_inject previous_inputs_list :
  Forall (fun s =>
            length (current_frames (stack_info s)) <= 7
            /\ List.NoDup (map node_id (visualizables s)))
         (execution_trace (run_debugger env python d0 w0 code_str input_to_inject
                                        previous_inputs_list).1.1).
Proof.
  apply (run_debugger_shaped env python d0 w0 code_str input_to_inject
                             previous_inputs_list).
Qed.

(** X20.  Only the last step of the trace of a run can hold an input
    request, and only when the run did not finish. *)
Theorem only_the_last_step_of_an_unfinished_run_requests_input
    env python d0 w0 code_str input_to_inject previous_inputs_list i s :
  let d := (run_debugger env python d0 w0 code_str input_to_inject
                         previous_inputs_list).1.1 in
  execution_trace d !! i = Some s -> input_request s <> None ->
  S i = length (execution_trace d) /\ finished d = false.
Proof.
  apply (run_debugger_shaped env python d0 w0 code_str input_to_inject
                             previous_inputs_list).
Qed.

Lemma only_the_last_step_of_an_unfinished_run_requests_input_witness :
  let d := (run_debugger example_host (fun _ => Compiled input_submission)
                         (new_debugger host_world) host_world "name = input()"
                         None None).1.1 in
  map input_request (execution_trace d) = [Some "name? "]
  /\ 1 = length (execution_trace d)
  /\ finished d = false.
Proof.
  intros d. split; [vm_compute; reflexivity|].
  destruct (execution_trace d !! 0) as [s|] eqn:Hs;
    [|vm_compute in Hs; discriminate Hs].
  refine (only_the_last_step_of_an_unfinished_run_requests_input
            example_host (fun _ => Compiled input_submission)
            (new_debugger host_world) host_world "name = input()" None None
            0 s Hs _).
  vm_compute in Hs. injection Hs as <-. discriminate.
Defined.


(** ** The call history shown in the steps *)

(** No record of the log is stamped after the current step, and the
    history of every step is a beginning of the log. *)
Definition history_inv (d : debugger) : Prop :=
  Forall (fun e => timestamp_step e <= current_step d) (call_event_log d)
  /\ Forall (fun s => exists later,
                 call_event_log d = historical_events (stack_info s) ++ later)
            (execution_trace d).

Lemma events_up_to_all log n :
  Forall (fun e => timestamp_step e <= n) log -> events_up_to log n = log.
Proof.
  unfold events_up_to. induction log as [|e log IH]; intros Hall; [reflexivity|].
  apply Forall_cons in Hall as [He Hall]. cbn [List.filter].
  apply Nat.leb_le in He. rewrite He, (IH Hall). reflexivity.
Qed.

Lemma history_inv_grow d d' later :
  history_inv d ->
  call_event_log d' = call_event_log d ++ later ->
  Forall (fun e => timestamp_step e <= current_step d) later ->
  current_step d <= current_step d' ->
  execution_trace d' = execution_trace d ->
  history_inv d'.
Proof.
  intros [Hstamps Hsteps] Hlog Hlater Hstep Htrace. unfold history_inv.
  rewrite Hlog, Htrace. split.
  - apply Forall_app. split; (eapply Forall_impl; [eassumption|]);
      intros e He; simpl in *; lia.
  - eapply Forall_impl; [exact Hsteps|]. intros s [k Hk].
    exists (k ++ later). rewrite Hk, app_assoc. reflexivity.
Qed.

Lemma user_call_history env d h f :
  history_inv d -> history_inv (user_call env d h f).
Proof.
  intros Hd. unfold user_call.
  assert (history_inv
            (with_calls d (S (call_id_counter d)) (call_event_log d)
               (active_call_ids_stack d ++ [S (call_id_counter d)])
               (logged_call_ids_stack d))) as Hd1 by exact Hd.
  destruct (negb (is_debugger_internal env f) && negb (is_bdb_internal f));
    [|exact Hd1].
  destruct (if negb (String.eqb (function_name_of f) "<module>")
            then _get_frame_args_and_values (recursion_depth env) h f ∅
            else Ok "N/A (module scope)") as [args_repr|e]; [|exact Hd1].
  eapply (history_inv_grow d); [exact Hd|reflexivity| | |reflexivity].
  - apply Forall_singleton. simpl. lia.
  - simpl. lia.
Qed.

Lemma user_return_history env d h f v :
  history_inv d -> history_inv (user_return env d h f v).
Proof.
  intros Hd. unfold user_return.
  destruct (top (active_call_ids_stack d)) as [returned_call_id|]; [|exact Hd].
  cbn [with_calls call_id_counter call_event_log active_call_ids_stack
       logged_call_ids_stack current_step].
  match goal with
  | |- context [if ?c then _ else _] => destruct c
  end; [|exact Hd].
  destruct (_safe_repr _ _ _ _ _ _) as [return_value_repr|e]; [|exact Hd].
  eapply (history_inv_grow d); [exact Hd|reflexivity| | |reflexivity].
  - apply Forall_singleton. simpl. lia.
  - simpl. lia.
Qed.

Lemma history_inv_step d s :
  history_inv d ->
  historical_events (stack_info s)
  = events_up_to (call_event_log d) (current_step d) ->
  history_inv (with_trace d (execution_trace d ++ [s]) (S (current_step d))).
Proof.
  intros [Hstamps Hsteps] Hs. split; simpl.
  - eapply Forall_impl; [exact Hstamps|]. intros e He. simpl in *. lia.
  - apply Forall_app. split; [exact Hsteps|].
    apply Forall_singleton. exists []. rewrite Hs, (events_up_to_all _ _ Hstamps).
    symmetry. apply app_nil_r.
Qed.

Lemma capture_step_history env d h f entry :
  capture_step env d h f = Ok entry ->
  historical_events (stack_info entry)
  = events_up_to (call_event_log d) (current_step d).
Proof.
  unfold capture_step. intros Hcap.
  destruct (display_vars _ _ _ _ (f_locals f)); cbn [bind] in Hcap; [|discriminate].
  destruct (display_vars _ _ _ _ (f_globals f)); cbn [bind] in Hcap; [|discriminate].
  pose proof (f_equal (fun r => match r with Ok a => a | Raise _ => entry end)
                      Hcap) as Hentry.
  cbv beta iota in Hentry. rewrite <- Hentry. reflexivity.
Qed.

Lemma user_line_history env d h f :
  history_inv d -> history_inv (user_line env d h f).
Proof.
  intros Hd. unfold user_line.
  destruct (String.eqb (getfile f) (debugger_script_abs env)
            && str_in (co_name (f_code f)) debugger_internal_methods);
    [exact Hd|].
  destruct (contains (basename (getfile f)) "bdb.py"); [exact Hd|].
  destruct (negb (String.eqb (getfile f) "<string>")); [exact Hd|].
  destruct (capture_step env d h f) as [entry|e] eqn:Hcap.
  - apply (history_inv_step d entry Hd). eapply capture_step_history, Hcap.
  - destruct (last_error_differs (execution_trace d) _).
    + apply (history_inv_step d _ Hd). reflexivity.
    + destruct Hd as [Hstamps Hsteps]. split; simpl; [|exact Hsteps].
      eapply Forall_impl; [exact Hstamps|]. intros e0 He. simpl in *. lia.
Qed.

Lemma history_inv_same d d' :
  same_calls d d' -> same_steps d d' -> history_inv d -> history_inv d'.
Proof.
  intros (_ & Hlog & _) (Ht & Hn & _). unfold history_inv.
  rewrite Hlog, Ht, Hn. auto.
Qed.

Lemma exec_prog_history env p d :
  history_inv d -> history_inv (exec_prog env d p).1.1.
Proof.
  apply exec_prog_inv.
  - apply user_line_history.
  - apply user_call_history.
  - apply user_return_history.
  - intros d1 prompt.
    apply history_inv_same; [apply input_mock_calls|apply input_mock_steps].
  - intros d1 text. apply history_inv_same; repeat split.
Qed.

Definition history_of (d : debugger) (s : step_entry) : Prop :=
  exists later, call_event_log d = historical_events (stack_info s) ++ later.

Lemma finalize_trace_history d error_info flag vars nodes :
  Forall (history_of d) (execution_trace d) ->
  Forall (history_of d) (finalize_trace d error_info flag vars nodes).
Proof.
  intros Hsteps. unfold finalize_trace.
  assert (forall s : step_entry,
             historical_events (stack_info s) = call_event_log d ->
             history_of d s) as Hwhole.
  { intros s Hs. exists []. rewrite Hs. symmetry. apply app_nil_r. }
  destruct error_info as [[info is_syntax]|].
  - destruct (last_error_differs (execution_trace d) (error info)).
    + apply Forall_app. split; [exact Hsteps|].
      apply Forall_singleton, Hwhole. destruct is_syntax; reflexivity.
    + apply Forall_set_last; [exact Hsteps|].
      intros s _. apply Hwhole. destruct is_syntax; reflexivity.
  - destruct flag; [exact Hsteps|].
    destruct (execution_trace d) as [|s0 t0] eqn:Htrace.
    + apply Forall_singleton, Hwhole. reflexivity.
    + apply Forall_set_last; [exact Hsteps|].
      intros s _. apply Hwhole. reflexivity.
Qed.

(** X22.  The call history a step of the trace of a run shows is a
    beginning of the call event log the run ends with: the filter on the
    time stamps leaves no record out, and no record of the log is removed
    or changed once a step has shown it. *)
Theorem step_histories_are_beginnings_of_the_call_log
    env python d0 w0 code_str input_to_inject previous_inputs_list :
  let d := (run_debugger env python d0 w0 code_str input_to_inject
                         previous_inputs_list).1.1 in
  Forall (fun s => exists later,
              call_event_log d = historical_events (stack_info s) ++ later)
         (execution_trace d).
Proof.
  intros d. subst d. unfold run_debugger.
  destruct (prepare_run d0 w0 code_str input_to_inject previous_inputs_list)
    as [d2 w1] eqn:Hprep.
  assert (history_inv d2) as Hd2.
  { unfold prepare_run in Hprep. injection Hprep as <- _. split; constructor. }
  assert (history_inv (execute env python d2 code_str).1.1) as Hd3.
  { unfold execute, runcall. destruct (python code_str) as [e|p]; [exact Hd2|].
    from_reset p.
    pose proof (exec_prog_history env p (set_step d2) Hd2) as Hp.
    destruct (exec_prog env (set_step d2) p) as [[d' o] m]. exact Hp. }
  destruct (execute env python d2 code_str) as [[d3 result] namespace].
  cbn [fst snd] in Hd3.
  assert (Forall (history_of (handle env d3 result).1.1)
                 (execution_trace (handle env d3 result).1.1)) as Hd4.
  { destruct Hd3 as [_ Hsteps]. unfold handle.
    destruct result as [|prompt|[e|e|]]; try exact Hsteps.
    cbn [fst snd on_waiting_for_input with_finished with_trace execution_trace].
    apply Forall_set_last; [exact Hsteps|]. intros s Hs. exact Hs. }
  destruct (handle env d3 result) as [[d4 error_info] flag]. cbn [fst snd] in Hd4.
  pose proof (before_amending_fields d4 w1 flag)
    as (Ht6 & _ & _ & Hl6 & _).
  cbn zeta in *.
  assert (Forall (history_of (before_amending d4 w1 flag))
                 (execution_trace (before_amending d4 w1 flag))) as Hd6.
  { rewrite Ht6. unfold history_of. rewrite Hl6. exact Hd4. }
  destruct (finish_cases env d4 w1 result namespace error_info flag)
    as [[-> _]|(vars & nodes & -> & _)].
  - exact Hd6.
  - cbn [with_trace execution_trace call_event_log].
    apply finalize_trace_history, Hd6.
Qed.

End TraceFacts.

(* ===================================================================== *)
(** * The argument text of a frame                                        *)
(* ===================================================================== *)

Module FrameFacts.
Import PyStr Heap Render Session Examples GraphFacts.

(** X21.  The text [_get_frame_args_and_values] builds in place of the
    rendering, for a [self] whose class is defined by the submission and
    for a [cls] bound to a class, a function or a method that the
    submission defines, is built only for these two parameter names,
    starts with an angle bracket and never exceeds [ARG_REPR_MAX_LEN]
    characters: a name that does not fit is cut and followed by an
    ellipsis. *)
Theorem special_argument_text_fits_the_limit h arg_name value r :
  special_arg_repr h arg_name value = Some r ->
  (arg_name = "self" \/ arg_name = "cls")
  /\ len r <= ARG_REPR_MAX_LEN
  /\ startswith r "<" = true.
Proof.
  unfold special_arg_repr.
  assert (forall class_name_str type_description_str,
             len type_description_str <= 6 ->
             (if is_empty class_name_str then None
              else
                if len class_name_str
                   <=? ARG_REPR_MAX_LEN - len ("< " ^^ type_description_str ^^ ">")
                then Some ("<" ^^ class_name_str ^^ " " ^^ type_description_str ^^ ">")
                else if 3 <? ARG_REPR_MAX_LEN - len ("< " ^^ type_description_str ^^ ">")
                     then Some ("<" ^^ take (ARG_REPR_MAX_LEN
                                             - len ("< " ^^ type_description_str ^^ ">")
                                             - 3) class_name_str
                                ^^ "... " ^^ type_description_str ^^ ">")
                     else Some ("<" ^^ type_description_str ^^ ">")) = Some r ->
             len r <= ARG_REPR_MAX_LEN /\ startswith r "<" = true) as Hfits.
  { intros class_name_str type_description_str Hdesc.
    destruct (is_empty class_name_str); [discriminate|].
    rewrite !len_cat. change (len "< ") with 2. change (len ">") with 1.
    unfold ARG_REPR_MAX_LEN.
    destruct (Nat.leb_spec (len class_name_str)
                           (80 - (2 + (len type_description_str + 1)))).
    - intros [= <-]. split; [|reflexivity].
      rewrite !len_cat. change (len "<") with 1. change (len " ") with 1.
      change (len ">") with 1. lia.
    - destruct (Nat.ltb_spec 3 (80 - (2 + (len type_description_str + 1)))).
      + intros [= <-]. split; [|reflexivity].
        rewrite !len_cat. change (len "<") with 1. change (len "... ") with 4.
        change (len ">") with 1.
        match goal with
        | |- context [len (take ?n ?s)] => pose proof (len_take n s)
        end.
        lia.
      + intros [= <-]. split; [|reflexivity].
        rewrite !len_cat. change (len "<") with 1. change (len ">") with 1. lia. }
  destruct (String.eqb_spec arg_name "self") as [->|Hself].
  - destruct (String.eqb (type_module (obj_at h value)) "__debugger_run__");
      [|discriminate].
    intros Hr. split; [left; reflexivity|].
    apply (Hfits (type_name (obj_at h value)) "object"); [simpl; lia|exact Hr].
  - destruct (String.eqb_spec arg_name "cls") as [->|Hcls]; [|discriminate].
    destruct (module_and_name (obj_at h value)) as [[m n]|]; [|discriminate].
    destruct (String.eqb m "__debugger_run__"); [|discriminate].
    intros Hr. split; [right; reflexivity|].
    apply (Hfits n "class"); [simpl; lia|exact Hr].
Qed.

Lemma special_argument_text_fits_the_limit_witness :
  special_arg_repr node_heap "self" 30%Z = Some "<Node object>"
  /\ len "<Node object>" <= ARG_REPR_MAX_LEN.
Proof.
  split; [vm_compute; reflexivity|].
  apply (special_argument_text_fits_the_limit node_heap "self" 30%Z "<Node object>").
  vm_compute. reflexivity.
Defined.

(** A function [h] of the submission bound to a parameter named [cls] is
    described as a class (the test of line 551 reads [__module__] only). *)
Lemma function_bound_to_cls_is_described_as_a_class :
  special_arg_repr
    {| obj_at := fun _ => VOpaque (OFunction "__debugger_run__" "h");
       repr_of := fun _ => Ok "<function h at 0x1e>" |}
    "cls" 30%Z
  = Some "<h class>".
Proof. vm_compute. reflexivity. Qed.

End FrameFacts.

(* ===================================================================== *)
(** * Properties of the response cleaner                                  *)
(* ===================================================================== *)

Module CleanerFacts.
Import PyStr Cleaner.

(** ** [str.strip] *)

Lemma cat_cons x a b : String x a ^^ b = String x (a ^^ b).
Proof. reflexivity. Qed.

Lemma rev_onto_cat s acc : rev_onto s acc = rev_onto s EmptyString ^^ acc.
Proof.
  revert acc. induction s as [|x s IH]; intros acc; [reflexivity|].
  cbn [rev_onto]. rewrite (IH (String x acc)), (IH (String x EmptyString)).
  rewrite TraceFacts.cat_assoc. reflexivity.
Qed.

Lemma rev_cons x s : rev (String x s) = rev s ^^ String x EmptyString.
Proof. unfold rev. cbn [rev_onto]. apply rev_onto_cat. Qed.

Lemma rev_cat a b : rev (a ^^ b) = rev b ^^ rev a.
Proof.
  induction a as [|x a IH].
  - change (EmptyString ^^ b) with b. symmetry. apply TraceFacts.cat_empty_r.
  - rewrite cat_cons, !rev_cons, IH, TraceFacts.cat_assoc. reflexivity.
Qed.

Lemma rev_rev s : rev (rev s) = s.
Proof.
  induction s as [|x s IH]; [reflexivity|].
  rewrite rev_cons, rev_cat, IH. reflexivity.
Qed.

(** No white space at the start. *)
Definition headed (s : string) : Prop :=
  match s with
  | String c _ => isspace c = false
  | EmptyString => True
  end.

Lemma lstrip_headed s : headed (lstrip s).
Proof.
  induction s as [|c s IH]; [exact I|].
  cbn [lstrip]. destruct (isspace c) eqn:Hc; [exact IH|exact Hc].
Qed.

Lemma headed_lstrip s : headed s -> lstrip s = s.
Proof. destruct s as [|c s]; [reflexivity|]. simpl. intros ->. reflexivity. Qed.

Lemma lstrip_split s : exists ws, s = ws ^^ lstrip s.
Proof.
  induction s as [|c s [ws IH]]; [exists EmptyString; reflexivity|].
  cbn [lstrip]. destruct (isspace c).
  - exists (String c ws). rewrite cat_cons, <- IH. reflexivity.
  - exists EmptyString. reflexivity.
Qed.

Lemma headed_cat_l a b : headed (a ^^ b) -> headed a.
Proof. destruct a as [|c a]; [intros _; exact I|]. rewrite cat_cons. auto. Qed.

Lemma strip_headed s : headed (strip s) /\ headed (rev (strip s)).
Proof.
  unfold strip. rewrite rev_rev. split; [|apply lstrip_headed].
  destruct (lstrip_split (rev (lstrip s))) as [ws Hws].
  pose proof (lstrip_headed s) as Ha.
  rewrite <- (rev_rev (lstrip s)), Hws, rev_cat in Ha.
  eapply headed_cat_l, Ha.
Qed.

Lemma strip_idempotent s : strip (strip s) = strip s.
Proof.
  destruct (strip_headed s) as [H1 H2].
  unfold strip at 1. rewrite (headed_lstrip _ H1), (headed_lstrip _ H2).
  apply rev_rev.
Qed.

(** ** [clean_code_response] *)

(** X24.  [clean_code_response] never returns a blank text.  It
    returns its argument unchanged when that is a text whose content,
    white space aside, starts with [Error:]; every other result has no
    white space at either end (it is a trimmed text or one of the two
    error messages). *)
Theorem cleaned_response_is_never_blank response_text :
  let r := clean_code_response response_text in
  ((response_text = Some r /\ startswith (strip r) "Error:" = true)
   \/ strip r = r)
  /\ strip r <> EmptyString.
Proof.
  intros r. subst r. unfold clean_code_response.
  destruct response_text as [text|]; [|split; [right; reflexivity|discriminate]].
  destruct (startswith (strip text) "Error:") eqn:Herror.
  - split; [left; auto|]. intros Hblank. rewrite Hblank in Herror. discriminate.
  - match goal with
    | |- context [is_empty (strip ?c)] => generalize c
    end.
    intros cleaned. destruct (is_empty (strip cleaned)) eqn:Hempty.
    + split; [right; reflexivity|discriminate].
    + rewrite strip_idempotent. split; [right; reflexivity|].
      intros Hblank. rewrite Hblank in Hempty. discriminate.
Qed.

(** ** [remove_think_tag] *)

Lemma lower_cons c s : lower (String c s) = String (lower_char c) (lower s).
Proof. reflexivity. Qed.

Lemma lower_char_lt c : Ascii.eqb (lower_char c) "<" = Ascii.eqb c "<".
Proof. destruct c as [[] [] [] [] [] [] [] []]; reflexivity. Qed.

Lemma startswith_other_char x c p s :
  Ascii.eqb x c = false -> startswith (String x s) (String c p) = false.
Proof.
  intros H. cbn [startswith]. rewrite Ascii.eqb_sym, H. reflexivity.
Qed.

(** A text without the first character of a pattern holds no match. *)
Lemma no_first_char_no_prefix c p s :
  has_char c s = false -> startswith s (String c p) = false.
Proof.
  destruct s as [|x s]; [reflexivity|].
  cbn [has_char]. intros H. apply orb_false_iff in H as [Hx _].
  apply startswith_other_char, Hx.
Qed.

Lemma has_char_lower_lt s : has_char "<" (lower s) = has_char "<" s.
Proof.
  induction s as [|c s IH]; [reflexivity|].
  rewrite lower_cons. cbn [has_char]. rewrite lower_char_lt, IH. reflexivity.
Qed.

Lemma sub_think_plain s : has_char "<" s = false -> sub_think 0 s = s.
Proof.
  induction s as [|c s IH]; [reflexivity|].
  intros Hs. cbn [sub_think]. unfold think_block_at.
  rewrite (no_first_char_no_prefix "<" "think>")
    by (rewrite has_char_lower_lt; exact Hs).
  cbn [has_char] in Hs. apply orb_false_iff in Hs as [_ Hs].
  rewrite (IH Hs). reflexivity.
Qed.

Lemma find_close_body body rest :
  has_char "<" body = false ->
  find_close (body ^^ "</think>" ^^ rest) = Some (len body + 8).
Proof.
  induction body as [|c body IH]; intros Hbody; [reflexivity|].
  cbn [has_char] in Hbody. apply orb_false_iff in Hbody as [Hc Hbody].
  rewrite cat_cons. cbn [find_close]. rewrite lower_cons.
  rewrite startswith_other_char by (rewrite lower_char_lt; exact Hc).
  rewrite (IH Hbody). reflexivity.
Qed.

Lemma sub_think_skip x y : sub_think (len x) (x ^^ y) = sub_think 0 y.
Proof.
  induction x as [|c x IH]; [reflexivity|].
  rewrite cat_cons. exact IH.
Qed.

(** X25.  [remove_think_tag] returns a text without a [<] as it is,
    and leaves out a block at the start of a text, from [<think>] to the
    first [</think>] behind it, when the body of the block holds no
    [<]: what it returns is what it returns for the rest. *)
Theorem think_block_is_left_out_and_plain_text_kept :
  (forall text, has_char "<" text = false -> remove_think_tag (Some text) = text)
  /\ (forall body rest,
        has_char "<" body = false ->
        remove_think_tag (Some ("<think>" ^^ body ^^ "</think>" ^^ rest))
        = remove_think_tag (Some rest)).
Proof.
  split; [exact sub_think_plain|].
  intros body rest Hbody. unfold remove_think_tag.
  change ("<think>" ^^ body ^^ "</think>" ^^ rest)
    with (String "<" ("think>" ^^ body ^^ "</think>" ^^ rest)).
  cbn [sub_think].
  assert (think_block_at (String "<" ("think>" ^^ body ^^ "</think>" ^^ rest))
          = Some (S (len ("think>" ^^ body ^^ "</think>")))) as ->.
  { unfold think_block_at.
    change (startswith (lower (String "<" ("think>" ^^ body ^^ "</think>" ^^ rest)))
                       "<think>") with true.
    change (drop 7 (String "<" ("think>" ^^ body ^^ "</think>" ^^ rest)))
      with (body ^^ "</think>" ^^ rest).
    rewrite (find_close_body body rest Hbody).
    rewrite !GraphFacts.len_cat. reflexivity. }
  rewrite <- (sub_think_skip ("think>" ^^ body ^^ "</think>") rest).
  rewrite !TraceFacts.cat_assoc. reflexivity.
Qed.

(** ** Texts without fences *)

Lemma has_char_lstrip c s : has_char c s = false -> has_char c (lstrip s) = false.
Proof.
  induction s as [|x s IH]; [reflexivity|].
  intros Hs. cbn [lstrip]. destruct (isspace x); [|exact Hs].
  cbn [has_char] in Hs. apply orb_false_iff in Hs as [_ Hs]. auto.
Qed.

Lemma fence_open_at_plain s : has_char "`" s = false -> fence_open_at s = None.
Proof.
  intros Hs. unfold fence_open_at, fence.
  rewrite (no_first_char_no_prefix "`" "``") by (apply has_char_lstrip, Hs).
  reflexivity.
Qed.

Lemma sub_fence_open_plain s :
  has_char "`" s = false -> forall at_start, sub_fence_open at_start 0 s = s.
Proof.
  induction s as [|c s IH]; [reflexivity|].
  intros Hs at_start. cbn [sub_fence_open].
  rewrite (fence_open_at_plain _ Hs).
  cbn [has_char] in Hs. apply orb_false_iff in Hs as [_ Hs].
  rewrite (IH Hs). destruct at_start; reflexivity.
Qed.

Lemma sub_fence_close_plain s :
  has_char "`" s = false -> sub_fence_close 0 s = s.
Proof.
  induction s as [|c s IH]; [reflexivity|].
  intros Hs. cbn [sub_fence_close fence_close_at].
  cbn [has_char] in Hs. apply orb_false_iff in Hs as [_ Hs].
  unfold fence.
  rewrite (no_first_char_no_prefix "`" "``") by (apply has_char_lstrip, Hs).
  rewrite (IH Hs). destruct (Ascii.eqb c newline); reflexivity.
Qed.

Lemma has_char_rev c s : has_char c (rev s) = has_char c s.
Proof.
  unfold rev. rewrite SanitizerFacts.has_char_rev_onto. apply orb_false_r.
Qed.

Lemma splitlines_from_has_char c n :
  forall s cur,
    len s <= n -> has_char c cur = false -> has_char c s = false ->
    Forall (fun l => has_char c l = false) (splitlines_from cur s).
Proof.
  induction n as [|n IH]; intros s cur Hlen Hcur Hs.
  - destruct s; [|simpl in Hlen; lia].
    cbn [splitlines_from]. destruct (is_empty cur); constructor; [|constructor].
    rewrite has_char_rev. exact Hcur.
  - destruct s as [|x rest].
    + cbn [splitlines_from]. destruct (is_empty cur); constructor; [|constructor].
      rewrite has_char_rev. exact Hcur.
    + cbn [has_char] in Hs. apply orb_false_iff in Hs as [Hx Hrest].
      assert (len rest <= n) as Hn by (unfold len in *; simpl in Hlen; lia).
      cbn [splitlines_from]. destruct (is_linebreak x).
      * constructor; [rewrite has_char_rev; exact Hcur|].
        destruct (Ascii.eqb x creturn); [|apply IH; auto].
        destruct rest as [|d rest']; [apply IH; auto|].
        destruct (Ascii.eqb d newline); [|apply IH; auto].
        cbn [has_char] in Hrest. apply orb_false_iff in Hrest as [_ Hrest'].
        apply IH; auto. unfold len in *. simpl in Hn. lia.
      * apply IH; auto. cbn [has_char]. rewrite Hx, Hcur. reflexivity.
Qed.

Lemma from_code_start_Forall (P : string -> Prop) lines kept :
  Forall P lines -> from_code_start lines = Some kept -> Forall P kept.
Proof.
  induction lines as [|line rest IH]; [discriminate|].
  intros Hall. cbn [from_code_start].
  destruct (is_code_start line); [intros [= <-]; exact Hall|].
  apply IH. apply Forall_cons in Hall as [_ Hall]. exact Hall.
Qed.

Lemma has_char_join c lines :
  Ascii.eqb newline c = false ->
  Forall (fun l => has_char c l = false) lines ->
  has_char c (join LF lines) = false.
Proof.
  intros Hc. induction lines as [|l rest IH]; intros Hall; [reflexivity|].
  apply Forall_cons in Hall as [Hl Hrest].
  destruct rest as [|l' rest']; [exact Hl|].
  change (join LF (l :: l' :: rest')) with (l ^^ LF ^^ join LF (l' :: rest')).
  rewrite !SanitizerFacts.has_char_cat, Hl, (IH Hrest).
  unfold LF, chr. cbn [has_char]. rewrite Hc. reflexivity.
Qed.

(** X26.  For a text with no [<] and no backquote whose content does
    not start with [Error:], none of the three substitutions changes
    anything: the result is the text from its first line of code on, the
    lines joined by line feeds (the whole text when no line is taken for
    code), with the white space at both ends removed, or the error
    message when nothing is left. *)
Theorem plain_response_is_cut_at_the_first_line_of_code_and_trimmed text :
  has_char "<" text = false ->
  has_char "`" text = false ->
  startswith (strip text) "Error:" = false ->
  clean_code_response (Some text)
  = let kept := match from_code_start (splitlines text) with
                | Some lines => join LF lines
                | None => text
                end in
    if is_empty (strip kept) then empty_result_message else strip kept.
Proof.
  intros Htag Hfence Herror. unfold clean_code_response.
  rewrite Herror. unfold remove_think_tag. rewrite (sub_think_plain _ Htag).
  assert (has_char "`"
            match from_code_start (splitlines text) with
            | Some lines => join LF lines
            | None => text
            end = false) as Hkept.
  { destruct (from_code_start (splitlines text)) as [lines|] eqn:Hstart;
      [|exact Hfence].
    apply has_char_join; [reflexivity|].
    eapply from_code_start_Forall; [|exact Hstart].
    apply (splitlines_from_has_char "`" (len text)); auto. }
  cbv zeta.
  rewrite (sub_fence_open_plain _ Hkept), (sub_fence_close_plain _ Hkept).
  reflexivity.
Qed.

Lemma plain_response_is_cut_at_the_first_line_of_code_and_trimmed_witness :
  clean_code_response
    (Some ("Here is the code:" ^^ LF ^^ LF ^^ "x = 1  " ^^ LF ^^ "print(x)" ^^ LF))
  = "x = 1  " ^^ LF ^^ "print(x)".
Proof.
  rewrite (plain_response_is_cut_at_the_first_line_of_code_and_trimmed
             ("Here is the code:" ^^ LF ^^ LF ^^ "x = 1  " ^^ LF ^^ "print(x)" ^^ LF));
    vm_compute; reflexivity.
Defined.


(** ** The conversion stage of the route *)

Lemma clean_code_response_not_blank response_text :
  is_empty (strip (clean_code_response response_text)) = false.
Proof.
  unfold clean_code_response.
  destruct response_text as [text|]; [|reflexivity].
  destruct (startswith (strip text) "Error:") eqn:Herror.
  - destruct (strip text); [discriminate|reflexivity].
  - match goal with
    | |- context [strip (sub_fence_close 0 ?c)] => generalize (sub_fence_close 0 c)
    end.
    intros cleaned. destruct (is_empty (strip cleaned)) eqn:Hempty; [reflexivity|].
    rewrite strip_idempotent. exact Hempty.
Qed.

Lemma startswith_cat s t p : startswith s p = true -> startswith (s ^^ t) p = true.
Proof.
  revert s. induction p as [|a p IH]; intros s; [reflexivity|].
  destruct s as [|b s]; [discriminate|].
  rewrite cat_cons. cbn [startswith]. intros H.
  apply andb_prop in H as [-> H]. rewrite (IH _ H). reflexivity.
Qed.

(** X27.  In the conversion stage of [debug], every [ValueError] has a
    message that starts with [Error:]: the text of the converter or of
    the cleaner, possibly with the raw text after it.  The messages for an
    empty conversion and for missing code are never raised there, since
    the cleaner returns no blank text; the code handed to the tracer has a
    character that is not white space and does not start with
    [Error:]. *)
Theorem conversion_stage_raises_only_error_texts converted_code_raw :
  match Route.code_from_conversion converted_code_raw with
  | inl message => startswith message "Error:" = true
  | inr code =>
      code = clean_code_response (Some converted_code_raw)
      /\ startswith code "Error:" = false
      /\ strip code <> EmptyString
  end.
Proof.
  unfold Route.code_from_conversion.
  destruct (startswith converted_code_raw "Error:") eqn:Hraw; [exact Hraw|].
  pose proof (clean_code_response_not_blank (Some converted_code_raw)) as Hblank.
  rewrite Hblank, !orb_false_r.
  destruct (startswith (clean_code_response (Some converted_code_raw)) "Error:")
    eqn:Hfinal.
  - destruct (contains _ "empty code"); [|exact Hfinal].
    apply startswith_cat, Hfinal.
  - destruct (is_empty (clean_code_response (Some converted_code_raw))) eqn:Hempty.
    + destruct (clean_code_response (Some converted_code_raw)); discriminate.
    + split; [reflexivity|]. split; [exact Hfinal|].
      intros Hstrip. rewrite Hstrip in Hblank. discriminate.
Qed.

End CleanerFacts.

(* ===================================================================== *)
(** * Properties of the event stream                                      *)
(* ===================================================================== *)

Module StreamFacts.
Import PyStr Stream.

(** An event of the stream: a data event or a comment, closed by an
    empty line. *)
Definition well_formed_event (e : string) : Prop :=
  (startswith e "data: " = true \/ startswith e ":" = true)
  /\ exists body, e = body ^^ LF ^^ LF.

(** A line that ends the relay. *)
Definition is_done_line (line : string) : bool :=
  negb (is_empty line) && startswith line "data: "
  && String.eqb (strip (drop 6 line)) "[DONE]".

Lemma five_parts a b c d e w :
  a ^^ b ^^ c ^^ d ^^ e ^^ w = (a ^^ b ^^ c ^^ d ^^ e) ^^ w.
Proof. rewrite !TraceFacts.cat_assoc. reflexivity. Qed.

Lemma error_event_well_formed message : well_formed_event (error_event message).
Proof.
  split; [left; reflexivity|].
  exists ("data: {" ^^ json_text "error" ^^ ": " ^^ json_text message ^^ "}").
  exact (five_parts "data: {" (json_text "error") ": " (json_text message) "}"
                    (LF ^^ LF)).
Qed.

Lemma relay_well_formed lines : Forall well_formed_event (relay lines).1.
Proof.
  induction lines as [|line rest IH]; [constructor|].
  cbn [relay]. destruct (is_empty line); [exact IH|].
  destruct (startswith line "data: ").
  - destruct (String.eqb (strip (drop 6 line)) "[DONE]").
    + apply Forall_singleton. split; [left; reflexivity|].
      exists (take (len done_event - 2) done_event). vm_compute. reflexivity.
    + destruct (relay rest) as [events done]. apply Forall_cons. split; [|exact IH].
      split; [left; reflexivity|].
      exists ("data: " ^^ strip (drop 6 line)).
      symmetry. apply TraceFacts.cat_assoc.
  - destruct (String.eqb (strip line) ":" || startswith (strip line) ": ping");
      [|exact IH].
    destruct (relay rest) as [events done]. apply Forall_cons. split; [|exact IH].
    split; [right; reflexivity|]. exists ": keep-alive". reflexivity.
Qed.

(** X28.  Every event the response of [ask_llm_stream] yields, whether
    relayed from the server, made for a failure or for a blank code or
    question, is a data event or a comment and ends with an empty line;
    for a blank code or question the response is one error event and does
    not depend on the server. *)
Theorem every_event_of_the_stream_is_well_formed code user_question lines ending :
  Forall (fun e =>
            (startswith e "data: " = true \/ startswith e ":" = true)
            /\ exists body, e = body ^^ LF ^^ LF)
         (ask_llm_stream code user_question lines ending)
  /\ (is_empty (strip code) = true ->
      ask_llm_stream code user_question lines ending
      = [error_event "Code cannot be empty."])
  /\ (is_empty (strip code) = false -> is_empty (strip user_question) = true ->
      ask_llm_stream code user_question lines ending
      = [error_event "Question cannot be empty."]).
Proof.
  unfold ask_llm_stream. split; [|split].
  - destruct (is_empty (strip code));
      [apply Forall_singleton, error_event_well_formed|].
    destruct (is_empty (strip user_question));
      [apply Forall_singleton, error_event_well_formed|].
    unfold generate_llm_stream.
    pose proof (relay_well_formed lines) as Hrelay.
    destruct (relay lines) as [events done]. cbn [fst] in Hrelay.
    destruct done; [exact Hrelay|].
    apply Forall_app. split; [exact Hrelay|].
    destruct ending; [constructor|..];
      apply Forall_singleton, error_event_well_formed.
  - intros ->. reflexivity.
  - intros -> ->. reflexivity.
Qed.

Lemma relay_up_to_done before done_line after :
  Forall (fun l => is_done_line l = false) before ->
  is_done_line done_line = true ->
  relay (before ++ done_line :: after) = ((relay before).1 ++ [done_event], true).
Proof.
  intros Hbefore Hdone. induction before as [|line rest IH].
  - cbn [app relay fst]. unfold is_done_line in Hdone.
    apply andb_prop in Hdone as [Hdone Hmark].
    apply andb_prop in Hdone as [Hempty Hdata].
    apply negb_true_iff in Hempty. rewrite Hempty, Hdata, Hmark. reflexivity.
  - apply Forall_cons in Hbefore as [Hline Hrest]. specialize (IH Hrest).
    cbn [app relay]. unfold is_done_line in Hline.
    destruct (is_empty line); [exact IH|].
    destruct (startswith line "data: ").
    + destruct (String.eqb (strip (drop 6 line)) "[DONE]"); [discriminate|].
      rewrite IH. destruct (relay rest) as [events done]. reflexivity.
    + destruct (String.eqb (strip line) ":" || startswith (strip line) ": ping");
        [|exact IH].
      rewrite IH. destruct (relay rest) as [events done]. reflexivity.
Qed.

(** X29.  When the server sends the end marker, the generator yields
    the events for the lines before the marker, then the closing event,
    and nothing more: the lines behind the marker and the way the
    delivery ends have no effect. *)
Theorem nothing_is_relayed_behind_the_end_marker before done_line after ending :
  Forall (fun l => is_done_line l = false) before ->
  is_done_line done_line = true ->
  generate_llm_stream (before ++ done_line :: after) ending
  = generate_llm_stream before StreamEnds ++ [done_event].
Proof.
  intros Hbefore Hdone. unfold generate_llm_stream.
  rewrite (relay_up_to_done before done_line after Hbefore Hdone).
  assert ((relay before).2 = false) as Hopen.
  { clear Hdone. induction before as [|line rest IH]; [reflexivity|].
    apply Forall_cons in Hbefore as [Hline Hrest]. specialize (IH Hrest).
    cbn [relay]. unfold is_done_line in Hline.
    destruct (is_empty line); [exact IH|].
    destruct (startswith line "data: ").
    - destruct (String.eqb (strip (drop 6 line)) "[DONE]"); [discriminate|].
      destruct (relay rest) as [events done]. exact IH.
    - destruct (String.eqb (strip line) ":" || startswith (strip line) ": ping");
        [|exact IH].
      destruct (relay rest) as [events done]. exact IH. }
  destruct (relay before) as [events done]. cbn [fst snd] in *. subst done.
  rewrite app_nil_r. reflexivity.
Qed.

Lemma nothing_is_relayed_behind_the_end_marker_witness :
  generate_llm_stream
    ["data: {}"; ""; ": ping 1"; "data:  [DONE] "; "data: late"] TimeoutRaised
  = generate_llm_stream ["data: {}"; ""; ": ping 1"] StreamEnds ++ [done_event]
  /\ generate_llm_stream ["data: {}"; ""; ": ping 1"] StreamEnds
     = ["data: {}" ^^ LF ^^ LF; keep_alive].
Proof.
  split; [|vm_compute; reflexivity].
  apply (nothing_is_relayed_behind_the_end_marker
           ["data: {}"; ""; ": ping 1"] "data:  [DONE] " ["data: late"]
           TimeoutRaised).
  - repeat constructor.
  - vm_compute. reflexivity.
Defined.

End StreamFacts.
